(** * api.video -> S3 transfer script: key mapping, transfer pipeline,
      failure ledger and verifier.

    Shallow embedding of the streaming transfer script (the variant with
    pagination, retry, ledger and verify mode).  JavaScript strings are
    sequences of UTF-16 code units; everything that talks to the network,
    the clock or the timer is an oracle acting on an abstract world; the
    ledger file is a concrete piece of state holding (or not) a text,
    [JSON.stringify] and [JSON.parse] work on that text, and whether a
    write or a removal of the file goes through is for the file system to
    say.  The two [while] style loops of the script (catalog pages, store
    listing) take fuel.  Console output is left out, except where building
    a line of it can throw. *)

From Equations Require Import Equations.
From Stdlib Require Import List NArith ZArith Arith Bool Lia String Ascii.
Import ListNotations.

Set Implicit Arguments.
Set Warnings "-register-all".

Local Open Scope N_scope.

(* ===================================================================== *)
(** ** JavaScript strings *)
(* ===================================================================== *)

(** A code unit of a JavaScript string (16 bits, kept as a natural number). *)
Definition char16 := N.

(** A JavaScript string: its UTF-16 code units, in order. *)
Definition JSString := list char16.

(** ASCII literals of the script, as code units. *)
Definition js (s : string) : JSString :=
  List.map N_of_ascii (list_ascii_of_string s).

Definition in_range (lo hi c : char16) : bool := (lo <=? c) && (c <=? hi).

Fixpoint jsstr_eqb (a b : JSString) : bool :=
  match a, b with
  | [], [] => true
  | x :: a', y :: b' => (x =? y) && jsstr_eqb a' b'
  | _, _ => false
  end.

(** The regular-expression class [\s] (no [u] flag), which is also the set
    that [String.prototype.trim] strips: WhiteSpace and LineTerminator. *)
Definition is_space (c : char16) : bool :=
  in_range 9 13 c          (* TAB LF VT FF CR *)
  || (c =? 32)             (* SPACE *)
  || (c =? 160)            (* NBSP *)
  || (c =? 5760)           (* U+1680 *)
  || in_range 8192 8202 c  (* U+2000 .. U+200A *)
  || (c =? 8232) || (c =? 8233)  (* LS, PS *)
  || (c =? 8239)           (* U+202F *)
  || (c =? 8287)           (* U+205F *)
  || (c =? 12288)          (* U+3000 *)
  || (c =? 65279).         (* U+FEFF *)

(** The class [a-zA-Z0-9\-\s.] of the sanitizing expression. *)
Definition allowed_char (c : char16) : bool :=
  in_range 97 122 c        (* a-z *)
  || in_range 65 90 c      (* A-Z *)
  || in_range 48 57 c      (* 0-9 *)
  || (c =? 45)             (* \- *)
  || is_space c            (* \s *)
  || (c =? 46).            (* . *)

(** [s.replace(/[cls]/g, repl)]: every code unit of the class is replaced. *)
Definition replace_each (cls : char16 -> bool) (repl s : JSString) : JSString :=
  flat_map (fun c => if cls c then repl else [c]) s.

(** [s.replace(/[cls]+/g, repl)]: every maximal run of the class is
    replaced once.  [in_run] tells that the previous unit was in the class. *)
Fixpoint replace_runs_from (cls : char16 -> bool) (repl : JSString)
    (in_run : bool) (s : JSString) : JSString :=
  match s with
  | [] => []
  | c :: r =>
      if cls c
      then (if in_run then [] else repl) ++ replace_runs_from cls repl true r
      else c :: replace_runs_from cls repl false r
  end.

Definition replace_runs (cls : char16 -> bool) (repl s : JSString) : JSString :=
  replace_runs_from cls repl false s.

Fixpoint trimStart (s : JSString) : JSString :=
  match s with
  | [] => []
  | c :: r => if is_space c then trimStart r else s
  end.

Definition trimEnd (s : JSString) : JSString := rev (trimStart (rev s)).

(** [s.trim()] *)
Definition trim (s : JSString) : JSString := trimEnd (trimStart s).

(** [a || b] on strings: the empty string is the only falsy string. *)
Definition str_or (a b : JSString) : JSString :=
  match a with [] => b | _ => a end.

(** The decimal digits of a natural number. *)
Fixpoint uint_units (d : Decimal.uint) : JSString :=
  match d with
  | Decimal.Nil => []
  | Decimal.D0 d' => 48 :: uint_units d'
  | Decimal.D1 d' => 49 :: uint_units d'
  | Decimal.D2 d' => 50 :: uint_units d'
  | Decimal.D3 d' => 51 :: uint_units d'
  | Decimal.D4 d' => 52 :: uint_units d'
  | Decimal.D5 d' => 53 :: uint_units d'
  | Decimal.D6 d' => 54 :: uint_units d'
  | Decimal.D7 d' => 55 :: uint_units d'
  | Decimal.D8 d' => 56 :: uint_units d'
  | Decimal.D9 d' => 57 :: uint_units d'
  end.

(** [`${n}`] for a whole number, such as a status code: its decimal
    digits. *)
Definition Number_toString (n : N) : JSString := uint_units (N.to_uint n).

(* ===================================================================== *)
(** ** Video records *)
(* ===================================================================== *)

(** A property that holds a string, [null] or nothing at all. *)
Inductive Nullable : Type :=
| js_undefined
| js_null
| js_string (s : JSString).

(** A catalog record as the pipeline uses it: [video.videoId], [video.title]. *)
Record Video : Type := mkVideo {
  videoId : JSString;
  title : Nullable
}.

(** [video.title || video.videoId] *)
Definition title_or_videoId (video : Video) : JSString :=
  match title video with
  | js_string (c :: r) => c :: r
  | _ => videoId video
  end.

Definition key_prefix : JSString := js "api-video-backup/".
Definition key_separator : JSString := js " - ".

(** The key derivation as written inside the loop of [transferVideos]. *)
Module TransferPath.

Definition sanitizeFilename (video : Video) (title : JSString) : JSString :=
  str_or
    (trim
       (replace_runs is_space (js " ")
          (replace_each (fun c => negb (allowed_char c)) (js "") title)))
    (videoId video).

Definition safeTitle (video : Video) : JSString :=
  sanitizeFilename video (title_or_videoId video).

(** [`api-video-backup/${safeTitle} - ${video.videoId}`] *)
Definition s3Key (video : Video) : JSString :=
  key_prefix ++ safeTitle video ++ key_separator ++ videoId video.

End TransferPath.

(** The key derivation as written inside the loop of [verifyTransfer]. *)
Module VerifyPath.

Definition sanitizeFilename (video : Video) (title : JSString) : JSString :=
  str_or
    (trim
       (replace_runs is_space (js " ")
          (replace_each (fun c => negb (allowed_char c)) (js "") title)))
    (videoId video).

Definition safeTitle (video : Video) : JSString :=
  sanitizeFilename video (title_or_videoId video).

(** [`api-video-backup/${safeTitle} - ${video.videoId}`] *)
Definition expectedKey (video : Video) : JSString :=
  key_prefix ++ safeTitle video ++ key_separator ++ videoId video.

End VerifyPath.

(** The title of the specification's example: E-acute (U+00C9), then
    [pisode #1!]. *)
Definition episode_title : JSString := 201 :: js "pisode #1!".


(* ===================================================================== *)
(** ** The JSON text of the ledger *)
(* ===================================================================== *)

(** What [JSON.parse] returns.  A number keeps its exact decimal value,
    [(-1)^neg * mantissa * 10^exp10]. *)
Inductive JSON : Type :=
| JNull
| JBool (b : bool)
| JNumber (neg : bool) (mantissa : N) (exp10 : Z)
| JString (s : JSString)
| JArray (elements : list JSON)
| JObject (members : list (JSString * JSON)).

(** A value as the script finds it in what [JSON.parse] returned: a JSON
    value, or [undefined] for a property that is not there. *)
Definition JSValue : Type := option JSON.

(** A string, [null] or [undefined] as such a value. *)
Definition value_of (v : Nullable) : JSValue :=
  match v with
  | js_undefined => None
  | js_null => Some JNull
  | js_string s => Some (JString s)
  end.

Coercion value_of : Nullable >-> JSValue.

(** *** Writing: [JSON.stringify(value, null, 2)] on ledger arrays *)

Definition hex_digit (d : N) : char16 :=
  if d <? 10 then 48 + d else 87 + d.   (* 0-9, a-f *)

(** [\uXXXX], lower-case digits. *)
Definition UnicodeEscape (c : char16) : JSString :=
  [92; 117; hex_digit (c / 4096); hex_digit ((c / 256) mod 16);
   hex_digit ((c / 16) mod 16); hex_digit (c mod 16)].

Definition is_leading_surrogate (c : char16) : bool := in_range 55296 56319 c.
Definition is_trailing_surrogate (c : char16) : bool := in_range 56320 57343 c.

(** One code unit that is not part of a surrogate pair. *)
Definition quote_unit (c : char16) : JSString :=
  if c =? 8 then js "\b"
  else if c =? 9 then js "\t"
  else if c =? 10 then js "\n"
  else if c =? 12 then js "\f"
  else if c =? 13 then js "\r"
  else if c =? 34 then [92; 34]
  else if c =? 92 then [92; 92]
  else if (c <? 32) || is_leading_surrogate c || is_trailing_surrogate c
  then UnicodeEscape c
  else [c].

(** The characters between the quotes: a surrogate pair is copied, a lone
    surrogate is escaped. *)
Fixpoint quote_body (s : JSString) : JSString :=
  match s with
  | [] => []
  | c :: r =>
      if is_leading_surrogate c
      then match r with
           | d :: r' =>
               if is_trailing_surrogate d
               then c :: d :: quote_body r'
               else UnicodeEscape c ++ quote_body r
           | [] => UnicodeEscape c
           end
      else quote_unit c ++ quote_body r
  end.

Definition QuoteJSONString (s : JSString) : JSString :=
  [34] ++ quote_body s ++ [34].

(** What a string becomes when it is written to a file in UTF-8 and read
    back: a surrogate that has no partner comes back as U+FFFD. *)
Fixpoint toWellFormed (s : JSString) : JSString :=
  match s with
  | [] => []
  | c :: r =>
      if is_leading_surrogate c
      then match r with
           | d :: r' =>
               if is_trailing_surrogate d
               then c :: d :: toWellFormed r'
               else 65533 :: toWellFormed r
           | [] => [65533]
           end
      else if is_trailing_surrogate c then 65533 :: toWellFormed r
      else c :: toWellFormed r
  end.

(** Every surrogate of the string has its partner. *)
Fixpoint well_formed (s : JSString) : bool :=
  match s with
  | [] => true
  | c :: r =>
      if is_leading_surrogate c
      then match r with
           | d :: r' => is_trailing_surrogate d && well_formed r'
           | [] => false
           end
      else negb (is_trailing_surrogate c) && well_formed r
  end.

(** An entry of the ledger array: [{videoId, title, error, timestamp}]. *)
Record LedgerEntry : Type := mkEntry {
  entry_videoId : JSString;
  entry_title : Nullable;
  entry_error : Nullable;
  entry_timestamp : JSString
}.

(** The properties of an entry, in insertion order. *)
Definition entry_properties (e : LedgerEntry) : list (JSString * Nullable) :=
  [ (js "videoId", js_string (entry_videoId e));
    (js "title", entry_title e);
    (js "error", entry_error e);
    (js "timestamp", js_string (entry_timestamp e)) ].

(** The text of a property value; a property whose value is [undefined]
    is left out. *)
Definition stringify_value (value : Nullable) : option JSString :=
  match value with
  | js_undefined => None
  | js_null => Some (js "null")
  | js_string s => Some (QuoteJSONString s)
  end.

Definition stringify_property (indent : JSString) (p : JSString * Nullable)
  : list JSString :=
  match stringify_value (snd p) with
  | None => []
  | Some text => [indent ++ QuoteJSONString (fst p) ++ js ": " ++ text]
  end.

Fixpoint join (sep : JSString) (parts : list JSString) : JSString :=
  match parts with
  | [] => []
  | [p] => p
  | p :: rest => p ++ sep ++ join sep rest
  end.

Definition newline : JSString := [10].

(** An object at nesting depth one. *)
Definition stringify_entry (e : LedgerEntry) : JSString :=
  match flat_map (stringify_property (js "    ")) (entry_properties e) with
  | [] => js "{}"
  | parts =>
      js "{" ++ newline ++ join (js "," ++ newline) parts
      ++ newline ++ js "  " ++ js "}"
  end.

(** [JSON.stringify(entries, null, 2)] *)
Definition JSON_stringify (entries : list LedgerEntry) : JSString :=
  match entries with
  | [] => js "[]"
  | _ =>
      js "[" ++ newline
      ++ join (js "," ++ newline)
           (List.map (fun e => js "  " ++ stringify_entry e) entries)
      ++ newline ++ js "]"
  end.

(** The value that the text of an entry denotes. *)
Definition json_property (p : JSString * Nullable) : list (JSString * JSON) :=
  match snd p with
  | js_undefined => []
  | js_null => [(fst p, JNull)]
  | js_string s => [(fst p, JString s)]
  end.

Definition entry_json (e : LedgerEntry) : JSON :=
  JObject (flat_map json_property (entry_properties e)).

(** *** Reading: [JSON.parse] *)

(** JSON white space: TAB, LF, CR, SPACE. *)
Definition is_json_ws (c : char16) : bool :=
  (c =? 9) || (c =? 10) || (c =? 13) || (c =? 32).

Fixpoint skip_ws (s : JSString) : JSString :=
  match s with
  | [] => []
  | c :: r => if is_json_ws c then skip_ws r else s
  end.

Definition hex_value (c : char16) : option N :=
  if in_range 48 57 c then Some (c - 48)
  else if in_range 97 102 c then Some (c - 87)
  else if in_range 65 70 c then Some (c - 55)
  else None.

Definition hex4 (h1 h2 h3 h4 : char16) : option char16 :=
  match hex_value h1, hex_value h2, hex_value h3, hex_value h4 with
  | Some a, Some b, Some c, Some d => Some (4096 * a + 256 * b + 16 * c + d)
  | _, _, _, _ => None
  end.

(** The single-character escapes after a backslash. *)
Definition unescape (e : char16) : option char16 :=
  if e =? 34 then Some 34          (* quote *)
  else if e =? 92 then Some 92     (* backslash *)
  else if e =? 47 then Some 47     (* \/ *)
  else if e =? 98 then Some 8      (* \b *)
  else if e =? 102 then Some 12    (* \f *)
  else if e =? 110 then Some 10    (* \n *)
  else if e =? 114 then Some 13    (* \r *)
  else if e =? 116 then Some 9     (* \t *)
  else None.

Definition cons_char (c : char16) (r : option (JSString * JSString))
  : option (JSString * JSString) :=
  match r with
  | Some (s, rest) => Some (c :: s, rest)
  | None => None
  end.

(** The characters of a string after its opening quote, up to and including
    the closing quote; returns the string and what follows it. *)
Fixpoint parse_chars (s : JSString) : option (JSString * JSString) :=
  match s with
  | [] => None
  | c :: r =>
      if c =? 34 then Some ([], r)
      else if c =? 92 then
        match r with
        | [] => None
        | e :: r1 =>
            if e =? 117 then
              match r1 with
              | h1 :: h2 :: h3 :: h4 :: r2 =>
                  match hex4 h1 h2 h3 h4 with
                  | Some u => cons_char u (parse_chars r2)
                  | None => None
                  end
              | _ => None
              end
            else
              match unescape e with
              | Some u => cons_char u (parse_chars r1)
              | None => None
              end
        end
      else if c <? 32 then None
      else cons_char c (parse_chars r)
  end.

Definition is_digit (c : char16) : bool := in_range 48 57 c.

(** A run of digits (possibly empty): its value continuing [acc], how many
    digits were read, and the rest. *)
Fixpoint parse_digits (acc : N) (count : N) (s : JSString) : N * N * JSString :=
  match s with
  | c :: r =>
      if is_digit c then parse_digits (10 * acc + (c - 48)) (count + 1) r
      else (acc, count, s)
  | [] => (acc, count, s)
  end.

(** [int]: a single [0], or a non-zero digit followed by digits. *)
Definition parse_int (s : JSString) : option (N * JSString) :=
  match s with
  | c :: r =>
      if c =? 48 then Some (0, r)
      else if is_digit c then
        let '(m, _, rest) := parse_digits (c - 48) 1 r in Some (m, rest)
      else None
  | [] => None
  end.

(** [frac]: nothing, or a dot and at least one digit. *)
Definition parse_frac (m : N) (s : JSString) : option (N * N * JSString) :=
  match s with
  | 46 :: r =>
      let '(m', count, rest) := parse_digits m 0 r in
      if count =? 0 then None else Some (m', count, rest)
  | _ => Some (m, 0, s)
  end.

(** [exp]: nothing, or [e]/[E], an optional sign and at least one digit. *)
Definition parse_exp (s : JSString) : option (Z * JSString) :=
  match s with
  | c :: r =>
      if (c =? 101) || (c =? 69) then
        let '(negative, r1) :=
          match r with
          | 45 :: r' => (true, r')
          | 43 :: r' => (false, r')
          | _ => (false, r)
          end in
        let '(e, count, rest) := parse_digits 0 0 r1 in
        if count =? 0 then None
        else Some (if negative then Z.opp (Z.of_N e) else Z.of_N e, rest)
      else Some (0%Z, s)
  | [] => Some (0%Z, s)
  end.

Definition parse_number (s : JSString) : option (JSON * JSString) :=
  let '(negative, s1) :=
    match s with
    | 45 :: r => (true, r)
    | _ => (false, s)
    end in
  match parse_int s1 with
  | None => None
  | Some (m, s2) =>
      match parse_frac m s2 with
      | None => None
      | Some (m', places, s3) =>
          match parse_exp s3 with
          | None => None
          | Some (e, s4) => Some (JNumber negative m' (e - Z.of_N places), s4)
          end
      end
  end.

(** The rest of a literal ([ull], [rue], [alse]) after its first letter. *)
Fixpoint expect (word s : JSString) : option JSString :=
  match word with
  | [] => Some s
  | w :: word' =>
      match s with
      | c :: r => if c =? w then expect word' r else None
      | [] => None
      end
  end.

(** A value with the white space in front of it; [fuel] bounds the nesting
    and the number of elements still to read. *)
Fixpoint parse_value (fuel : nat) (s : JSString) : option (JSON * JSString) :=
  match fuel with
  | O => None
  | S fuel' =>
      match skip_ws s with
      | [] => None
      | c :: r =>
          if c =? 110 then
            match expect (js "ull") r with
            | Some rest => Some (JNull, rest) | None => None end
          else if c =? 116 then
            match expect (js "rue") r with
            | Some rest => Some (JBool true, rest) | None => None end
          else if c =? 102 then
            match expect (js "alse") r with
            | Some rest => Some (JBool false, rest) | None => None end
          else if c =? 34 then
            match parse_chars r with
            | Some (str, rest) => Some (JString str, rest) | None => None end
          else if c =? 91 then
            match skip_ws r with
            | 93 :: rest => Some (JArray [], rest)
            | _ =>
                match parse_elements fuel' r with
                | Some (vs, rest) => Some (JArray vs, rest) | None => None end
            end
          else if c =? 123 then
            match skip_ws r with
            | 125 :: rest => Some (JObject [], rest)
            | _ =>
                match parse_members fuel' r with
                | Some (ms, rest) => Some (JObject ms, rest) | None => None end
            end
          else parse_number (c :: r)
      end
  end

(** One or more values separated by commas, then the closing bracket. *)
with parse_elements (fuel : nat) (s : JSString)
  : option (list JSON * JSString) :=
  match fuel with
  | O => None
  | S fuel' =>
      match parse_value fuel' s with
      | None => None
      | Some (v, r) =>
          match skip_ws r with
          | 44 :: r' =>
              match parse_elements fuel' r' with
              | Some (vs, rest) => Some (v :: vs, rest) | None => None end
          | 93 :: rest => Some ([v], rest)
          | _ => None
          end
      end
  end

(** One or more [string : value] members separated by commas, then the
    closing brace. *)
with parse_members (fuel : nat) (s : JSString)
  : option (list (JSString * JSON) * JSString) :=
  match fuel with
  | O => None
  | S fuel' =>
      match skip_ws s with
      | 34 :: r =>
          match parse_chars r with
          | None => None
          | Some (key, r1) =>
              match skip_ws r1 with
              | 58 :: r2 =>
                  match parse_value fuel' r2 with
                  | None => None
                  | Some (v, r3) =>
                      match skip_ws r3 with
                      | 44 :: r4 =>
                          match parse_members fuel' r4 with
                          | Some (ms, rest) => Some ((key, v) :: ms, rest)
                          | None => None
                          end
                      | 125 :: rest => Some ([(key, v)], rest)
                      | _ => None
                      end
                  end
              | _ => None
              end
          end
      | _ => None
      end
  end.

(** [JSON.parse(text)]: [None] is a [SyntaxError].  Every recursive call
    either reads at least one more character or is followed by one that
    does, so twice the length of the text is fuel enough. *)
Definition JSON_parse (text : JSString) : option JSON :=
  match parse_value (2 * List.length text + 2) text with
  | Some (v, rest) =>
      match skip_ws rest with
      | [] => Some v
      | _ => None
      end
  | None => None
  end.

(** *** Reading properties of parsed values *)

(** [o.name] on an object read from JSON: the last member of that name. *)
Fixpoint get_member (name : JSString) (members : list (JSString * JSON))
  : option JSON :=
  match members with
  | [] => None
  | (k, v) :: rest =>
      match get_member name rest with
      | Some v' => Some v'
      | None => if jsstr_eqb k name then Some v else None
      end
  end.

(** Whether the decimal [mantissa * 10^exp10] becomes the number zero: it is
    zero, or it is at most [2^-1075] and rounds to zero. *)
Definition number_is_zero (mantissa : N) (exp10 : Z) : bool :=
  (mantissa =? 0)
  || ((exp10 <? 0)%Z && (mantissa * 2 ^ 1075 <=? 10 ^ Z.to_N (- exp10))).

(** [v.length === 0]; [None] is the [TypeError] of reading a property of
    [null]. *)
Definition length_is_zero (v : JSON) : option bool :=
  match v with
  | JNull => None
  | JArray l => Some (match l with [] => true | _ => false end)
  | JString s => Some (match s with [] => true | _ => false end)
  | JObject ms =>
      match get_member (js "length") ms with
      | Some (JNumber _ m e) => Some (number_is_zero m e)
      | _ => Some false
      end
  | JBool _ | JNumber _ _ _ => Some false
  end.

(** [{ videoId: v.videoId, title: v.title }] with whatever the properties
    hold ([None] for [undefined]). *)
Record RetryItem : Type := mkRetryItem {
  item_videoId : option JSON;
  item_title : option JSON
}.

(** The callback of [failedVideos.map]; [None] is the [TypeError] of reading
    a property of [null]. *)
Definition retry_item (v : JSON) : option RetryItem :=
  match v with
  | JNull => None
  | JObject ms =>
      Some (mkRetryItem (get_member (js "videoId") ms) (get_member (js "title") ms))
  | _ => Some (mkRetryItem None None)
  end.

(** The items that are video records as the catalog gives them: a string
    identifier and a title that is a string, [null] or absent. *)
Definition video_of_item (i : RetryItem) : option Video :=
  match item_videoId i with
  | Some (JString id) =>
      match item_title i with
      | None => Some (mkVideo id js_undefined)
      | Some JNull => Some (mkVideo id js_null)
      | Some (JString t) => Some (mkVideo id (js_string t))
      | Some _ => None
      end
  | _ => None
  end.

Fixpoint map_all {A B : Type} (f : A -> option B) (l : list A)
  : option (list B) :=
  match l with
  | [] => Some []
  | a :: r =>
      match f a, map_all f r with
      | Some b, Some bs => Some (b :: bs)
      | _, _ => None
      end
  end.

(** A video record as an item, and back. *)
Definition item_of_video (video : Video) : RetryItem :=
  mkRetryItem (Some (JString (videoId video))) (value_of (title video)).

(** What the loop pushes for an item that failed:
    [{videoId: video.videoId, title: video.title, error, timestamp}]. *)
Record RetryEntry : Type := mkRetryEntry {
  retry_videoId : JSValue;
  retry_title : JSValue;
  retry_error : Nullable;
  retry_timestamp : JSString
}.

Definition retry_entry (e : LedgerEntry) : RetryEntry :=
  mkRetryEntry (Some (JString (entry_videoId e))) (entry_title e)
    (entry_error e) (entry_timestamp e).

(** *** What the engine does with parsed values *)

(** Whether the decimal [mantissa * 10^exp10] becomes an infinite number:
    it is at least [2^1024 - 2^970], half a unit above the largest
    finite one. *)
Definition number_is_infinite (mantissa : N) (exp10 : Z) : bool :=
  if (0 <=? exp10)%Z
  then 2 ^ 1024 - 2 ^ 970 <=? mantissa * 10 ^ Z.to_N exp10
  else (2 ^ 1024 - 2 ^ 970) * 10 ^ Z.to_N (- exp10) <=? mantissa.

(** [ToBoolean]: [undefined], [null], [false], zero and the empty string
    are falsy. *)
Definition ToBoolean (v : JSValue) : bool :=
  match v with
  | None | Some JNull => false
  | Some (JBool b) => b
  | Some (JNumber _ mantissa exp10) => negb (number_is_zero mantissa exp10)
  | Some (JString []) => false
  | Some (JString (_ :: _)) | Some (JArray _) | Some (JObject _) => true
  end.

(** The own properties of an object built by [JSON.parse] from [members]:
    a name that comes twice keeps its first place and its last value;
    array indices come first, in ascending order, then the other names in
    the order of the text. *)
Fixpoint last_value {A : Type} (name : JSString) (members : list (JSString * A))
  : option A :=
  match members with
  | [] => None
  | (k, v) :: rest =>
      match last_value name rest with
      | Some v' => Some v'
      | None => if jsstr_eqb k name then Some v else None
      end
  end.

Fixpoint first_names {A : Type} (seen : list JSString)
    (members : list (JSString * A)) : list JSString :=
  match members with
  | [] => []
  | (k, _) :: rest =>
      if existsb (jsstr_eqb k) seen then first_names seen rest
      else k :: first_names (k :: seen) rest
  end.

(** A canonical numeric string of a whole number below [2^32 - 1]. *)
Definition array_index (name : JSString) : option N :=
  match name with
  | [] => None
  | c :: r =>
      if forallb is_digit (c :: r) && ((negb (c =? 48)) || match r with [] => true | _ => false end)
      then
        let n := fst (fst (parse_digits 0 0 (c :: r))) in
        if n <? 2 ^ 32 - 1 then Some n else None
      else None
  end.

Fixpoint insert_index {A : Type} (n : N) (p : A) (l : list (N * A))
  : list (N * A) :=
  match l with
  | [] => [(n, p)]
  | (m, q) :: rest =>
      if n <? m then (n, p) :: l else (m, q) :: insert_index n p rest
  end.

Definition own_properties {A : Type} (members : list (JSString * A))
  : list (JSString * A) :=
  let named :=
    flat_map
      (fun k =>
         match last_value k members with
         | Some v => [(k, v)]
         | None => []
         end)
      (first_names [] members) in
  List.map snd
    (fold_right
       (fun p sorted =>
          match array_index (fst p) with
          | Some n => insert_index n p sorted
          | None => sorted
          end)
       [] named)
  ++ filter
       (fun p => match array_index (fst p) with Some _ => false | None => true end)
       named.

Section Engine.

(** [Number::toString] on the number that the decimal
    [(-1)^neg * mantissa * 10^exp10] becomes; the digits it prints are the
    engine's business. *)
Variable NumberToString : bool -> N -> Z -> JSString.

(** [ToString] as a template literal applies it; [None] is the
    [TypeError] of an object that cannot be converted: one with a
    property [toString] of its own, which is never a function. *)
Fixpoint ToString_JSON (v : JSON) : option JSString :=
  match v with
  | JNull => Some (js "null")
  | JBool true => Some (js "true")
  | JBool false => Some (js "false")
  | JNumber neg mantissa exp10 => Some (NumberToString neg mantissa exp10)
  | JString s => Some s
  | JArray elements =>
      match
        (fix texts (l : list JSON) : option (list JSString) :=
           match l with
           | [] => Some []
           | e :: r =>
               match
                 match e with
                 | JNull => Some []
                 | _ => ToString_JSON e
                 end, texts r
               with
               | Some t, Some ts => Some (t :: ts)
               | _, _ => None
               end
           end) elements
      with
      | Some parts => Some (join (js ",") parts)
      | None => None
      end
  | JObject members =>
      match get_member (js "toString") members with
      | Some _ => None
      | None => Some (js "[object Object]")
      end
  end.

Definition ToString (v : JSValue) : option JSString :=
  match v with
  | None => Some (js "undefined")
  | Some j => ToString_JSON j
  end.

(** [SerializeJSONProperty] with the gap of two spaces, at the
    indentation [indent]. *)
Fixpoint SerializeJSONProperty (indent : JSString) (value : JSON) : JSString :=
  match value with
  | JNull => js "null"
  | JBool true => js "true"
  | JBool false => js "false"
  | JNumber neg mantissa exp10 =>
      if number_is_infinite mantissa exp10 then js "null"
      else NumberToString neg mantissa exp10
  | JString s => QuoteJSONString s
  | JArray elements =>
      match elements with
      | [] => js "[]"
      | _ =>
          let inner := indent ++ js "  " in
          js "[" ++ newline
          ++ join (js "," ++ newline)
               (List.map (fun e => inner ++ SerializeJSONProperty inner e)
                  elements)
          ++ newline ++ indent ++ js "]"
      end
  | JObject members =>
      let inner := indent ++ js "  " in
      match
        own_properties
          (List.map
             (fun m : JSString * JSON =>
                let (k, v) := m in (k, SerializeJSONProperty inner v))
             members)
      with
      | [] => js "{}"
      | properties =>
          js "{" ++ newline
          ++ join (js "," ++ newline)
               (List.map
                  (fun p : JSString * JSString =>
                     inner ++ QuoteJSONString (fst p) ++ js ": " ++ snd p)
                  properties)
          ++ newline ++ indent ++ js "}"
      end
  end.

(** The object that an entry is: a property whose value is [undefined]
    is left out by [JSON.stringify]. *)
Definition retry_property (name : JSString) (v : JSValue)
  : list (JSString * JSON) :=
  match v with
  | None => []
  | Some j => [(name, j)]
  end.

Definition retry_entry_json (e : RetryEntry) : JSON :=
  JObject
    (retry_property (js "videoId") (retry_videoId e)
     ++ retry_property (js "title") (retry_title e)
     ++ retry_property (js "error") (retry_error e)
     ++ [(js "timestamp", JString (retry_timestamp e))]).

End Engine.

(* ===================================================================== *)
(** ** The world around the script *)
(* ===================================================================== *)

(** Why a run stops without an answer. *)
Inductive Halt : Type :=
| OutOfFuel            (* a loop of the model was cut short *)
| UncaughtInCallback.  (* an exception thrown inside an SDK callback *)

(** How an awaited call ends. *)
Inductive Res (A : Type) : Type :=
| Resolved (a : A)
| Rejected (message : JSString)
| Halted (h : Halt).
Arguments Rejected {A} message.
Arguments Halted {A} h.

(** The part of a detail response that the pipeline reads:
    [videoDetails.assets?.mp4]. *)
Record VideoDetails : Type := mkDetails { assets_mp4 : Nullable }.

(** The error object that [s3.headObject] hands to its callback. *)
Record S3Error : Type := mkS3Error { code : Nullable; s3_message : JSString }.

(** An element of [data.Contents]. *)
Record S3Object : Type := mkS3Object { Key : JSString }.

(** The [data] of a successful [s3.listObjects]. *)
Record ListData : Type := mkListData {
  Contents : list S3Object;
  IsTruncated : bool
}.

(** The ledger file [failed-videos.json]: nothing at its path, something
    that cannot be read (with the message of the error), or a text. *)
Inductive File : Type :=
| NoFile
| UnreadableFile (message : JSString)
| FileText (data : JSString).

(** The services the script calls, as functions of the state of the world.
    [fetchVideoPage] gives [response.data] ([None] when there is none);
    a [TypeError] on a detail response without an object counts as a
    rejection of [fetchVideoDetails].  [writeFileSync_throws] tells whether
    the file system refuses to write the ledger: [None] when the text is
    written, else the message of the error and what is at the path
    afterwards; [unlinkSync_throws] tells the same for its removal, which
    leaves the path as it was when it is refused.  [NumberToString] is
    the engine's way of printing a number. *)
Record Runtime (W : Type) : Type := mkRuntime {
  fetchVideoPage : N -> W -> Res (option (list Video)) * W;
  fetchVideoDetails : JSString -> W -> Res VideoDetails * W;
  s3_headObject : JSString -> W -> option S3Error * W;
  streamToS3 : JSString -> JSString -> JSValue -> W -> Res unit * W;
  s3_listObjects : JSString -> option JSString -> W -> Res ListData * W;
  setTimeout : N -> W -> W;
  Date_toISOString : W -> JSString;
  writeFileSync_throws : File -> JSString -> W -> option (JSString * File);
  unlinkSync_throws : File -> W -> option JSString;
  NumberToString : bool -> N -> Z -> JSString
}.

(** What the script does to the outside, in order. *)
Inductive Event : Type :=
| EvFetchVideoPage (page : N)
| EvFetchVideoDetails (id : JSString)
| EvHeadObject (key : JSString)
| EvStreamToS3 (sourceUrl key : JSString) (videoTitle : JSValue)
| EvDelay (ms : N)
| EvListObjects (prefix : JSString) (marker : option JSString)
| EvWriteFile (data : JSString)
| EvUnlink.

Record State (W : Type) : Type := mkState {
  world : W;
  ledgerFile : File;
  trace : list Event
}.

(** A video found missing by the verifier. *)
Record MissingVideo : Type := mkMissing {
  missing_videoId : JSString;
  missing_title : Nullable;
  expectedKey : JSString
}.

(** [{ success: true }] or [{ success: false, error }]. *)
Record RetryResult : Type := mkRetryResult {
  success : bool;
  error : Nullable
}.

(** What a run of [main] did. *)
Inductive RunReport : Type :=
| Verified (missingVideos : list MissingVideo)
| NothingToRetry
| Retried (stillFailed : list RetryEntry)
| Transferred (failedVideos : list LedgerEntry).

Inductive Outcome : Type :=
| Completed (report : RunReport)
| ProcessExit1
| Stopped (h : Halt).

Definition MAX_RETRIES : nat := 3.
Definition RETRY_DELAY : N := 5000.

(* ===================================================================== *)
(** ** The script *)
(* ===================================================================== *)

Section Script.

Context {W : Type} (rt : Runtime W).

(** A computation of the script: it ends in a value, a rejection or a
    halt, and leaves a new state. *)
Definition M (A : Type) : Type := State W -> Res A * State W.

Definition ret {A : Type} (a : A) : M A := fun st => (Resolved a, st).

Definition throw {A : Type} (message : JSString) : M A :=
  fun st => (Rejected message, st).

Definition halt {A : Type} (h : Halt) : M A := fun st => (Halted h, st).

Definition bind {A B : Type} (c : M A) (k : A -> M B) : M B :=
  fun st =>
    match c st with
    | (Resolved a, st') => k a st'
    | (Rejected message, st') => (Rejected message, st')
    | (Halted h, st') => (Halted h, st')
    end.

(** [try { c } catch (error) { handler(error.message) }] *)
Definition try_catch {A : Type} (c : M A) (handler : JSString -> M A) : M A :=
  fun st =>
    match c st with
    | (Rejected message, st') => handler message st'
    | other => other
    end.

(** A call to a service: the world moves on and the call is recorded. *)
Definition perform {A : Type} (e : Event) (service : W -> A * W)
  : State W -> A * State W :=
  fun st =>
    let (a, w) := service (world st) in
    (a, mkState w (ledgerFile st) (trace st ++ [e])).

Local Notation "x <- c ;; k" := (bind c (fun x => k))
  (at level 61, c at next level, right associativity).

(** [await fetchVideoPage(currentPage)] and the rest of the loop. *)
Fixpoint fetchAllVideos_from (fuel : nat) (allVideos : list Video)
    (currentPage : N) : M (list Video) :=
  match fuel with
  | O => halt OutOfFuel
  | S fuel' =>
      pageData <- perform (EvFetchVideoPage currentPage)
                    (fetchVideoPage rt currentPage) ;;
      match pageData with
      | Some (v :: vs) =>
          let allVideos := allVideos ++ v :: vs in
          let currentPage := currentPage + 1 in
          if N.of_nat (List.length (v :: vs)) =? 100
          then fetchAllVideos_from fuel' allVideos currentPage
          else ret allVideos
      | _ => ret allVideos
      end
  end.

Definition fetchAllVideos (fuel : nat) : M (list Video) :=
  fetchAllVideos_from fuel [] 1.

(** [await delay(ms)] *)
Definition delay (ms : N) : M unit :=
  fun st =>
    (Resolved tt,
     mkState (setTimeout rt ms (world st)) (ledgerFile st)
       (trace st ++ [EvDelay ms])).

(** [new Date().toISOString()] *)
Definition now : M JSString :=
  fun st => (Resolved (Date_toISOString rt (world st)), st).

(** The recursion of the retry goes up in [retries] and stops at
    [MAX_RETRIES]. *)
Equations streamToS3WithRetry (sourceUrl s3Key : JSString)
    (videoTitle : JSValue) (retries : nat) (st : State W)
  : Res RetryResult * State W
  by wf (MAX_RETRIES - retries)%nat lt :=
  streamToS3WithRetry sourceUrl s3Key videoTitle retries st :=
    try_catch
      (_ <- perform (EvStreamToS3 sourceUrl s3Key videoTitle)
              (streamToS3 rt sourceUrl s3Key videoTitle) ;;
       ret (mkRetryResult true js_undefined))
      (fun message =>
         match lt_dec retries MAX_RETRIES with
         | left _ =>
             _ <- delay RETRY_DELAY ;;
             (fun st' =>
                streamToS3WithRetry sourceUrl s3Key videoTitle (S retries) st')
         | right _ => ret (mkRetryResult false (js_string message))
         end) st.
Next Obligation.
  unfold MAX_RETRIES in *.
  destruct retries as [|[|[|?]]]; lia.
Qed.

(** *** The ledger file *)

Definition fs_existsSync (st : State W) : bool :=
  match ledgerFile st with
  | NoFile => false
  | _ => true
  end.

(** [fs.readFileSync(FAILED_LOG_FILE, 'utf8')] *)
Definition fs_readFileSync : M JSString :=
  fun st =>
    match ledgerFile st with
    | FileText data => (Resolved data, st)
    | UnreadableFile message => (Rejected message, st)
    | NoFile => (Rejected (js "ENOENT: no such file or directory"), st)
    end.

(** [fs.writeFileSync(FAILED_LOG_FILE, data)]: it throws when the file
    system refuses; else the file holds the UTF-8 encoding of [data],
    which reads back as [toWellFormed data]. *)
Definition fs_writeFileSync (data : JSString) : M unit :=
  fun st =>
    match writeFileSync_throws rt (ledgerFile st) data (world st) with
    | Some (message, remains) =>
        (Rejected message,
         mkState (world st) remains (trace st ++ [EvWriteFile data]))
    | None =>
        (Resolved tt,
         mkState (world st) (FileText (toWellFormed data))
           (trace st ++ [EvWriteFile data]))
    end.

(** [fs.unlinkSync(FAILED_LOG_FILE)]: it throws when there is nothing at
    the path and when the file system refuses. *)
Definition fs_unlinkSync : M unit :=
  fun st =>
    let st' file := mkState (world st) file (trace st ++ [EvUnlink]) in
    match ledgerFile st with
    | NoFile =>
        (Rejected (js "ENOENT: no such file or directory, unlink"),
         st' NoFile)
    | file =>
        match unlinkSync_throws rt file (world st) with
        | Some message => (Rejected message, st' file)
        | None => (Resolved tt, st' NoFile)
        end
    end.

(** The parsed content of the ledger, or an empty array. *)
Definition loadFailedVideos : M JSON :=
  fun st =>
    if fs_existsSync st then
      try_catch
        (data <- fs_readFileSync ;;
         match JSON_parse data with
         | Some v => ret v
         | None => throw (js "Unexpected token in JSON")
         end)
        (fun _ => ret (JArray []))
        st
    else ret (JArray []) st.

Definition saveFailedVideos (failedVideos : list LedgerEntry) : M unit :=
  fs_writeFileSync (JSON_stringify failedVideos).

Definition clearFailedLog : M unit :=
  fun st => if fs_existsSync st then fs_unlinkSync st else ret tt st.

(** *** The store *)

Definition code_is_NotFound (err : S3Error) : bool :=
  match code err with
  | js_string c => jsstr_eqb c (js "NotFound")
  | _ => false
  end.

(** The promise only ever resolves. *)
Definition checkFileExists (s3Key : JSString) : M bool :=
  fun st =>
    let (err, st') := perform (EvHeadObject s3Key) (s3_headObject rt s3Key) st in
    match err with
    | Some e =>
        if code_is_NotFound e then (Resolved false, st')
        else (Resolved false, st')
    | None => (Resolved true, st')
    end.

(** [if (marker) params.Marker = marker] *)
Definition Marker (marker : option JSString) : option JSString :=
  match marker with
  | Some (c :: r) => Some (c :: r)
  | _ => None
  end.

(** The inner [listObjects(marker)] of [listS3Objects]. *)
Fixpoint listObjects (fuel : nat) (prefix : JSString)
    (objects : list S3Object) (marker : option JSString)
  : M (list S3Object) :=
  match fuel with
  | O => halt OutOfFuel
  | S fuel' =>
      data <- perform (EvListObjects prefix (Marker marker))
                (s3_listObjects rt prefix (Marker marker)) ;;
      let objects := objects ++ Contents data in
      if IsTruncated data then
        match List.last (List.map Some (Contents data)) None with
        | Some o => listObjects fuel' prefix objects (Some (Key o))
        | None => halt UncaughtInCallback
        end
      else ret objects
  end.

Definition listS3Objects (fuel : nat) (prefix : JSString)
  : M (list S3Object) :=
  listObjects fuel prefix [] None.

(** *** The transfer *)

(** A value that is truthy: a non-empty string. *)
Definition truthy (v : Nullable) : option JSString :=
  match v with
  | js_string (c :: r) => Some (c :: r)
  | _ => None
  end.

(** The body of the loop of [transferVideos]; its value is what it pushes
    on [failedVideos]. *)
Definition transferVideo (video : Video) : M (list LedgerEntry) :=
  try_catch
    (videoDetails <- perform (EvFetchVideoDetails (videoId video))
                       (fetchVideoDetails rt (videoId video)) ;;
     match truthy (assets_mp4 videoDetails) with
     | None => ret []
     | Some sourceUrl =>
         let s3Key := TransferPath.s3Key video in
         exists_ <- checkFileExists s3Key ;;
         if (exists_ : bool) then ret []
         else
           result <- streamToS3WithRetry sourceUrl s3Key (title video) 0 ;;
           if success result then ret []
           else
             timestamp <- now ;;
             ret [mkEntry (videoId video) (title video) (error result)
                    timestamp]
     end)
    (fun message =>
       timestamp <- now ;;
       ret [mkEntry (videoId video) (title video) (js_string message)
              timestamp]).

Fixpoint transferVideos_from (failedVideos : list LedgerEntry)
    (videosToProcess : list Video) : M (list LedgerEntry) :=
  match videosToProcess with
  | [] => ret failedVideos
  | video :: rest =>
      pushed <- transferVideo video ;;
      transferVideos_from (failedVideos ++ pushed) rest
  end.

Definition transferVideos (videosToProcess : list Video)
  : M (list LedgerEntry) :=
  transferVideos_from [] videosToProcess.

(** *** The verifier *)

(** [s3Keys.has(key)] *)
Definition has (s3Keys : list JSString) (key : JSString) : bool :=
  existsb (jsstr_eqb key) s3Keys.

Definition check_video (s3Keys : list JSString) (video : Video)
  : list MissingVideo :=
  let expectedKey := VerifyPath.expectedKey video in
  if negb (has s3Keys expectedKey)
  then [mkMissing (videoId video) (title video) expectedKey]
  else [].

Definition verifyTransfer (fuel : nat) : M (list MissingVideo) :=
  allVideos <- fetchAllVideos fuel ;;
  s3Objects <- listS3Objects fuel (js "api-video-backup/") ;;
  let s3Keys := List.map Key s3Objects in
  let missingVideos := flat_map (check_video s3Keys) allVideos in
  match missingVideos with
  | _ :: _ =>
      timestamp <- now ;;
      let missingForRetry :=
        List.map
          (fun v =>
             mkEntry (missing_videoId v) (missing_title v)
               (js_string (js "Missing from S3 after verification"))
               timestamp)
          missingVideos in
      _ <- fs_writeFileSync (JSON_stringify missingForRetry) ;;
      ret missingVideos
  | [] =>
      _ <- clearFailedLog ;;
      ret missingVideos
  end.

End Script.

(* ===================================================================== *)
(** ** The transfer loop on what a ledger holds *)
(* ===================================================================== *)

(** The ledger is a file that anyone can write, and a retry run hands
    [transferVideos] the [videoId] and [title] of whatever its entries
    are.  This is the loop of [transferVideos] on such records; on the
    records of the catalog it is the loop above. *)
Module Retry.

(** [video.title || video.videoId] *)
Definition title_or_videoId (video : RetryItem) : JSValue :=
  if ToBoolean (item_title video) then item_title video
  else item_videoId video.

(** The message of the [TypeError] of a template literal over an object
    that cannot be converted. *)
Definition cannot_convert : JSString :=
  js "Cannot convert object to primitive value".

(** [title.replace(...).replace(...).trim()]: the string, or the message
    of the [TypeError] when [title] has no [replace] to call. *)
Definition sanitizeFilename (title : JSValue) : JSString + JSString :=
  match title with
  | Some (JString s) =>
      inl (trim
             (replace_runs is_space (js " ")
                (replace_each (fun c => negb (allowed_char c)) (js "") s)))
  | None => inr (js "Cannot read properties of undefined (reading 'replace')")
  | Some JNull =>
      inr (js "Cannot read properties of null (reading 'replace')")
  | Some _ => inr (js "title.replace is not a function")
  end.

Section Run.

Context {W : Type} (rt : Runtime W).

Local Notation "x <- c ;; k" := (bind c (fun x => k))
  (at level 61, c at next level, right associativity).

(** The body of the loop.  The line that announces the record is outside
    the [try]; the line of the [catch] prints the identifier again. *)
Definition transferVideo (video : RetryItem) : @M W (list RetryEntry) :=
  match ToString (NumberToString rt) (title_or_videoId video) with
  | None => throw cannot_convert
  | Some _ =>
      try_catch
        (match ToString (NumberToString rt) (item_videoId video) with
         | None => throw cannot_convert
         | Some id =>
             videoDetails <- perform (EvFetchVideoDetails id)
                               (fetchVideoDetails rt id) ;;
             match truthy (assets_mp4 videoDetails) with
             | None => ret []
             | Some sourceUrl =>
                 match sanitizeFilename (title_or_videoId video) with
                 | inr message => throw message
                 | inl sanitized =>
                     (* [|| video.videoId], then [`${safeTitle}`] *)
                     let safeTitle := str_or sanitized id in
                     let s3Key :=
                       key_prefix ++ safeTitle ++ key_separator ++ id in
                     exists_ <- checkFileExists rt s3Key ;;
                     if (exists_ : bool) then ret []
                     else
                       result <- streamToS3WithRetry rt sourceUrl s3Key
                                   (item_title video) 0 ;;
                       if success result then ret []
                       else
                         timestamp <- now rt ;;
                         ret [mkRetryEntry (item_videoId video)
                                (item_title video) (error result) timestamp]
                 end
             end
         end)
        (fun message =>
           match ToString (NumberToString rt) (item_videoId video) with
           | None => throw cannot_convert
           | Some _ =>
               timestamp <- now rt ;;
               ret [mkRetryEntry (item_videoId video) (item_title video)
                      (js_string message) timestamp]
           end)
  end.

Fixpoint transferVideos_from (failedVideos : list RetryEntry)
    (videosToProcess : list RetryItem) : @M W (list RetryEntry) :=
  match videosToProcess with
  | [] => ret failedVideos
  | video :: rest =>
      pushed <- transferVideo video ;;
      transferVideos_from (failedVideos ++ pushed) rest
  end.

Definition transferVideos (videosToProcess : list RetryItem)
  : @M W (list RetryEntry) :=
  transferVideos_from [] videosToProcess.

(** [JSON.stringify(failedVideos, null, 2)] *)
Definition JSON_stringify (failedVideos : list RetryEntry) : JSString :=
  SerializeJSONProperty (NumberToString rt) []
    (JArray (List.map retry_entry_json failedVideos)).

Definition saveFailedVideos (failedVideos : list RetryEntry) : @M W unit :=
  fs_writeFileSync rt (JSON_stringify failedVideos).

End Run.

End Retry.

(* ===================================================================== *)
(** ** The entry point *)
(* ===================================================================== *)

Section EntryPoint.

Context {W : Type} (rt : Runtime W).

Local Notation "x <- c ;; k" := (bind c (fun x => k))
  (at level 61, c at next level, right associativity).

(** [args.includes(flag)] *)
Definition includes (args : list JSString) (flag : JSString) : bool :=
  existsb (jsstr_eqb flag) args.

(** The end of a normal run. *)
Definition finish (failedVideos : list LedgerEntry) : @M W RunReport :=
  match failedVideos with
  | [] => _ <- clearFailedLog rt ;; ret (Transferred failedVideos)
  | _ =>
      _ <- saveFailedVideos rt failedVideos ;; ret (Transferred failedVideos)
  end.

(** The end of a retry run. *)
Definition finish_retry (stillFailed : list RetryEntry) : @M W RunReport :=
  match stillFailed with
  | [] => _ <- clearFailedLog rt ;; ret (Retried stillFailed)
  | _ =>
      _ <- Retry.saveFailedVideos rt stillFailed ;; ret (Retried stillFailed)
  end.

Definition retry_run : @M W RunReport :=
  failedVideos <- loadFailedVideos ;;
  match length_is_zero failedVideos with
  | None => throw (js "Cannot read properties of null (reading 'length')")
  | Some true => ret NothingToRetry
  | Some false =>
      match failedVideos with
      | JArray elements =>
          match map_all retry_item elements with
          | None =>
              throw (js "Cannot read properties of null (reading 'videoId')")
          | Some videosToRetry =>
              stillFailed <- Retry.transferVideos rt videosToRetry ;;
              finish_retry stillFailed
          end
      | _ => throw (js "failedVideos.map is not a function")
      end
  end.

Definition normal_run (fuel : nat) : @M W RunReport :=
  videos <- fetchAllVideos rt fuel ;;
  failedVideos <- transferVideos rt videos ;;
  finish failedVideos.

(** [main()] with [process.argv.slice(2)]; a rejection inside the [try]
    ends in [process.exit(1)]. *)
Definition main (args : list JSString) (fuel : nat)
  : State W -> Outcome * State W :=
  fun st =>
    let retryMode := includes args (js "--retry") in
    let retryFailed := includes args (js "--retry-failed") in
    let verifyMode := includes args (js "--verify") in
    let body : @M W RunReport :=
      if verifyMode then
        missingVideos <- verifyTransfer rt fuel ;; ret (Verified missingVideos)
      else if retryMode || retryFailed then retry_run
      else normal_run fuel in
    match body st with
    | (Resolved report, st') => (Completed report, st')
    | (Rejected _, st') => (ProcessExit1, st')
    | (Halted h, st') => (Stopped h, st')
    end.

End EntryPoint.


(* ===================================================================== *)
(** ** A small simulated world *)
(* ===================================================================== *)

(** A bucket that is a list of keys, and a clock.  The catalog, with the
    source of each record, and whether uploads fail are fixed for a run;
    the file system refuses nothing. *)
Record Sim : Type := mkSim {
  sim_store : list JSString;
  sim_elapsed : N
}.

(** Pages of one hundred records. *)
Definition sim_page (catalog : list (Video * Nullable)) (page : N)
  : list Video :=
  List.map fst (firstn 100 (skipn (100 * (N.to_nat page - 1)) catalog)).

Fixpoint sim_find (id : JSString) (catalog : list (Video * Nullable))
  : option Nullable :=
  match catalog with
  | [] => None
  | (v, mp4) :: rest =>
      if jsstr_eqb (videoId v) id then Some mp4 else sim_find id rest
  end.

(** The simulated engine prints whole numbers. *)
Definition sim_NumberToString (neg : bool) (mantissa : N) (exp10 : Z)
  : JSString :=
  (if neg then js "-" else []) ++ Number_toString (mantissa * 10 ^ Z.to_N exp10).

Definition sim_runtime (catalog : list (Video * Nullable)) (broken : bool)
  : Runtime Sim :=
  mkRuntime
    (fun page w => (Resolved (Some (sim_page catalog page)), w))
    (fun id w =>
       match sim_find id catalog with
       | Some mp4 => (Resolved (mkDetails mp4), w)
       | None => (Rejected (js "curl exited with code 22"), w)
       end)
    (fun key w =>
       if existsb (jsstr_eqb key) (sim_store w) then (None, w)
       else (Some (mkS3Error (js_string (js "NotFound")) (js "Not Found")), w))
    (fun sourceUrl key videoTitle w =>
       if broken then (Rejected (js "socket hang up"), w)
       else (Resolved tt, mkSim (key :: sim_store w) (sim_elapsed w)))
    (fun prefix marker w =>
       (Resolved (mkListData (List.map mkS3Object (sim_store w)) false), w))
    (fun ms w => mkSim (sim_store w) (sim_elapsed w + ms))
    (fun w => js "2024-05-01T12:00:00.000Z")
    (fun file data w => None)
    (fun file w => None)
    sim_NumberToString.

(** The same services over a file system that refuses to write or remove
    the ledger, leaving it as it is. *)
Definition read_only {W : Type} (rt : Runtime W) : Runtime W :=
  mkRuntime (fetchVideoPage rt) (fetchVideoDetails rt) (s3_headObject rt)
    (streamToS3 rt) (s3_listObjects rt) (setTimeout rt) (Date_toISOString rt)
    (fun file data w =>
       Some (js "EACCES: permission denied, open 'failed-videos.json'", file))
    (fun file w =>
       Some (js "EACCES: permission denied, unlink 'failed-videos.json'"))
    (NumberToString rt).

Definition sim_start (store : list JSString) (file : File) : State Sim :=
  mkState (mkSim store 0) file [].

Definition clip : Nullable := js_string (js "https://cdn.example/v.mp4").

Definition vid123 : Video := mkVideo (js "vid123") (js_string episode_title).
Definition video_a : Video := mkVideo (js "a1") (js_string (js "First clip")).
Definition video_b : Video := mkVideo (js "b2") (js_string (js "Second: clip")).
Definition video_c : Video := mkVideo (js "c3") js_undefined.

(** Another record whose title sanitizes to [First clip]. *)
Definition video_a2 : Video :=
  mkVideo (js "a2") (js_string (js "First:   clip!")).

(** Records numbered from [start], [count] of them. *)
Definition numbered (start count : nat) : list (Video * Nullable) :=
  List.map
    (fun n => (mkVideo (js "v" ++ [N.of_nat n]) (js_string (js "clip")), clip))
    (seq start count).

Definition entry_a : LedgerEntry :=
  mkEntry (js "a1") (js_string (js "First clip"))
    (js_string (js "socket hang up")) (js "2024-05-01T12:00:00.000Z").

Definition entry_c : LedgerEntry :=
  mkEntry (js "c3") js_undefined
    (js_string (js "Missing from S3 after verification"))
    (js "2024-05-01T12:00:00.000Z").

(** Three records, the middle one without a source. *)
Definition catalog_abc : list (Video * Nullable) :=
  [(video_a, clip); (video_c, js_undefined); (video_b, clip)].

(** A catalog of 237 records: pages of 100, 100 and 37. *)
Definition catalog_237 : list (Video * Nullable) := numbered 0 237.

(** A catalog whose only record has no source. *)
Definition catalog_c : list (Video * Nullable) := [(video_c, js_undefined)].

(* ===================================================================== *)
(** ** Vocabulary of the statements *)
(* ===================================================================== *)

(** The line that [JSON.stringify] writes for a member whose value is a
    string or [null]. *)
Definition member_text (indent : JSString) (m : JSString * JSON) : JSString :=
  indent ++ QuoteJSONString (fst m) ++ js ": "
  ++ match snd m with
     | JString s => QuoteJSONString s
     | _ => js "null"
     end.

Definition plain_member (m : JSString * JSON) : bool :=
  match snd m with
  | JNull | JString _ => true
  | _ => false
  end.

(** The catalog answers the requests for the pages [page], [page + 1], ...
    with [pages], one after the other, and the world goes from [w] to [w']. *)
Fixpoint serves {W : Type} (rt : Runtime W) (page : N)
    (pages : list (option (list Video))) (w w' : W) : Prop :=
  match pages with
  | [] => w' = w
  | p :: rest =>
      exists w1,
        fetchVideoPage rt page w = (Resolved p, w1)
        /\ serves rt (page + 1) rest w1 w'
  end.

(** The requests for [count] pages from [page] on. *)
Fixpoint page_requests (page : N) (count : nat) : list Event :=
  match count with
  | O => []
  | S n => EvFetchVideoPage page :: page_requests (page + 1) n
  end.

(** The records of the last page, if it has any. *)
Definition page_records (p : option (list Video)) : list Video :=
  match p with
  | Some l => l
  | None => []
  end.

Definition is_upload (e : Event) : bool :=
  match e with
  | EvStreamToS3 _ _ _ => true
  | _ => false
  end.

(** How many times a stream to the store was started. *)
Definition uploads (tr : list Event) : nat := List.length (filter is_upload tr).

(** The minimal record that a ledger entry stands for. *)
Definition entry_video (e : LedgerEntry) : Video :=
  mkVideo (entry_videoId e) (entry_title e).

(** [failedVideos.map(v => ({ videoId: v.videoId, title: v.title }))] on
    the elements of a parsed array, as video records. *)
Definition videosToRetry (elements : list JSON) : option (list Video) :=
  match map_all retry_item elements with
  | Some items => map_all video_of_item items
  | None => None
  end.

(** A computation that leaves the ledger file alone. *)
Definition keeps_ledger {W A : Type} (c : State W -> Res A * State W) : Prop :=
  forall st, ledgerFile (snd (c st)) = ledgerFile st.

(** The detail fetch of [id] never offers a source. *)
Definition no_source {W : Type} (rt : Runtime W) (id : JSString) : Prop :=
  forall w, exists details w',
    fetchVideoDetails rt id w = (Resolved details, w')
    /\ truthy (assets_mp4 details) = None.

(** The entry that the verifier writes for a missing video. *)
Definition missing_entry (timestamp : JSString) (v : MissingVideo)
  : LedgerEntry :=
  mkEntry (missing_videoId v) (missing_title v)
    (js_string (js "Missing from S3 after verification")) timestamp.

(** The ledger after the end of a run whose last step went through. *)
Definition ledger_after (failedVideos : list LedgerEntry) : File :=
  match failedVideos with
  | [] => NoFile
  | _ => FileText (JSON_stringify failedVideos)
  end.

(** How [main] turns the end of its body into the end of the process. *)
Definition outcome_of (r : Res RunReport) : Outcome :=
  match r with
  | Resolved report => Completed report
  | Rejected _ => ProcessExit1
  | Halted h => Stopped h
  end.

(* ===================================================================== *)
(** ** Start-up *)
(* ===================================================================== *)

Definition requiredVars : list JSString :=
  [ js "API_VIDEO_KEY"; js "DO_SPACES_KEY"; js "DO_SPACES_SECRET";
    js "DO_SPACES_REGION"; js "DO_SPACES_BUCKET" ].

(** [!process.env[varName]]: the variable is absent or empty. *)
Definition unset (env : JSString -> option JSString) (varName : JSString)
  : bool :=
  match env varName with
  | Some (_ :: _) => false
  | _ => true
  end.

(** [requiredVars.filter(varName => !process.env[varName])] *)
Definition missingVars (env : JSString -> option JSString) : list JSString :=
  filter (unset env) requiredVars.

(** The script from its first line: the check of the environment, then
    [main()]. *)
Definition script {W : Type} (rt : Runtime W)
    (env : JSString -> option JSString) (args : list JSString) (fuel : nat)
    (st : State W) : Outcome * State W :=
  match missingVars env with
  | [] => main rt args fuel st
  | _ :: _ => (ProcessExit1, st)
  end.

(* ===================================================================== *)
(** ** The body of [streamToS3] *)
(* ===================================================================== *)

(** What [https.get] comes back with: an [error] event, or a response with
    its status code and its [content-length] header. *)
Inductive HttpResult : Type :=
| GetFailed (message : JSString)
| GetResponse (statusCode : N) (content_length : Nullable).

(** [uploadParams.ContentLength]: not set, or [parseInt] of the header. *)
Inductive ContentLengthParam : Type :=
| ContentLength_unset
| ContentLength_parseInt (header : JSString).

(** The parameters of [s3.upload]; the body is the response itself. *)
Record UploadParams : Type := mkUploadParams {
  Bucket : JSString;
  upload_Key : JSString;
  ContentType : JSString;
  ACL : JSString;
  StorageClass : JSString;
  ContentLength : ContentLengthParam
}.

Record UploadOptions : Type := mkUploadOptions {
  partSize : N;
  queueSize : N
}.

(** The two calls that [streamToS3] makes. *)
Record Net (W : Type) : Type := mkNet {
  https_get : JSString -> W -> HttpResult * W;
  s3_upload : UploadParams -> UploadOptions -> W -> Res unit * W
}.

Inductive NetCall : Type :=
| CallGet (url : JSString)
| CallUpload (params : UploadParams) (options : UploadOptions).

Module Streaming.

(** [streamToS3(sourceUrl, s3Key, videoTitle)] with the bucket of the
    configuration: how the promise settles, the world afterwards, and the
    calls made. *)
Definition streamToS3 {W : Type} (net : Net W) (DO_SPACES_BUCKET : JSString)
    (sourceUrl s3Key : JSString) (videoTitle : JSValue) (w : W)
  : Res unit * W * list NetCall :=
  match https_get net sourceUrl w with
  | (GetFailed message, w1) => (Rejected message, w1, [CallGet sourceUrl])
  | (GetResponse statusCode contentLength, w1) =>
      if negb (statusCode =? 200) then
        (Rejected (js "Failed to download: " ++ Number_toString statusCode),
         w1, [CallGet sourceUrl])
      else
        let uploadParams :=
          mkUploadParams DO_SPACES_BUCKET s3Key (js "video/mp4")
            (js "private") (js "STANDARD")
            (match contentLength with
             | js_string (c :: r) => ContentLength_parseInt (c :: r)
             | _ => ContentLength_unset
             end) in
        let options := mkUploadOptions (10 * 1024 * 1024) 1 in
        let (r, w2) := s3_upload net uploadParams options w1 in
        (r, w2, [CallGet sourceUrl; CallUpload uploadParams options])
  end.

End Streaming.

(** The services of [rt] with [streamToS3] as the script writes it. *)
Definition with_net {W : Type} (rt : Runtime W) (net : Net W)
    (DO_SPACES_BUCKET : JSString) : Runtime W :=
  mkRuntime (fetchVideoPage rt) (fetchVideoDetails rt) (s3_headObject rt)
    (fun sourceUrl s3Key videoTitle w =>
       fst (Streaming.streamToS3 net DO_SPACES_BUCKET sourceUrl s3Key
              videoTitle w))
    (s3_listObjects rt) (setTimeout rt) (Date_toISOString rt)
    (writeFileSync_throws rt) (unlinkSync_throws rt) (NumberToString rt).

(* ===================================================================== *)
(** ** The earlier variants of the script ([transfer.js]) *)
(* ===================================================================== *)

(** How a variant without modes ends. *)
Inductive Ending : Type :=
| Returned
| Exited1
| Aborted (h : Halt).

(** The variant that streams without retry, ledger or existence check. *)
Module CurlVariant.

Definition sanitizeFilename (video : Video) (title : JSString) : JSString :=
  str_or
    (trim
       (replace_runs is_space (js " ")
          (replace_each (fun c => negb (allowed_char c)) (js "") title)))
    (videoId video).

Definition safeTitle (video : Video) : JSString :=
  sanitizeFilename video (title_or_videoId video).

(** [`api-video-backup/${safeTitle} - ${video.videoId}`] *)
Definition s3Key (video : Video) : JSString :=
  js "api-video-backup/" ++ safeTitle video ++ js " - " ++ videoId video.

Section Run.

Context {W : Type} (rt : Runtime W).

(** [fetchVideoList()]: the first page of one hundred, and no other. *)
Definition fetchVideoList : @M W (option (list Video)) :=
  perform (EvFetchVideoPage 1) (fetchVideoPage rt 1).

(** The body of the loop: whatever fails is logged and forgotten. *)
Definition transferVideo (video : Video) : @M W unit :=
  try_catch
    (bind
       (perform (EvFetchVideoDetails (videoId video))
          (fetchVideoDetails rt (videoId video)))
       (fun videoDetails =>
          match truthy (assets_mp4 videoDetails) with
          | None => ret tt
          | Some sourceUrl =>
              bind
                (perform (EvStreamToS3 sourceUrl (s3Key video) (title video))
                   (streamToS3 rt sourceUrl (s3Key video) (title video)))
                (fun _ => ret tt)
          end))
    (fun _ => ret tt).

Fixpoint transferEach (videos : list Video) : @M W unit :=
  match videos with
  | [] => ret tt
  | video :: rest => bind (transferVideo video) (fun _ => transferEach rest)
  end.

(** [transferVideos()]; [videos.length] on a response without [data] is a
    [TypeError], which the outer [catch] turns into [process.exit(1)]. *)
Definition transferVideos (st : State W) : Ending * State W :=
  match
    bind fetchVideoList
      (fun videos =>
         match videos with
         | Some l => transferEach l
         | None =>
             throw
               (js "Cannot read properties of undefined (reading 'length')")
         end) st
  with
  | (Resolved _, st') => (Returned, st')
  | (Rejected _, st') => (Exited1, st')
  | (Halted h, st') => (Aborted h, st')
  end.

End Run.

End CurlVariant.

(** The variant that downloads to a temporary file: its key. *)
Module SdkVariant.

(** [`api-video-backup/${video.videoId}.mp4`] *)
Definition s3Key (video : Video) : JSString :=
  js "api-video-backup/" ++ videoId video ++ js ".mp4".

End SdkVariant.

(* ===================================================================== *)
(** ** Vocabulary of the further statements *)
(* ===================================================================== *)

(** The title after the three steps of the sanitizer, before the fall-back
    to the identifier. *)
Definition sanitized (title : JSString) : JSString :=
  trim
    (replace_runs is_space (js " ")
       (replace_each (fun c => negb (allowed_char c)) (js "") title)).

(** A letter, a digit, a dash or a dot. *)
Definition key_char (c : char16) : bool :=
  in_range 97 122 c || in_range 65 90 c || in_range 48 57 c
  || (c =? 45) || (c =? 46).

(** Letters, digits, dashes, dots and single spaces; [after_space] tells
    that a space may not come next. *)
Fixpoint spaced (after_space : bool) (s : JSString) : bool :=
  match s with
  | [] => true
  | c :: r =>
      if c =? 32 then negb after_space && spaced true r
      else key_char c && spaced false r
  end.

(** The same, and the string does not end with a space. *)
Fixpoint normal_from (after_space : bool) (s : JSString) : bool :=
  match s with
  | [] => negb after_space
  | c :: r =>
      if c =? 32 then negb after_space && normal_from true r
      else key_char c && normal_from false r
  end.

(** A non-empty title of letters, digits, dashes and dots, with single
    spaces between them and none at either end. *)
Definition normal_title (s : JSString) : bool := normal_from true s.

(** [n] starts of a stream, [RETRY_DELAY] apart. *)
Fixpoint attempts (e : Event) (n : nat) : list Event :=
  match n with
  | O => []
  | S O => [e]
  | S n' => e :: EvDelay RETRY_DELAY :: attempts e n'
  end.

Definition is_details (e : Event) : bool :=
  match e with EvFetchVideoDetails _ => true | _ => false end.

(** The calls of the transfer of one record after its detail fetch. *)
Definition is_store_step (e : Event) : bool :=
  match e with
  | EvHeadObject _ | EvStreamToS3 _ _ _ | EvDelay _ => true
  | _ => false
  end.

Definition is_transfer_event (e : Event) : bool :=
  is_details e || is_store_step e.

Definition is_page_request (e : Event) : bool :=
  match e with EvFetchVideoPage _ => true | _ => false end.

Definition is_listing (e : Event) : bool :=
  match e with EvListObjects _ _ => true | _ => false end.

Definition is_file_event (e : Event) : bool :=
  match e with EvWriteFile _ | EvUnlink => true | _ => false end.

(** A detail fetch or an existence check. *)
Definition is_check (e : Event) : bool :=
  match e with
  | EvFetchVideoDetails _ | EvHeadObject _ => true
  | _ => false
  end.

(** Everything the computation adds to the trace is of the kind [P]. *)
Definition emits {W A : Type} (P : Event -> bool)
    (c : State W -> Res A * State W) : Prop :=
  forall st, exists new,
    trace (snd (c st)) = trace st ++ new /\ forallb P new = true.

(** [l] is [l'] with some elements left out. *)
Inductive subsequence {A : Type} : list A -> list A -> Prop :=
| subsequence_nil : subsequence [] []
| subsequence_skip (x : A) (l l' : list A) :
    subsequence l l' -> subsequence l (x :: l')
| subsequence_keep (x : A) (l l' : list A) :
    subsequence l l' -> subsequence (x :: l) (x :: l').

(** [data.Contents[data.Contents.length - 1].Key], when there is one. *)
Definition last_Key (data : ListData) : option JSString :=
  match List.last (List.map Some (Contents data)) None with
  | Some o => Some (Key o)
  | None => None
  end.

(** The store answers the listing requests that start at [marker] with
    [pages], each request starting after the last key of the page before. *)
Fixpoint listed {W : Type} (rt : Runtime W) (prefix : JSString)
    (marker : option JSString) (pages : list ListData) (w w' : W) : Prop :=
  match pages with
  | [] => w' = w
  | p :: rest =>
      exists w1,
        s3_listObjects rt prefix (Marker marker) w = (Resolved p, w1)
        /\ listed rt prefix (last_Key p) rest w1 w'
  end.

Fixpoint listing_requests (prefix : JSString) (marker : option JSString)
    (pages : list ListData) : list Event :=
  match pages with
  | [] => []
  | p :: rest =>
      EvListObjects prefix (Marker marker)
      :: listing_requests prefix (last_Key p) rest
  end.

(** A page that announces more and has a last key to go on from. *)
Definition continues (p : ListData) : bool :=
  IsTruncated p && match Contents p with [] => false | _ => true end.

(** The record that the verifier reports for a video. *)
Definition missing_of (video : Video) : MissingVideo :=
  mkMissing (videoId video) (title video) (VerifyPath.expectedKey video).

(** The key of the video is not among the keys of the store. *)
Definition absent (s3Keys : list JSString) (video : Video) : bool :=
  negb (has s3Keys (VerifyPath.expectedKey video)).

Definition is_wait (e : Event) : bool :=
  match e with EvDelay _ => true | _ => false end.

Definition is_head (e : Event) : bool :=
  match e with EvHeadObject _ => true | _ => false end.

(** How many events of the kind [P] a trace holds. *)
Definition count_events (P : Event -> bool) (tr : list Event) : nat :=
  List.length (filter P tr).

(** The file system refuses the operation [op] on the ledger [file]. *)
Definition refused {W : Type} (rt : Runtime W) (op : Event) (file : File)
    (w : W) : Prop :=
  match op with
  | EvWriteFile data => writeFileSync_throws rt file data w <> None
  | EvUnlink => unlinkSync_throws rt file w <> None
  | _ => False
  end.

(** Parsed content of the ledger that is not an array, or an array that
    holds a [null]. *)
Definition foreign_ledger (v : JSON) : bool :=
  match v with
  | JArray elements =>
      existsb (fun e => match e with JNull => true | _ => false end) elements
  | _ => true
  end.

(** The calls and file operations that belong to the mode chosen by the
    arguments. *)
Definition mode_event (args : list JSString) (e : Event) : bool :=
  if includes args (js "--verify") then
    is_page_request e || is_listing e || is_file_event e
  else if includes args (js "--retry") || includes args (js "--retry-failed")
  then is_transfer_event e || is_file_event e
  else is_page_request e || is_transfer_event e || is_file_event e.

(** A world whose catalog answers every request with the same full page,
    whose store has every key and whose sources are all there. *)
Definition full_page : list Video := List.map fst (numbered 0 100).

Definition stuck_runtime : Runtime Sim :=
  mkRuntime
    (fun page w => (Resolved (Some full_page), w))
    (fun id w => (Resolved (mkDetails clip), w))
    (fun key w => (None, w))
    (fun sourceUrl key videoTitle w => (Resolved tt, w))
    (fun prefix marker w => (Resolved (mkListData [] true), w))
    (fun ms w => w)
    (fun w => js "2024-05-01T12:00:00.000Z")
    (fun file data w => None)
    (fun file w => None)
    sim_NumberToString.

(** A store that lists its keys two at a time. *)
Definition paged_listing (keys : list JSString) (marker : option JSString)
  : ListData :=
  let rest :=
    match marker with
    | None => keys
    | Some m =>
        (fix after (l : list JSString) : list JSString :=
           match l with
           | [] => []
           | k :: l' => if jsstr_eqb k m then l' else after l'
           end) keys
    end in
  mkListData (List.map mkS3Object (firstn 2 rest))
    (match skipn 2 rest with [] => false | _ => true end).

Definition paged_runtime (catalog : list (Video * Nullable))
    (keys : list JSString) : Runtime Sim :=
  mkRuntime
    (fetchVideoPage (sim_runtime catalog false))
    (fetchVideoDetails (sim_runtime catalog false))
    (s3_headObject (sim_runtime catalog false))
    (streamToS3 (sim_runtime catalog false))
    (fun prefix marker w => (Resolved (paged_listing keys marker), w))
    (setTimeout (sim_runtime catalog false))
    (Date_toISOString (sim_runtime catalog false))
    (writeFileSync_throws (sim_runtime catalog false))
    (unlinkSync_throws (sim_runtime catalog false))
    (NumberToString (sim_runtime catalog false)).

(** A catalog whose second page cannot be fetched. *)
Definition flaky_runtime : Runtime Sim :=
  mkRuntime
    (fun page w =>
       if page =? 1 then (Resolved (Some full_page), w)
       else (Rejected (js "curl exited with code 7"), w))
    (fetchVideoDetails stuck_runtime)
    (s3_headObject stuck_runtime)
    (streamToS3 stuck_runtime)
    (s3_listObjects stuck_runtime)
    (setTimeout stuck_runtime)
    (Date_toISOString stuck_runtime)
    (writeFileSync_throws stuck_runtime)
    (unlinkSync_throws stuck_runtime)
    (NumberToString stuck_runtime).

(** A source that is gone, and one that is there. *)
Definition dead_link : Net Sim :=
  mkNet
    (fun url w => (GetResponse 404 js_undefined, w))
    (fun params options w => (Resolved tt, w)).

Definition live_link : Net Sim :=
  mkNet
    (fun url w => (GetResponse 200 (js_string (js "1048576")), w))
    (fun params options w =>
       (Resolved tt, mkSim (upload_Key params :: sim_store w) (sim_elapsed w))).

(** An environment with every variable set, and one with an empty key. *)
Definition env_complete (varName : JSString) : option JSString :=
  if existsb (jsstr_eqb varName) requiredVars then Some (js "value") else None.

Definition env_empty_key (varName : JSString) : option JSString :=
  if jsstr_eqb varName (js "DO_SPACES_KEY") then Some []
  else env_complete varName.


(* ===================================================================== *)
(** ** Vocabulary of the statements on runs *)
(* ===================================================================== *)

(** The identifier neither holds the separator of the key nor starts with
    its last two characters. *)
Fixpoint starts_with (p s : JSString) : bool :=
  match p, s with
  | [], _ => true
  | a :: p', b :: s' => (a =? b) && starts_with p' s'
  | _ :: _, [] => false
  end.

Fixpoint has_separator (s : JSString) : bool :=
  starts_with key_separator s
  || match s with
     | [] => false
     | _ :: r => has_separator r
     end.

Definition plain_id (id : JSString) : bool :=
  negb (starts_with (js "- ") id) && negb (has_separator id).

(** [n] tries of the stream that are rejected, each followed by the wait
    of [RETRY_DELAY], take the world from [w] to [w']. *)
Fixpoint failed_tries {W : Type} (rt : Runtime W) (sourceUrl s3Key : JSString)
    (videoTitle : JSValue) (n : nat) (w w' : W) : Prop :=
  match n with
  | O => w' = w
  | S n' =>
      exists message w1,
        streamToS3 rt sourceUrl s3Key videoTitle w = (Rejected message, w1)
        /\ failed_tries rt sourceUrl s3Key videoTitle n'
             (setTimeout rt RETRY_DELAY w1) w'
  end.

(** The catalog serves the pages [full], of one hundred records each, and
    then the shorter page [lastp]. *)
Definition catalog_serves {W : Type} (rt : Runtime W)
    (full : list (list Video)) (lastp : option (list Video)) (w w' : W)
  : Prop :=
  Forall (fun p => List.length p = 100%nat) full
  /\ (List.length (page_records lastp) < 100)%nat
  /\ serves rt 1 (List.map Some full ++ [lastp]) w w'.

Definition catalog_records (full : list (list Video))
    (lastp : option (list Video)) : list Video :=
  List.concat full ++ page_records lastp.

(** The store lists the keys under [api-video-backup/] in the pages
    [pages], each announcing more, and then [lastpage], which does not. *)
Definition store_lists {W : Type} (rt : Runtime W) (pages : list ListData)
    (lastpage : ListData) (w w' : W) : Prop :=
  forallb continues pages = true
  /\ IsTruncated lastpage = false
  /\ listed rt (js "api-video-backup/") None (pages ++ [lastpage]) w w'.

Definition listed_keys (pages : list ListData) (lastpage : ListData)
  : list JSString :=
  List.map Key (List.concat (List.map Contents (pages ++ [lastpage]))).

(** The state once the verifier has read the catalog and the listing. *)
Definition after_reading {W : Type} (st : State W) (full : list (list Video))
    (pages : list ListData) (lastpage : ListData) (w : W) : State W :=
  mkState w (ledgerFile st)
    (trace st ++ page_requests 1 (S (List.length full))
     ++ listing_requests (js "api-video-backup/") None (pages ++ [lastpage])).

(** The text that the last step of a run writes for its report; [None]
    when the step removes the ledger instead. *)
Definition ledger_text {W : Type} (rt : Runtime W) (timestamp : JSString)
    (report : RunReport) : option JSString :=
  match report with
  | NothingToRetry | Verified [] | Retried [] | Transferred [] => None
  | Verified missingVideos =>
      Some (JSON_stringify (List.map (missing_entry timestamp) missingVideos))
  | Retried stillFailed => Some (Retry.JSON_stringify rt stillFailed)
  | Transferred failedVideos => Some (JSON_stringify failedVideos)
  end.

(** The last step of a run that has its report. *)
Definition last_step {W : Type} (rt : Runtime W) (report : RunReport)
  : State W -> Res RunReport * State W :=
  fun st =>
    match ledger_text rt (Date_toISOString rt (world st)) report with
    | None => bind (clearFailedLog rt) (fun _ => ret report) st
    | Some data => bind (fs_writeFileSync rt data) (fun _ => ret report) st
    end.

(** Where the report of a run that started in [st] comes from. *)
Definition report_origin {W : Type} (rt : Runtime W) (st : State W)
    (report : RunReport) (st1 : State W) : Prop :=
  match report with
  | NothingToRetry => False
  | Verified _ => True
  | Retried stillFailed =>
      exists elements videosToRetry,
        loadFailedVideos st = (Resolved (JArray elements), st)
        /\ map_all retry_item elements = Some videosToRetry
        /\ Retry.transferVideos rt videosToRetry st = (Resolved stillFailed, st1)
  | Transferred failedVideos =>
      exists videos st0,
        transferVideos rt videos st0 = (Resolved failedVideos, st1)
  end.

(** A run that ends without an operation on the ledger file. *)
Definition quiet (o : Outcome) : Prop :=
  match o with
  | Completed NothingToRetry | ProcessExit1 | Stopped _ => True
  | Completed _ => False
  end.

(** The mode whose runs end with the report. *)
Definition report_mode (args : list JSString) (report : RunReport) : Prop :=
  match report with
  | NothingToRetry => False
  | Verified _ => includes args (js "--verify") = true
  | Retried _ =>
      includes args (js "--verify") = false
      /\ includes args (js "--retry") || includes args (js "--retry-failed")
         = true
  | Transferred _ =>
      includes args (js "--verify") = false
      /\ includes args (js "--retry") || includes args (js "--retry-failed")
         = false
  end.

(** A body of [main] makes its calls, which leave the ledger file alone,
    and then either ends quietly or takes the last step for a report that
    is [allowed]. *)
Definition ends {W : Type} (rt : Runtime W) (allowed : RunReport -> Prop)
    (origin : State W) (body : State W -> Res RunReport * State W)
    (st : State W) : Prop :=
  exists calls st1,
    trace st1 = trace st ++ calls
    /\ ledgerFile st1 = ledgerFile st
    /\ forallb (fun e => negb (is_file_event e)) calls = true
    /\ ((quiet (outcome_of (fst (body st))) /\ snd (body st) = st1)
        \/ exists report,
             allowed report
             /\ report_origin rt origin report st1
             /\ body st = last_step rt report st1).

(** One pass of the earlier variant over [videos]: for each record its
    detail fetch, then at most one start of a stream to its key. *)
Fixpoint one_pass (videos : list Video) (events : list Event) : Prop :=
  match videos with
  | [] => events = []
  | video :: rest =>
      exists stream later,
        events = EvFetchVideoDetails (videoId video) :: stream ++ later
        /\ (stream = []
            \/ exists sourceUrl,
                 stream
                 = [EvStreamToS3 sourceUrl (CurlVariant.s3Key video)
                      (title video)])
        /\ one_pass rest later
  end.

(** What a resolved value becomes under [f]. *)
Definition Res_map {A B : Type} (f : A -> B) (r : Res A) : Res B :=
  match r with
  | Resolved a => Resolved (f a)
  | Rejected message => Rejected message
  | Halted h => Halted h
  end.

(* ===================================================================== *)
(** ** Key mapper *)
(* ===================================================================== *)

(** C1.  The key derivation written inside [transferVideos] and the one
    written inside [verifyTransfer] are the same function of the record:
    the sanitizers agree on every record and title, the transfer key and
    the expected key of a record built from an identifier and a title are
    the same string, and the verifier's check of a record is a look-up of
    the very key the transfer stores it under. *)
Theorem transfer_key_is_verify_key :
  (forall video title,
      TransferPath.sanitizeFilename video title
      = VerifyPath.sanitizeFilename video title)
  /\ (forall id t,
         TransferPath.s3Key (mkVideo id t)
         = VerifyPath.expectedKey (mkVideo id t))
  /\ (forall s3Keys video,
         check_video s3Keys video
         = if has s3Keys (TransferPath.s3Key video) then []
           else [mkMissing (videoId video) (title video)
                   (TransferPath.s3Key video)]).
Proof.
  split; [|split]; intros; try reflexivity.
  unfold check_video.
  change (VerifyPath.expectedKey video) with (TransferPath.s3Key video).
  destruct (has s3Keys (TransferPath.s3Key video)); reflexivity.
Qed.

Lemma replace_each_disallowed (t : JSString) :
  forallb (fun c => negb (allowed_char c)) t = true ->
  replace_each (fun c => negb (allowed_char c)) (js "") t = [].
Proof.
  induction t as [|c t IH]; intros H; [reflexivity|].
  simpl in H. apply andb_prop in H. destruct H as [Hc Ht].
  unfold replace_each. simpl. rewrite Hc. simpl. apply IH, Ht.
Qed.

(** C2 (amended).  A title made only of characters outside the allowed
    class sanitizes to the identifier, so a record with such a (non-empty)
    title gets the key [api-video-backup/<id> - <id>]; and the title
    E-acute [pisode #1!] with identifier [vid123] gets
    [api-video-backup/pisode 1 - vid123]. *)
Theorem sanitize_disallowed_title (id t : JSString) :
  forallb (fun c => negb (allowed_char c)) t = true ->
  TransferPath.sanitizeFilename (mkVideo id (js_string t)) t = id
  /\ (t <> [] ->
      TransferPath.s3Key (mkVideo id (js_string t))
      = key_prefix ++ id ++ key_separator ++ id)
  /\ TransferPath.s3Key vid123 = js "api-video-backup/pisode 1 - vid123".
Proof.
  intros H.
  assert (E : TransferPath.sanitizeFilename (mkVideo id (js_string t)) t = id).
  { unfold TransferPath.sanitizeFilename.
    rewrite (replace_each_disallowed t H). reflexivity. }
  split; [exact E|]. split; [|reflexivity].
  intros Hne. unfold TransferPath.s3Key, TransferPath.safeTitle.
  replace (title_or_videoId (mkVideo id (js_string t))) with t.
  - rewrite E. reflexivity.
  - destruct t; [contradiction|reflexivity].
Qed.

Lemma sanitize_disallowed_title_witness :
  forallb (fun c => negb (allowed_char c)) (js "#!?") = true
  /\ TransferPath.sanitizeFilename
    (mkVideo (js "vid123") (js_string (js "#!?"))) (js "#!?") = js "vid123"
  /\ (js "#!?" <> [] ->
      TransferPath.s3Key (mkVideo (js "vid123") (js_string (js "#!?")))
      = key_prefix ++ js "vid123" ++ key_separator ++ js "vid123")
  /\ TransferPath.s3Key vid123 = js "api-video-backup/pisode 1 - vid123".
Proof.
  split; [reflexivity|].
  apply (@sanitize_disallowed_title (js "vid123") (js "#!?")).
  reflexivity.
Defined.

(** C2 as stated fails: with a title of disallowed characters the key is
    neither the identifier nor the prefix and the identifier; the example
    title loses its first letter; and with the empty title (no allowed
    character either) it is the identifier that gets sanitized. *)
Lemma sanitize_examples_differ :
  TransferPath.s3Key (mkVideo (js "vid123") (js_string (js "#!?")))
    <> js "vid123"
  /\ TransferPath.s3Key (mkVideo (js "vid123") (js_string (js "#!?")))
    <> key_prefix ++ js "vid123"
  /\ TransferPath.s3Key vid123 <> key_prefix ++ js "Episode 1 - vid123"
  /\ TransferPath.s3Key vid123 = key_prefix ++ js "pisode 1 - vid123"
  /\ TransferPath.s3Key (mkVideo (js "a_b") (js_string (js "")))
     = key_prefix ++ js "ab - a_b".
Proof.
  repeat split; try reflexivity; intro H; vm_compute in H; discriminate H.
Qed.

Lemma has_separator_infix (p q : JSString) :
  has_separator (p ++ key_separator ++ q) = true.
Proof.
  induction p as [|c p IH].
  - cbn [app]. unfold key_separator at 1. cbn. reflexivity.
  - cbn [app has_separator]. rewrite IH. apply orb_true_r.
Qed.

(** The part of a key after the prefix tells the identifier, when the
    identifiers are plain. *)
Lemma title_and_id_tell_id (t1 t2 id1 id2 : JSString) :
  plain_id id1 = true ->
  plain_id id2 = true ->
  t1 ++ key_separator ++ id1 = t2 ++ key_separator ++ id2 ->
  id1 = id2.
Proof.
  assert (Hlonger : forall a b x y l : JSString,
             plain_id y = true ->
             a ++ key_separator = (b ++ key_separator) ++ l ->
             y = l ++ x -> y = x).
  { intros a b x y l Hy Ea Ey.
    apply (f_equal (@rev _)) in Ea.
    rewrite !rev_app_distr in Ea. cbn [key_separator js List.map
      list_ascii_of_string rev app] in Ea.
    change (rev (js " - ")) with [32; 45; 32] in Ea. cbn [app] in Ea.
    unfold plain_id in Hy. apply andb_prop in Hy. destruct Hy as [Hstart Hsep].
    destruct (rev l) as [|c1 [|c2 [|c3 r]]] eqn:El.
    - apply (f_equal (@rev _)) in El. rewrite rev_involutive in El.
      subst l. exact Ey.
    - cbn [app] in Ea. injection Ea as E1 E2 _. subst c1. discriminate E2.
    - apply (f_equal (@rev _)) in El. rewrite rev_involutive in El.
      cbn [app] in Ea. injection Ea as E1 E2 _. subst c1 c2.
      cbn in El. subst l. rewrite Ey in Hstart. discriminate Hstart.
    - apply (f_equal (@rev _)) in El. rewrite rev_involutive in El.
      cbn [app] in Ea. injection Ea as E1 E2 E3 _. subst c1 c2 c3.
      cbn [rev] in El. rewrite <- !app_assoc in El. cbn [app] in El.
      subst l. rewrite <- app_assoc in Ey.
      change ([32; 45; 32] ++ x) with (key_separator ++ x) in Ey.
      rewrite Ey, has_separator_infix in Hsep. discriminate Hsep. }
  intros H1 H2 E. rewrite !app_assoc in E.
  apply app_eq_app in E. destruct E as [l [[Ea Ey]|[Eb Ex]]].
  - symmetry. apply (Hlonger t1 t2 id1 id2 l H2 Ea Ey).
  - apply (Hlonger t2 t1 id2 id1 l H1 Eb Ex).
Qed.

(** C3 (amended).  Two records with different identifiers get different
    keys when their titles sanitize to the same string, whatever the
    identifiers are; and whatever their titles, when neither identifier
    holds the separator [ - ] or starts with [- ]. *)
Theorem distinct_ids_distinct_keys :
  (forall v1 v2 : Video,
      TransferPath.safeTitle v1 = TransferPath.safeTitle v2 ->
      videoId v1 <> videoId v2 ->
      TransferPath.s3Key v1 <> TransferPath.s3Key v2)
  /\ (forall v1 v2 : Video,
         plain_id (videoId v1) = true ->
         plain_id (videoId v2) = true ->
         videoId v1 <> videoId v2 ->
         TransferPath.s3Key v1 <> TransferPath.s3Key v2).
Proof.
  split.
  - intros v1 v2 Htitle Hne E. apply Hne.
    unfold TransferPath.s3Key in E. rewrite Htitle in E.
    apply app_inv_head in E. apply app_inv_head in E.
    apply app_inv_head in E. exact E.
  - intros v1 v2 H1 H2 Hne E. apply Hne.
    unfold TransferPath.s3Key in E. apply app_inv_head in E.
    exact (title_and_id_tell_id _ _ _ _ H1 H2 E).
Qed.

Lemma distinct_ids_distinct_keys_witness :
  (TransferPath.safeTitle video_a = TransferPath.safeTitle video_a2
   /\ videoId video_a <> videoId video_a2
   /\ TransferPath.s3Key video_a <> TransferPath.s3Key video_a2)
  /\ (plain_id (videoId video_a) = true
      /\ plain_id (videoId video_b) = true
      /\ videoId video_a <> videoId video_b
      /\ TransferPath.s3Key video_a <> TransferPath.s3Key video_b).
Proof.
  assert (Ha2 : videoId video_a <> videoId video_a2)
    by (vm_compute; discriminate).
  assert (Hab : videoId video_a <> videoId video_b)
    by (vm_compute; discriminate).
  split.
  - split; [reflexivity|]. split; [exact Ha2|].
    exact (proj1 distinct_ids_distinct_keys video_a video_a2 eq_refl Ha2).
  - split; [reflexivity|]. split; [reflexivity|]. split; [exact Hab|].
    exact (proj2 distinct_ids_distinct_keys video_a video_b eq_refl eq_refl
             Hab).
Defined.

(** C3 as stated fails: identifiers that contain the separator (or only
    start with a dash and a space) collide with a shorter identifier. *)
Lemma colliding_keys :
  (videoId (mkVideo (js "x - y") (js_string (js "a")))
   <> videoId (mkVideo (js "y") (js_string (js "a - x")))
   /\ TransferPath.s3Key (mkVideo (js "x - y") (js_string (js "a")))
      = TransferPath.s3Key (mkVideo (js "y") (js_string (js "a - x"))))
  /\ (videoId (mkVideo (js "- b") (js_string (js "a")))
      <> videoId (mkVideo (js "b") (js_string (js "a -")))
      /\ TransferPath.s3Key (mkVideo (js "- b") (js_string (js "a")))
         = TransferPath.s3Key (mkVideo (js "b") (js_string (js "a -")))).
Proof.
  repeat split; try reflexivity; vm_compute; discriminate.
Qed.

(* ===================================================================== *)
(** ** Reading back what was written *)
(* ===================================================================== *)

Lemma hex_value_digit (d : N) : d < 16 -> hex_value (hex_digit d) = Some d.
Proof.
  intros H.
  assert (C : d = 0 \/ d = 1 \/ d = 2 \/ d = 3 \/ d = 4 \/ d = 5 \/ d = 6
              \/ d = 7 \/ d = 8 \/ d = 9 \/ d = 10 \/ d = 11 \/ d = 12
              \/ d = 13 \/ d = 14 \/ d = 15) by lia.
  repeat (destruct C as [C|C]; [subst d; reflexivity|]).
  subst d; reflexivity.
Qed.

Lemma hex4_digits (c : char16) :
  c < 65536 ->
  hex4 (hex_digit (c / 4096)) (hex_digit ((c / 256) mod 16))
    (hex_digit ((c / 16) mod 16)) (hex_digit (c mod 16)) = Some c.
Proof.
  intros H. unfold hex4.
  rewrite !hex_value_digit.
  - f_equal.
    pose proof (N.Div0.div_mod c 16) as E1.
    pose proof (N.Div0.div_mod (c / 16) 16) as E2.
    pose proof (N.Div0.div_mod (c / 256) 16) as E3.
    rewrite N.Div0.div_div in E2, E3.
    change (16 * 16) with 256 in E2. change (256 * 16) with 4096 in E3.
    assert (E4 : (c / 4096) mod 16 = c / 4096).
    { apply N.mod_small. apply N.Div0.div_lt_upper_bound. exact H. }
    lia.
  - apply N.mod_lt. discriminate.
  - apply N.mod_lt. discriminate.
  - apply N.mod_lt. discriminate.
  - apply N.Div0.div_lt_upper_bound. exact H.
Qed.

Lemma parse_chars_escape (c : char16) (r : JSString) :
  c < 65536 ->
  parse_chars (UnicodeEscape c ++ r) = cons_char c (parse_chars r).
Proof.
  intros H. unfold UnicodeEscape.
  change (parse_chars (_ ++ r))
    with (match hex4 (hex_digit (c / 4096)) (hex_digit ((c / 256) mod 16))
                  (hex_digit ((c / 16) mod 16)) (hex_digit (c mod 16)) with
          | Some u => cons_char u (parse_chars r)
          | None => None
          end).
  rewrite (hex4_digits H). reflexivity.
Qed.

Lemma parse_chars_raw (c : char16) (r : JSString) :
  c <> 34 -> c <> 92 -> 32 <= c ->
  parse_chars (c :: r) = cons_char c (parse_chars r).
Proof.
  intros H1 H2 H3. simpl.
  destruct (N.eqb_spec c 34); [contradiction|].
  destruct (N.eqb_spec c 92); [contradiction|].
  destruct (N.ltb_spec c 32); [lia|]. reflexivity.
Qed.

Lemma parse_chars_quote_unit (c : char16) (r : JSString) :
  parse_chars (quote_unit c ++ r) = cons_char c (parse_chars r).
Proof.
  unfold quote_unit.
  destruct (N.eqb_spec c 8); [subst; reflexivity|].
  destruct (N.eqb_spec c 9); [subst; reflexivity|].
  destruct (N.eqb_spec c 10); [subst; reflexivity|].
  destruct (N.eqb_spec c 12); [subst; reflexivity|].
  destruct (N.eqb_spec c 13); [subst; reflexivity|].
  destruct (N.eqb_spec c 34); [subst; reflexivity|].
  destruct (N.eqb_spec c 92); [subst; reflexivity|].
  destruct ((c <? 32) || is_leading_surrogate c || is_trailing_surrogate c)
    eqn:E.
  - apply parse_chars_escape.
    unfold is_leading_surrogate, is_trailing_surrogate, in_range in E.
    rewrite !orb_true_iff, !andb_true_iff, N.ltb_lt, !N.leb_le in E. lia.
  - rewrite !orb_false_iff, N.ltb_ge in E. destruct E as [[E _] _].
    apply parse_chars_raw; assumption.
Qed.

Lemma surrogate_is_raw (c : char16) (r : JSString) :
  is_leading_surrogate c || is_trailing_surrogate c = true ->
  parse_chars (c :: r) = cons_char c (parse_chars r).
Proof.
  intros E.
  unfold is_leading_surrogate, is_trailing_surrogate, in_range in E.
  rewrite !orb_true_iff, !andb_true_iff, !N.leb_le in E.
  apply parse_chars_raw; lia.
Qed.

Lemma parse_chars_quote_body_bounded (n : nat) :
  forall s rest, (List.length s <= n)%nat ->
    parse_chars (quote_body s ++ 34 :: rest) = Some (s, rest).
Proof.
  induction n as [|n IH]; intros s rest Hlen.
  - destruct s; [reflexivity|simpl in Hlen; lia].
  - destruct s as [|c r]; [reflexivity|].
    simpl in Hlen. cbn [quote_body].
    destruct (is_leading_surrogate c) eqn:Lc.
    + destruct r as [|d r'].
      * rewrite parse_chars_escape.
        -- reflexivity.
        -- unfold is_leading_surrogate, in_range in Lc.
           rewrite andb_true_iff, !N.leb_le in Lc. lia.
      * destruct (is_trailing_surrogate d) eqn:Td.
        -- cbn [app]. rewrite surrogate_is_raw by (rewrite Lc; reflexivity).
           rewrite surrogate_is_raw by (rewrite Td; apply orb_true_r).
           rewrite IH by (simpl in Hlen |- *; lia). reflexivity.
        -- rewrite <- app_assoc, parse_chars_escape.
           ++ rewrite IH by lia. reflexivity.
           ++ unfold is_leading_surrogate, in_range in Lc.
              rewrite andb_true_iff, !N.leb_le in Lc. lia.
    + rewrite <- app_assoc, parse_chars_quote_unit.
      rewrite IH by lia. reflexivity.
Qed.

Lemma parse_chars_quote (s rest : JSString) :
  parse_chars (quote_body s ++ 34 :: rest) = Some (s, rest).
Proof.
  apply (parse_chars_quote_body_bounded (n := List.length s)). lia.
Qed.

Lemma parse_members_step (fuel : nat) (s : JSString) :
  parse_members (S fuel) s
  = match skip_ws s with
    | 34 :: r =>
        match parse_chars r with
        | None => None
        | Some (key, r1) =>
            match skip_ws r1 with
            | 58 :: r2 =>
                match parse_value fuel r2 with
                | None => None
                | Some (v, r3) =>
                    match skip_ws r3 with
                    | 44 :: r4 =>
                        match parse_members fuel r4 with
                        | Some (ms, rest) => Some ((key, v) :: ms, rest)
                        | None => None
                        end
                    | 125 :: rest => Some ([(key, v)], rest)
                    | _ => None
                    end
                end
            | _ => None
            end
        end
    | _ => None
    end.
Proof. reflexivity. Qed.

Lemma parse_value_string (fuel : nat) (s tail : JSString) :
  parse_value (S fuel) (32 :: 34 :: quote_body s ++ 34 :: tail)
  = Some (JString s, tail).
Proof.
  cbn [parse_value]. 
  change (skip_ws (32 :: 34 :: quote_body s ++ 34 :: tail))
    with (34 :: quote_body s ++ 34 :: tail).
  cbv beta iota. change (34 =? 110) with false. change (34 =? 116) with false.
  change (34 =? 102) with false. change (34 =? 34) with true. cbv iota.
  rewrite parse_chars_quote. reflexivity.
Qed.

Lemma parse_value_null (fuel : nat) (tail : JSString) :
  parse_value (S fuel) (32 :: js "null" ++ tail) = Some (JNull, tail).
Proof.
  cbn [parse_value]. change (skip_ws (32 :: js "null" ++ tail))
    with (110 :: 117 :: 108 :: 108 :: tail).
  cbv beta iota. change (110 =? 110) with true. cbv iota.
  change (expect (js "ull") (117 :: 108 :: 108 :: tail)) with (Some tail).
  reflexivity.
Qed.

Lemma member_text_parts (k : JSString) (v : JSON) (tail : JSString) :
  member_text (js "    ") (k, v) ++ tail
  = 32 :: 32 :: 32 :: 32 :: 34 :: quote_body k ++ 34 :: 58
    :: (32 :: match v with
              | JString s => 34 :: quote_body s ++ 34 :: tail
              | _ => js "null" ++ tail
              end).
Proof.
  unfold member_text, QuoteJSONString. cbn [fst snd].
  destruct v; repeat (rewrite <- app_assoc; cbn [app js List.map
    list_ascii_of_string N_of_ascii]); reflexivity.
Qed.

Lemma parse_member_line (fuel : nat) (k : JSString) (v : JSON)
    (tail : JSString) :
  plain_member (k, v) = true ->
  parse_members (S (S fuel)) (member_text (js "    ") (k, v) ++ tail)
  = match skip_ws tail with
    | 44 :: r4 =>
        match parse_members (S fuel) r4 with
        | Some (ms, rest) => Some ((k, v) :: ms, rest)
        | None => None
        end
    | 125 :: rest => Some ([(k, v)], rest)
    | _ => None
    end.
Proof.
  intros Hv. rewrite member_text_parts, parse_members_step.
  match goal with
  | |- context [skip_ws (32 :: 32 :: 32 :: 32 :: 34 :: ?x)] =>
      change (skip_ws (32 :: 32 :: 32 :: 32 :: 34 :: x)) with (34 :: x)
  end.
  cbv iota. rewrite parse_chars_quote.
  match goal with
  | |- context [skip_ws (58 :: ?x)] =>
      change (skip_ws (58 :: x)) with (58 :: x)
  end.
  cbv iota.
  destruct v; try discriminate Hv.
  - rewrite parse_value_null. reflexivity.
  - rewrite parse_value_string. reflexivity.
Qed.

Lemma parse_members_skip_newline (fuel : nat) (x : JSString) :
  parse_members fuel (10 :: x) = parse_members fuel x.
Proof.
  destruct fuel; [reflexivity|]. rewrite !parse_members_step. reflexivity.
Qed.

Lemma join_cons (sep p q : JSString) (rest : list JSString) :
  join sep (p :: q :: rest) = p ++ sep ++ join sep (q :: rest).
Proof. reflexivity. Qed.

Lemma parse_members_lines (ms : list (JSString * JSON)) :
  forall fuel rest,
    ms <> [] ->
    forallb plain_member ms = true ->
    (List.length ms < fuel)%nat ->
    parse_members fuel
      (join (js "," ++ newline) (List.map (member_text (js "    ")) ms)
       ++ newline ++ js "  " ++ js "}" ++ rest)
    = Some (ms, rest).
Proof.
  induction ms as [|[k v] ms IH]; intros fuel rest Hne Hplain Hfuel.
  - contradiction.
  - simpl in Hplain. apply andb_prop in Hplain. destruct Hplain as [Hm Hms].
    destruct fuel as [|[|fuel]]; [simpl in Hfuel; lia | simpl in Hfuel; lia |].
    destruct ms as [|m' ms'].
    + cbn [List.map join]. rewrite parse_member_line by exact Hm.
      reflexivity.
    + cbn [List.map]. rewrite join_cons, <- !app_assoc.
      rewrite parse_member_line by exact Hm.
      match goal with
      | |- context [skip_ws (js "," ++ newline ++ ?x)] =>
          change (skip_ws (js "," ++ newline ++ x)) with (44 :: 10 :: x)
      end.
      cbv iota.
      cbn [List.map] in IH.
      rewrite parse_members_skip_newline.
      rewrite IH; [reflexivity | discriminate | exact Hms |].
      simpl in Hfuel |- *. lia.
Qed.

Lemma stringify_property_member (indent : JSString) (p : JSString * Nullable) :
  stringify_property indent p
  = List.map (member_text indent) (json_property p).
Proof.
  destruct p as [k v]. destruct v; reflexivity.
Qed.

Lemma flat_map_stringify_property (indent : JSString)
    (props : list (JSString * Nullable)) :
  flat_map (stringify_property indent) props
  = List.map (member_text indent) (flat_map json_property props).
Proof.
  induction props as [|p props IH]; [reflexivity|].
  cbn [flat_map]. rewrite map_app, IH, stringify_property_member.
  reflexivity.
Qed.

(** The members of an entry: the identifier first, at most four, all
    strings or [null]. *)
Lemma entry_members_shape (e : LedgerEntry) :
  exists ms,
    flat_map json_property (entry_properties e)
    = (js "videoId", JString (entry_videoId e)) :: ms
    /\ forallb plain_member ms = true
    /\ (List.length ms <= 3)%nat.
Proof.
  destruct e as [id t er ts]. unfold entry_properties. cbn [flat_map].
  unfold json_property at 1. cbn [snd fst app].
  eexists. split; [reflexivity|].
  destruct t, er; cbn; split; (reflexivity || lia).
Qed.

Lemma stringify_entry_text (e : LedgerEntry) :
  stringify_entry e
  = js "{" ++ newline
    ++ join (js "," ++ newline)
         (List.map (member_text (js "    "))
            (flat_map json_property (entry_properties e)))
    ++ newline ++ js "  " ++ js "}".
Proof.
  unfold stringify_entry. rewrite flat_map_stringify_property.
  destruct (entry_members_shape e) as [ms [E _]]. rewrite E. reflexivity.
Qed.

Lemma parse_value_open_brace (fuel : nat) (r : JSString) :
  parse_value (S fuel) (32 :: 32 :: 123 :: r)
  = match skip_ws r with
    | 125 :: rest => Some (JObject [], rest)
    | _ =>
        match parse_members fuel r with
        | Some (ms, rest) => Some (JObject ms, rest)
        | None => None
        end
    end.
Proof. reflexivity. Qed.

Lemma parse_value_open_bracket (fuel : nat) (r : JSString) :
  parse_value (S fuel) (91 :: r)
  = match skip_ws r with
    | 93 :: rest => Some (JArray [], rest)
    | _ =>
        match parse_elements fuel r with
        | Some (vs, rest) => Some (JArray vs, rest)
        | None => None
        end
    end.
Proof. reflexivity. Qed.

Lemma parse_elements_step (fuel : nat) (s : JSString) :
  parse_elements (S fuel) s
  = match parse_value fuel s with
    | None => None
    | Some (v, r) =>
        match skip_ws r with
        | 44 :: r' =>
            match parse_elements fuel r' with
            | Some (vs, rest) => Some (v :: vs, rest)
            | None => None
            end
        | 93 :: rest => Some ([v], rest)
        | _ => None
        end
    end.
Proof. reflexivity. Qed.

Lemma parse_value_skip_newline (fuel : nat) (x : JSString) :
  parse_value fuel (10 :: x) = parse_value fuel x.
Proof. destruct fuel; reflexivity. Qed.

Lemma parse_elements_skip_newline (fuel : nat) (x : JSString) :
  parse_elements fuel (10 :: x) = parse_elements fuel x.
Proof.
  destruct fuel; [reflexivity|].
  rewrite !parse_elements_step, parse_value_skip_newline. reflexivity.
Qed.

(** The text of one entry of the array reads back as its value. *)
Lemma parse_value_entry (fuel : nat) (e : LedgerEntry) (rest : JSString) :
  (6 <= fuel)%nat ->
  parse_value fuel (js "  " ++ stringify_entry e ++ rest)
  = Some (entry_json e, rest).
Proof.
  intros Hfuel. destruct fuel as [|fuel]; [lia|].
  rewrite stringify_entry_text.
  destruct (entry_members_shape e) as [ms [E [Hplain Hlen]]].
  unfold entry_json. rewrite E.
  set (all := (js "videoId", JString (entry_videoId e)) :: ms).
  set (lines := join (js "," ++ newline)
                  (List.map (member_text (js "    ")) all)).
  change (js "  " ++ (js "{" ++ newline ++ lines ++ newline ++ js "  "
                      ++ js "}") ++ rest)
    with (32 :: 32 :: 123
            :: 10 :: (lines ++ newline ++ js "  " ++ js "}") ++ rest).
  rewrite parse_value_open_brace.
  rewrite parse_members_skip_newline.
  assert (Hparse :
    parse_members fuel ((lines ++ newline ++ js "  " ++ js "}") ++ rest)
    = Some (all, rest)).
  { rewrite <- !app_assoc.
    apply (parse_members_lines (ms := all)).
    - discriminate.
    - exact Hplain.
    - subst all. simpl. lia. }
  assert (Hskip : exists z,
    skip_ws (10 :: (lines ++ newline ++ js "  " ++ js "}") ++ rest)
    = 34 :: z).
  { subst lines all. cbn [List.map].
    destruct ms as [|m ms].
    - cbn [join List.map]. rewrite <- app_assoc, member_text_parts.
      eexists. reflexivity.
    - cbn [List.map]. rewrite join_cons, <- !app_assoc, member_text_parts.
      eexists. reflexivity. }
  destruct Hskip as [z Hz]. rewrite Hz, Hparse. reflexivity.
Qed.

Lemma parse_elements_entries (es : list LedgerEntry) :
  forall fuel rest,
    es <> [] ->
    (List.length es + 6 <= fuel)%nat ->
    parse_elements fuel
      (join (js "," ++ newline)
         (List.map (fun e => js "  " ++ stringify_entry e) es)
       ++ newline ++ js "]" ++ rest)
    = Some (List.map entry_json es, rest).
Proof.
  induction es as [|e es IH]; intros fuel rest Hne Hfuel; [contradiction|].
  destruct fuel as [|fuel]; [simpl in Hfuel; lia|].
  simpl in Hfuel. rewrite parse_elements_step.
  destruct es as [|e' es'].
  - cbn [List.map join]. rewrite <- app_assoc.
    rewrite parse_value_entry by lia. reflexivity.
  - cbn [List.map]. rewrite join_cons, <- !app_assoc.
    rewrite parse_value_entry by (simpl in Hfuel; lia).
    match goal with
    | |- context [skip_ws (js "," ++ newline ++ ?x)] =>
        change (skip_ws (js "," ++ newline ++ x)) with (44 :: 10 :: x)
    end.
    cbv iota. rewrite parse_elements_skip_newline.
    cbn [List.map] in IH. rewrite IH; [reflexivity | discriminate |].
    simpl in Hfuel |- *. lia.
Qed.

Lemma join_length_lower (sep : JSString) (parts : list JSString) :
  (forall p, In p parts -> p <> []) ->
  (List.length parts <= List.length (join sep parts))%nat.
Proof.
  induction parts as [|p parts IH]; intros Hp; [simpl; lia|].
  assert (Hlen : (1 <= List.length p)%nat).
  { destruct p; [exfalso; apply (Hp []); [left; reflexivity|reflexivity]|].
    simpl. lia. }
  destruct parts as [|q parts].
  - simpl. lia.
  - rewrite join_cons, !length_app.
    assert (IH' := IH (fun x Hx => Hp x (or_intror Hx))).
    simpl List.length at 1. simpl List.length at 1 in IH'. lia.
Qed.

(** What [saveFailedVideos] writes, [JSON.parse] reads back as the array of
    the entries' values. *)
Lemma JSON_parse_stringify (es : list LedgerEntry) :
  JSON_parse (JSON_stringify es) = Some (JArray (List.map entry_json es)).
Proof.
  destruct es as [|e es]; [reflexivity|].
  unfold JSON_parse, JSON_stringify.
  set (parts := List.map (fun e => js "  " ++ stringify_entry e) (e :: es)).
  set (body := join (js "," ++ newline) parts).
  assert (Hlen : (List.length (e :: es) <= List.length body)%nat).
  { subst body parts. rewrite <- (length_map (fun e => js "  " ++ stringify_entry e)).
    apply join_length_lower. intros p Hp. apply in_map_iff in Hp.
    destruct Hp as [x [Hx _]]. subst p. discriminate. }
  change (js "[" ++ newline ++ body ++ newline ++ js "]")
    with (91 :: 10 :: body ++ newline ++ js "]" ++ []).
  set (text := 91 :: 10 :: body ++ newline ++ js "]" ++ []).
  assert (Hfuel : exists fuel,
    (2 * List.length text + 2 = S fuel)%nat
    /\ (List.length (e :: es) + 6 <= fuel)%nat).
  { exists (2 * List.length text + 1)%nat. split; [lia|].
    subst text. simpl List.length. rewrite length_app. simpl List.length.
    simpl List.length in Hlen. lia. }
  destruct Hfuel as [fuel [Efuel Hfuel]].
  match goal with
  | |- context [parse_value ?f text] =>
      replace f with (S fuel) by (symmetry; exact Efuel)
  end.
  subst text. rewrite parse_value_open_bracket, parse_elements_skip_newline.
  assert (Hskip : exists z, skip_ws (10 :: body ++ newline ++ js "]" ++ [])
                            = 123 :: z).
  { subst body parts. cbn [List.map]. destruct es as [|e' es'].
    - cbn [join List.map]. rewrite <- app_assoc, stringify_entry_text.
      eexists. reflexivity.
    - cbn [List.map]. rewrite join_cons, <- !app_assoc, stringify_entry_text.
      eexists. reflexivity. }
  destruct Hskip as [z Hz]. rewrite Hz.
  subst body parts.
  rewrite (parse_elements_entries (es := e :: es)) by (discriminate || exact Hfuel).
  reflexivity.
Qed.

Lemma retry_item_entry (e : LedgerEntry) :
  retry_item (entry_json e)
  = Some (mkRetryItem (Some (JString (entry_videoId e)))
            (match entry_title e with
             | js_undefined => None
             | js_null => Some JNull
             | js_string t => Some (JString t)
             end)).
Proof.
  destruct e as [id t er ts]. destruct t, er; reflexivity.
Qed.

Lemma map_all_retry_item_entries (es : list LedgerEntry) :
  exists items,
    map_all retry_item (List.map entry_json es) = Some items
    /\ map_all video_of_item items = Some (List.map entry_video es).
Proof.
  induction es as [|e es [items [E1 E2]]].
  - exists []. split; reflexivity.
  - cbn [List.map map_all]. rewrite retry_item_entry, E1.
    eexists. split; [reflexivity|].
    cbn [map_all]. rewrite E2.
    destruct e as [id t er ts]. destruct t; reflexivity.
Qed.

(** The array read back from the ledger maps to the records of the
    entries. *)
Lemma videosToRetry_entries (es : list LedgerEntry) :
  videosToRetry (List.map entry_json es) = Some (List.map entry_video es).
Proof.
  unfold videosToRetry.
  destruct (map_all_retry_item_entries es) as [items [E1 E2]].
  rewrite E1. exact E2.
Qed.

(* ===================================================================== *)
(** ** The written text survives the encoding of the file *)
(* ===================================================================== *)

Lemma toWellFormed_bounded (n : nat) :
  forall s, (List.length s <= n)%nat -> well_formed s = true ->
            toWellFormed s = s.
Proof.
  induction n as [|n IH]; intros s Hlen Hwf.
  - destruct s; [reflexivity|simpl in Hlen; lia].
  - destruct s as [|c r]; [reflexivity|]. simpl in Hlen.
    cbn [well_formed toWellFormed] in *.
    destruct (is_leading_surrogate c).
    + destruct r as [|d r']; [discriminate|].
      apply andb_prop in Hwf. destruct Hwf as [Hd Hr]. rewrite Hd.
      rewrite IH by (simpl in Hlen; lia || exact Hr). reflexivity.
    + apply andb_prop in Hwf. destruct Hwf as [Hc Hr].
      apply negb_true_iff in Hc. rewrite Hc.
      rewrite IH by (lia || exact Hr). reflexivity.
Qed.

Lemma toWellFormed_well_formed (s : JSString) :
  well_formed s = true -> toWellFormed s = s.
Proof. apply (toWellFormed_bounded (n := List.length s)). lia. Qed.

Lemma well_formed_app_bounded (n : nat) :
  forall a b, (List.length a <= n)%nat ->
              well_formed a = true -> well_formed b = true ->
              well_formed (a ++ b) = true.
Proof.
  induction n as [|n IH]; intros a b Hlen Ha Hb.
  - destruct a; [exact Hb|simpl in Hlen; lia].
  - destruct a as [|c r]; [exact Hb|]. simpl in Hlen.
    cbn [well_formed app] in *.
    destruct (is_leading_surrogate c).
    + destruct r as [|d r']; [discriminate|].
      apply andb_prop in Ha. destruct Ha as [Hd Hr]. cbn [app].
      rewrite Hd. cbn [andb]. apply IH; [simpl in Hlen; lia|exact Hr|exact Hb].
    + apply andb_prop in Ha. destruct Ha as [Hc Hr]. rewrite Hc. cbn [andb].
      apply IH; [lia|exact Hr|exact Hb].
Qed.

Lemma well_formed_app (a b : JSString) :
  well_formed a = true -> well_formed b = true ->
  well_formed (a ++ b) = true.
Proof. apply (well_formed_app_bounded (n := List.length a)). lia. Qed.

Lemma below_surrogates (c : char16) :
  c < 55296 -> is_leading_surrogate c = false /\ is_trailing_surrogate c = false.
Proof.
  intros H. unfold is_leading_surrogate, is_trailing_surrogate, in_range.
  split; apply andb_false_iff; left; apply N.leb_gt; lia.
Qed.

Lemma well_formed_small (s : JSString) :
  Forall (fun c => c < 55296) s -> well_formed s = true.
Proof.
  induction 1 as [|c r Hc _ IH]; [reflexivity|].
  cbn [well_formed]. destruct (below_surrogates Hc) as [-> ->]. exact IH.
Qed.

Lemma hex_digit_small (d : N) : d < 16 -> hex_digit d < 55296.
Proof.
  intros H. unfold hex_digit. destruct (d <? 10); lia.
Qed.

Lemma well_formed_UnicodeEscape (c : char16) :
  c < 65536 -> well_formed (UnicodeEscape c) = true.
Proof.
  intros H. apply well_formed_small. unfold UnicodeEscape.
  repeat constructor; try lia; apply hex_digit_small;
    try (apply N.mod_lt; discriminate).
  apply N.Div0.div_lt_upper_bound. exact H.
Qed.

Lemma well_formed_quote_unit (c : char16) :
  is_leading_surrogate c = false -> well_formed (quote_unit c) = true.
Proof.
  intros Hlead. unfold quote_unit.
  repeat match goal with
         | |- context [if ?c =? ?k then _ else _] =>
             destruct (c =? k); [reflexivity|]
         end.
  destruct ((c <? 32) || is_leading_surrogate c || is_trailing_surrogate c)
    eqn:E.
  - apply well_formed_UnicodeEscape.
    unfold is_leading_surrogate, is_trailing_surrogate, in_range in E.
    rewrite !orb_true_iff, !andb_true_iff, N.ltb_lt, !N.leb_le in E. lia.
  - rewrite !orb_false_iff in E. destruct E as [_ Htrail].
    cbn [well_formed]. rewrite Hlead, Htrail. reflexivity.
Qed.

Lemma well_formed_quote_body_bounded (n : nat) :
  forall s, (List.length s <= n)%nat -> well_formed (quote_body s) = true.
Proof.
  induction n as [|n IH]; intros s Hlen.
  - destruct s; [reflexivity|simpl in Hlen; lia].
  - destruct s as [|c r]; [reflexivity|]. simpl in Hlen. cbn [quote_body].
    destruct (is_leading_surrogate c) eqn:Lc.
    + assert (Hc : c < 65536).
      { unfold is_leading_surrogate, in_range in Lc.
        rewrite andb_true_iff, !N.leb_le in Lc. lia. }
      destruct r as [|d r'].
      * apply well_formed_UnicodeEscape, Hc.
      * destruct (is_trailing_surrogate d) eqn:Td.
        -- cbn [well_formed]. rewrite Lc, Td. cbn [andb].
           apply IH. simpl in Hlen. lia.
        -- apply well_formed_app.
           ++ apply well_formed_UnicodeEscape, Hc.
           ++ apply IH. lia.
    + apply well_formed_app.
      * apply well_formed_quote_unit, Lc.
      * apply IH. lia.
Qed.

Lemma well_formed_QuoteJSONString (s : JSString) :
  well_formed (QuoteJSONString s) = true.
Proof.
  unfold QuoteJSONString.
  apply (well_formed_app [34]); [reflexivity|].
  apply well_formed_app; [|reflexivity].
  apply (well_formed_quote_body_bounded (n := List.length s)). lia.
Qed.

Lemma well_formed_join (sep : JSString) (parts : list JSString) :
  well_formed sep = true ->
  Forall (fun p => well_formed p = true) parts ->
  well_formed (join sep parts) = true.
Proof.
  intros Hsep. induction 1 as [|p rest Hp Hrest IH]; [reflexivity|].
  destruct rest as [|q rest]; [exact Hp|].
  rewrite join_cons.
  apply well_formed_app; [exact Hp|].
  apply well_formed_app; [exact Hsep|exact IH].
Qed.

Lemma well_formed_stringify_entry (e : LedgerEntry) :
  well_formed (stringify_entry e) = true.
Proof.
  unfold stringify_entry.
  assert (Hparts : Forall (fun p => well_formed p = true)
                     (flat_map (stringify_property (js "    "))
                        (entry_properties e))).
  { apply Forall_flat_map. apply Forall_forall. intros [k v] _.
    unfold stringify_property. cbn [fst snd].
    destruct v; cbn [stringify_value].
    - constructor.
    - constructor; [|constructor].
      apply well_formed_app; [reflexivity|].
      apply well_formed_app; [apply well_formed_QuoteJSONString|reflexivity].
    - constructor; [|constructor].
      apply well_formed_app; [reflexivity|].
      apply well_formed_app; [apply well_formed_QuoteJSONString|].
      apply well_formed_app; [reflexivity|apply well_formed_QuoteJSONString]. }
  destruct (flat_map (stringify_property (js "    ")) (entry_properties e))
    as [|p parts] eqn:E; [reflexivity|].
  apply well_formed_app; [reflexivity|].
  apply well_formed_app; [reflexivity|].
  apply well_formed_app; [|reflexivity].
  apply well_formed_join; [reflexivity|exact Hparts].
Qed.

Lemma well_formed_JSON_stringify (es : list LedgerEntry) :
  well_formed (JSON_stringify es) = true.
Proof.
  unfold JSON_stringify. destruct es as [|e es]; [reflexivity|].
  apply well_formed_app; [reflexivity|].
  apply well_formed_app; [reflexivity|].
  apply well_formed_app; [|reflexivity].
  apply well_formed_join; [reflexivity|].
  apply Forall_map, Forall_forall. intros x _.
  apply well_formed_app; [reflexivity|apply well_formed_stringify_entry].
Qed.

(** The ledger text is the same before and after the trip through the
    file. *)
Lemma written_JSON_stringify (es : list LedgerEntry) :
  toWellFormed (JSON_stringify es) = JSON_stringify es.
Proof.
  apply toWellFormed_well_formed, well_formed_JSON_stringify.
Qed.

(* ===================================================================== *)
(** ** Store client, catalog client, retry *)
(* ===================================================================== *)

Section ScriptFacts.

Context {W : Type} (rt : Runtime W).

(** The one call of [checkFileExists] and its answer. *)
Lemma checkFileExists_run (s3Key : JSString) (st : State W) :
  checkFileExists rt s3Key st
  = (Resolved
       (match fst (s3_headObject rt s3Key (world st)) with
        | None => true
        | Some _ => false
        end),
     mkState (snd (s3_headObject rt s3Key (world st))) (ledgerFile st)
       (trace st ++ [EvHeadObject s3Key])).
Proof.
  unfold checkFileExists, perform.
  destruct (s3_headObject rt s3Key (world st)) as [[e|] w]; cbn [fst snd].
  - destruct (code_is_NotFound e); reflexivity.
  - reflexivity.
Qed.

(** C6.  [checkFileExists] always resolves, whatever [headObject] hands to
    its callback: with [true] when there is no error, with [false] on a
    [NotFound] error and on every other error.  It never rejects or halts,
    and its only effect is the one [headObject] call. *)
Theorem checkFileExists_total (s3Key : JSString) (st : State W) :
  exists answer st',
    checkFileExists rt s3Key st = (Resolved answer, st')
    /\ answer
       = match fst (s3_headObject rt s3Key (world st)) with
         | None => true
         | Some err => if code_is_NotFound err then false else false
         end
    /\ world st' = snd (s3_headObject rt s3Key (world st))
    /\ ledgerFile st' = ledgerFile st
    /\ trace st' = trace st ++ [EvHeadObject s3Key].
Proof.
  rewrite checkFileExists_run. eexists. eexists.
  split; [reflexivity|]. cbn [world ledgerFile trace].
  repeat split.
  destruct (fst (s3_headObject rt s3Key (world st))) as [err|];
    [destruct (code_is_NotFound err)|]; reflexivity.
Qed.

Lemma fetchAllVideos_from_pages (full : list (list Video)) :
  forall (lastp : option (list Video)) fuel allVideos page (st : State W) w',
    Forall (fun p => List.length p = 100%nat) full ->
    (List.length (page_records lastp) < 100)%nat ->
    serves rt page (List.map Some full ++ [lastp]) (world st) w' ->
    (List.length full < fuel)%nat ->
    fetchAllVideos_from rt fuel allVideos page st
    = (Resolved (allVideos ++ List.concat full ++ page_records lastp),
       mkState w' (ledgerFile st)
         (trace st ++ page_requests page (S (List.length full)))).
Proof.
  induction full as [|p full IH];
    intros lastp fuel allVideos page st w' Hfull Hlast Hserves Hfuel.
  - destruct fuel as [|fuel]; [simpl in Hfuel; lia|].
    cbn [List.map app serves] in Hserves.
    destruct Hserves as [w1 [Hpage Hend]]. subst w'.
    cbn [fetchAllVideos_from]. unfold bind, perform. rewrite Hpage.
    cbn [List.concat app page_requests List.length].
    destruct lastp as [[|v vs]|]; cbn [page_records] in *.
    + rewrite app_nil_r. reflexivity.
    + match goal with
      | |- context [N.of_nat ?n =? 100] =>
          destruct (N.eqb_spec (N.of_nat n) 100) as [E|E]
      end.
      * exfalso. simpl in Hlast. lia.
      * reflexivity.
    + rewrite app_nil_r. reflexivity.
  - destruct fuel as [|fuel]; [simpl in Hfuel; lia|].
    cbn [List.map app serves] in Hserves.
    destruct Hserves as [w1 [Hpage Hrest]].
    inversion Hfull as [|? ? Hp Hfull']; subst.
    cbn [fetchAllVideos_from]. unfold bind, perform. rewrite Hpage.
    destruct p as [|v vs]; [simpl in Hp; discriminate|].
    rewrite Hp. change (N.of_nat 100 =? 100) with true. cbv iota.
    rewrite (IH lastp fuel (allVideos ++ v :: vs) (page + 1)
               (mkState w1 (ledgerFile st)
                  (trace st ++ [EvFetchVideoPage page])) w');
      try assumption.
    + cbn [world ledgerFile trace List.concat page_requests List.length].
      rewrite <- !app_assoc. reflexivity.
    + simpl in Hfuel. lia.
Qed.

(** C5.  A listing that answers with pages of 100, 100 and 37 records is
    read with exactly the requests for pages 1, 2 and 3 and gives the 237
    records in order; and in general, after any number of pages of 100
    records the loop stops at the first page that has fewer (or none, or
    no data at all), having asked for each page once, in order, and
    having collected every record served. *)
Theorem pagination_terminates :
  (forall p1 p2 p3 fuel (st : State W) w',
      List.length p1 = 100%nat ->
      List.length p2 = 100%nat ->
      List.length p3 = 37%nat ->
      serves rt 1 [Some p1; Some p2; Some p3] (world st) w' ->
      (3 <= fuel)%nat ->
      fetchAllVideos rt fuel st
      = (Resolved (p1 ++ p2 ++ p3),
         mkState w' (ledgerFile st)
           (trace st
            ++ [EvFetchVideoPage 1; EvFetchVideoPage 2; EvFetchVideoPage 3]))
      /\ List.length (p1 ++ p2 ++ p3) = 237%nat)
  /\ (forall full lastp fuel (st : State W) w',
         Forall (fun p => List.length p = 100%nat) full ->
         (List.length (page_records lastp) < 100)%nat ->
         serves rt 1 (List.map Some full ++ [lastp]) (world st) w' ->
         (List.length full < fuel)%nat ->
         fetchAllVideos rt fuel st
         = (Resolved (List.concat full ++ page_records lastp),
            mkState w' (ledgerFile st)
              (trace st ++ page_requests 1 (S (List.length full))))).
Proof.
  split.
  - intros p1 p2 p3 fuel st w' H1 H2 H3 Hserves Hfuel. split.
    + unfold fetchAllVideos.
      rewrite (@fetchAllVideos_from_pages [p1; p2] (Some p3) fuel [] 1 st
                 w').
      * cbn [List.concat page_records app].
        rewrite app_nil_r, <- app_assoc. reflexivity.
      * repeat constructor; assumption.
      * cbn [page_records]. lia.
      * exact Hserves.
      * simpl. lia.
    + rewrite !length_app. lia.
  - intros full lastp fuel st w' Hfull Hlast Hserves Hfuel.
    unfold fetchAllVideos.
    rewrite (@fetchAllVideos_from_pages full lastp fuel [] 1 st w' Hfull);
      try assumption.
    reflexivity.
Qed.

End ScriptFacts.

Section TransferFacts.

Context {W : Type} (rt : Runtime W).

(** One failed attempt: either wait and try again, or give up. *)
Lemma streamToS3WithRetry_failed_attempt
    (sourceUrl s3Key : JSString) (videoTitle : JSValue) (retries : nat)
    (st : State W) (message : JSString) (w1 : W) :
  streamToS3 rt sourceUrl s3Key videoTitle (world st)
  = (Rejected message, w1) ->
  streamToS3WithRetry rt sourceUrl s3Key videoTitle retries st
  = if Nat.ltb retries MAX_RETRIES
    then streamToS3WithRetry rt sourceUrl s3Key videoTitle (S retries)
           (mkState (setTimeout rt RETRY_DELAY w1) (ledgerFile st)
              (trace st
               ++ [EvStreamToS3 sourceUrl s3Key videoTitle;
                   EvDelay RETRY_DELAY]))
    else (Resolved (mkRetryResult false (js_string message)),
          mkState w1 (ledgerFile st)
            (trace st ++ [EvStreamToS3 sourceUrl s3Key videoTitle])).
Proof.
  intros Hfail. rewrite streamToS3WithRetry_equation_1.
  unfold try_catch, bind, perform. rewrite Hfail.
  destruct (lt_dec retries MAX_RETRIES) as [Hlt|Hge].
  - apply Nat.ltb_lt in Hlt. rewrite Hlt.
    unfold delay. cbn [world ledgerFile trace].
    rewrite <- app_assoc. reflexivity.
  - apply Nat.ltb_nlt in Hge. rewrite Hge. reflexivity.
Qed.

(** A stream that fails whenever it is tried is tried four times, five
    seconds apart, and the result carries the message of the last try. *)
Lemma streamToS3WithRetry_exhausted
    (sourceUrl s3Key : JSString) (videoTitle : JSValue) (st : State W) :
  (forall w, exists message,
      fst (streamToS3 rt sourceUrl s3Key videoTitle w) = Rejected message) ->
  exists message w3 w4,
    streamToS3 rt sourceUrl s3Key videoTitle w3 = (Rejected message, w4)
    /\ streamToS3WithRetry rt sourceUrl s3Key videoTitle 0 st
       = (Resolved (mkRetryResult false (js_string message)),
          mkState w4 (ledgerFile st)
            (trace st
             ++ [EvStreamToS3 sourceUrl s3Key videoTitle; EvDelay 5000;
                 EvStreamToS3 sourceUrl s3Key videoTitle; EvDelay 5000;
                 EvStreamToS3 sourceUrl s3Key videoTitle; EvDelay 5000;
                 EvStreamToS3 sourceUrl s3Key videoTitle])).
Proof.
  intros Hfail.
  assert (Hstep : forall w, exists message w',
             streamToS3 rt sourceUrl s3Key videoTitle w
             = (Rejected message, w')).
  { intros w. destruct (Hfail w) as [m Hm].
    destruct (streamToS3 rt sourceUrl s3Key videoTitle w) as [r w'] eqn:E.
    simpl in Hm. subst r. exists m, w'. reflexivity. }
  destruct (Hstep (world st)) as [m1 [w1 E1]].
  erewrite streamToS3WithRetry_failed_attempt by (cbn [world]; exact E1).
  change (Nat.ltb 0 MAX_RETRIES) with true. cbv iota.
  destruct (Hstep (setTimeout rt RETRY_DELAY w1)) as [m2 [w2 E2]].
  erewrite streamToS3WithRetry_failed_attempt by (cbn [world]; exact E2).
  change (Nat.ltb 1 MAX_RETRIES) with true. cbv iota.
  destruct (Hstep (setTimeout rt RETRY_DELAY w2)) as [m3 [w3 E3]].
  erewrite streamToS3WithRetry_failed_attempt by (cbn [world]; exact E3).
  change (Nat.ltb 2 MAX_RETRIES) with true. cbv iota.
  destruct (Hstep (setTimeout rt RETRY_DELAY w3)) as [m4 [w4 E4]].
  erewrite streamToS3WithRetry_failed_attempt by (cbn [world]; exact E4).
  change (Nat.ltb 3 MAX_RETRIES) with false. cbv iota.
  exists m4, (setTimeout rt RETRY_DELAY w3), w4.
  split; [exact E4|].
  cbn [world ledgerFile trace]. rewrite <- !app_assoc. reflexivity.
Qed.

Lemma uploads_app (tr tr' : list Event) :
  uploads (tr ++ tr') = (uploads tr + uploads tr')%nat.
Proof. unfold uploads. rewrite filter_app, length_app. reflexivity. Qed.

(** C4.  A record with a source that is not yet in the store and whose
    stream fails whenever it is tried: the stream is started exactly
    [1 + MAX_RETRIES = 4] times with a delay of 5000 ms between two
    starts; then an entry with the identifier, the title, the message
    of the last failure and the time is pushed on the failure list, and
    the loop goes on with the next record. *)
Theorem retry_exhaustion (video : Video) (rest : list Video)
    (failedVideos : list LedgerEntry) (st : State W)
    (details : VideoDetails) (w1 : W) (sourceUrl : JSString) :
  fetchVideoDetails rt (videoId video) (world st) = (Resolved details, w1) ->
  truthy (assets_mp4 details) = Some sourceUrl ->
  fst (s3_headObject rt (TransferPath.s3Key video) w1) <> None ->
  (forall w, exists message,
      fst (streamToS3 rt sourceUrl (TransferPath.s3Key video)
             (title video) w) = Rejected message) ->
  exists message w3 st',
    let attempt :=
      EvStreamToS3 sourceUrl (TransferPath.s3Key video) (title video) in
    let entry :=
      mkEntry (videoId video) (title video) (js_string message)
        (Date_toISOString rt (world st')) in
    streamToS3 rt sourceUrl (TransferPath.s3Key video) (title video) w3
    = (Rejected message, world st')
    /\ transferVideo rt video st = (Resolved [entry], st')
    /\ trace st'
       = trace st
         ++ [EvFetchVideoDetails (videoId video);
             EvHeadObject (TransferPath.s3Key video);
             attempt; EvDelay 5000; attempt; EvDelay 5000;
             attempt; EvDelay 5000; attempt]
    /\ uploads (trace st') = (uploads (trace st) + (1 + MAX_RETRIES))%nat
    /\ ledgerFile st' = ledgerFile st
    /\ transferVideos_from rt failedVideos (video :: rest) st
       = transferVideos_from rt (failedVideos ++ [entry]) rest st'.
Proof.
  intros Hdetails Hsource Hhead Hfail.
  set (st1 := mkState w1 (ledgerFile st)
                (trace st ++ [EvFetchVideoDetails (videoId video)])).
  set (st2 := mkState
                (snd (s3_headObject rt (TransferPath.s3Key video) w1))
                (ledgerFile st)
                (trace st1 ++ [EvHeadObject (TransferPath.s3Key video)])).
  destruct (streamToS3WithRetry_exhausted sourceUrl
              (TransferPath.s3Key video) (title video) st2 Hfail)
    as [message [w3 [w4 [Hlast Hretry]]]].
  set (attempt :=
         EvStreamToS3 sourceUrl (TransferPath.s3Key video) (title video)).
  set (st' := mkState w4 (ledgerFile st)
                (trace st2
                 ++ [attempt; EvDelay 5000; attempt; EvDelay 5000;
                     attempt; EvDelay 5000; attempt])).
  assert (Hbody :
    transferVideo rt video st
    = (Resolved
         [mkEntry (videoId video) (title video) (js_string message)
            (Date_toISOString rt w4)],
       st')).
  { unfold transferVideo, try_catch, bind at 1, perform at 1.
    rewrite Hdetails, Hsource. unfold bind at 1.
    rewrite checkFileExists_run. cbn [world ledgerFile trace].
    destruct (fst (s3_headObject rt (TransferPath.s3Key video) w1))
      eqn:Ehead; [|contradiction].
    unfold bind at 1. unfold st2, st1 in Hretry.
    cbn [trace ledgerFile] in Hretry. rewrite Hretry.
    cbn [success error]. unfold bind, now, ret. reflexivity. }
  exists message, w3, st'. cbv zeta.
  split; [exact Hlast|].
  split; [exact Hbody|].
  split.
  { subst st' st2 st1 attempt. cbn [trace].
    rewrite <- !app_assoc. reflexivity. }
  split.
  { subst st' st2 st1 attempt. cbn [trace].
    rewrite !uploads_app. unfold MAX_RETRIES. cbn. lia. }
  split; [reflexivity|].
  cbn [transferVideos_from]. unfold bind at 1. rewrite Hbody. reflexivity.
Qed.

End TransferFacts.

(* ===================================================================== *)
(** ** What touches the ledger file *)
(* ===================================================================== *)

Section LedgerFrame.

Context {W : Type} (rt : Runtime W).

Lemma keeps_ledger_ret {A : Type} (a : A) : keeps_ledger (ret (W := W) a).
Proof. intros st. reflexivity. Qed.

Lemma keeps_ledger_throw {A : Type} (m : JSString) :
  keeps_ledger (throw (W := W) (A := A) m).
Proof. intros st. reflexivity. Qed.

Lemma keeps_ledger_halt {A : Type} (h : Halt) :
  keeps_ledger (halt (W := W) (A := A) h).
Proof. intros st. reflexivity. Qed.

Lemma keeps_ledger_perform {A : Type} (e : Event)
    (service : W -> Res A * W) :
  keeps_ledger (perform e service).
Proof.
  intros st. unfold perform. destruct (service (world st)). reflexivity.
Qed.

Lemma keeps_ledger_bind {A B : Type} (c : @M W A) (k : A -> @M W B) :
  keeps_ledger c -> (forall a, keeps_ledger (k a)) -> keeps_ledger (bind c k).
Proof.
  intros Hc Hk st. unfold bind. specialize (Hc st).
  destruct (c st) as [[a|m|h] st1]; cbn [snd] in *.
  - rewrite Hk. exact Hc.
  - exact Hc.
  - exact Hc.
Qed.

Lemma keeps_ledger_try_catch {A : Type} (c : @M W A)
    (handler : JSString -> @M W A) :
  keeps_ledger c -> (forall m, keeps_ledger (handler m)) ->
  keeps_ledger (try_catch c handler).
Proof.
  intros Hc Hh st. unfold try_catch. specialize (Hc st).
  destruct (c st) as [[a|m|h] st1]; cbn [snd] in *.
  - exact Hc.
  - rewrite Hh. exact Hc.
  - exact Hc.
Qed.

Lemma keeps_ledger_delay (ms : N) : keeps_ledger (delay rt ms).
Proof. intros st. reflexivity. Qed.

Lemma keeps_ledger_now : keeps_ledger (now rt).
Proof. intros st. reflexivity. Qed.

Lemma keeps_ledger_checkFileExists (s3Key : JSString) :
  keeps_ledger (checkFileExists rt s3Key).
Proof. intros st. rewrite checkFileExists_run. reflexivity. Qed.

Lemma keeps_ledger_streamToS3WithRetry (sourceUrl s3Key : JSString)
    (videoTitle : JSValue) (n : nat) :
  forall retries, (MAX_RETRIES - retries <= n)%nat ->
    keeps_ledger (streamToS3WithRetry rt sourceUrl s3Key videoTitle retries).
Proof.
  induction n as [|n IH]; intros retries Hn st;
    rewrite streamToS3WithRetry_equation_1;
    apply keeps_ledger_try_catch.
  - apply keeps_ledger_bind; [apply keeps_ledger_perform|].
    intros; apply keeps_ledger_ret.
  - intros m. destruct (lt_dec retries MAX_RETRIES) as [Hlt|Hge].
    + exfalso. lia.
    + apply keeps_ledger_ret.
  - apply keeps_ledger_bind; [apply keeps_ledger_perform|].
    intros; apply keeps_ledger_ret.
  - intros m. destruct (lt_dec retries MAX_RETRIES) as [Hlt|Hge].
    + apply keeps_ledger_bind; [apply keeps_ledger_delay|].
      intros _ st'. apply IH. lia.
    + apply keeps_ledger_ret.
Qed.

Lemma keeps_ledger_transferVideo (video : Video) :
  keeps_ledger (transferVideo rt video).
Proof.
  unfold transferVideo. apply keeps_ledger_try_catch.
  - apply keeps_ledger_bind; [apply keeps_ledger_perform|].
    intros details. destruct (truthy (assets_mp4 details)).
    + apply keeps_ledger_bind; [apply keeps_ledger_checkFileExists|].
      intros [|]; [apply keeps_ledger_ret|].
      apply keeps_ledger_bind.
      * apply keeps_ledger_streamToS3WithRetry with (n := MAX_RETRIES). lia.
      * intros result. destruct (success result);
          [apply keeps_ledger_ret|].
        apply keeps_ledger_bind; [apply keeps_ledger_now|].
        intros; apply keeps_ledger_ret.
    + apply keeps_ledger_ret.
  - intros m. apply keeps_ledger_bind; [apply keeps_ledger_now|].
    intros; apply keeps_ledger_ret.
Qed.

Lemma keeps_ledger_transferVideos_from (videos : list Video) :
  forall failedVideos,
    keeps_ledger (transferVideos_from rt failedVideos videos).
Proof.
  induction videos as [|v videos IH]; intros failedVideos.
  - apply keeps_ledger_ret.
  - cbn [transferVideos_from]. apply keeps_ledger_bind.
    + apply keeps_ledger_transferVideo.
    + intros pushed. apply IH.
Qed.

Lemma keeps_ledger_fetchAllVideos_from (fuel : nat) :
  forall allVideos page,
    keeps_ledger (fetchAllVideos_from rt fuel allVideos page).
Proof.
  induction fuel as [|fuel IH]; intros allVideos page.
  - apply keeps_ledger_halt.
  - cbn [fetchAllVideos_from]. apply keeps_ledger_bind.
    + apply keeps_ledger_perform.
    + intros [[|v vs]|]; try apply keeps_ledger_ret.
      destruct (N.of_nat (List.length (v :: vs)) =? 100).
      * apply IH.
      * apply keeps_ledger_ret.
Qed.

Lemma keeps_ledger_listObjects (fuel : nat) (prefix : JSString) :
  forall objects marker,
    keeps_ledger (listObjects rt fuel prefix objects marker).
Proof.
  induction fuel as [|fuel IH]; intros objects marker.
  - apply keeps_ledger_halt.
  - cbn [listObjects]. apply keeps_ledger_bind.
    + apply keeps_ledger_perform.
    + intros data. destruct (IsTruncated data); [|apply keeps_ledger_ret].
      destruct (last (List.map Some (Contents data)) None).
      * apply IH.
      * apply keeps_ledger_halt.
Qed.

(** Loading the ledger changes nothing and always gives a value. *)
Lemma loadFailedVideos_pure (st : State W) :
  exists v, loadFailedVideos st = (Resolved v, st).
Proof.
  unfold loadFailedVideos, fs_existsSync, try_catch, bind, fs_readFileSync.
  destruct (ledgerFile st) as [|m|data].
  - eexists. reflexivity.
  - eexists. reflexivity.
  - destruct (JSON_parse data); eexists; reflexivity.
Qed.

Lemma keeps_ledger_Retry_transferVideo (video : RetryItem) :
  keeps_ledger (Retry.transferVideo rt video).
Proof.
  unfold Retry.transferVideo.
  destruct (ToString (NumberToString rt) (Retry.title_or_videoId video));
    [|apply keeps_ledger_throw].
  apply keeps_ledger_try_catch.
  - destruct (ToString (NumberToString rt) (item_videoId video)) as [id|];
      [|apply keeps_ledger_throw].
    apply keeps_ledger_bind; [apply keeps_ledger_perform|].
    intros details. destruct (truthy (assets_mp4 details));
      [|apply keeps_ledger_ret].
    destruct (Retry.sanitizeFilename (Retry.title_or_videoId video));
      [|apply keeps_ledger_throw].
    apply keeps_ledger_bind; [apply keeps_ledger_checkFileExists|].
    intros [|]; [apply keeps_ledger_ret|].
    apply keeps_ledger_bind.
    + apply keeps_ledger_streamToS3WithRetry with (n := MAX_RETRIES). lia.
    + intros result. destruct (success result); [apply keeps_ledger_ret|].
      apply keeps_ledger_bind; [apply keeps_ledger_now|].
      intros; apply keeps_ledger_ret.
  - intros m.
    destruct (ToString (NumberToString rt) (item_videoId video));
      [|apply keeps_ledger_throw].
    apply keeps_ledger_bind; [apply keeps_ledger_now|].
    intros; apply keeps_ledger_ret.
Qed.

Lemma keeps_ledger_Retry_transferVideos_from (videos : list RetryItem) :
  forall failedVideos,
    keeps_ledger (Retry.transferVideos_from rt failedVideos videos).
Proof.
  induction videos as [|v videos IH]; intros failedVideos.
  - apply keeps_ledger_ret.
  - cbn [Retry.transferVideos_from]. apply keeps_ledger_bind.
    + apply keeps_ledger_Retry_transferVideo.
    + intros pushed. apply IH.
Qed.

(** The removal of the ledger at the end of a run: nothing is done when
    there is no file, and the file system may refuse. *)
Lemma clearFailedLog_run (st : State W) :
  clearFailedLog rt st
  = match ledgerFile st with
    | NoFile => (Resolved tt, st)
    | file =>
        match unlinkSync_throws rt file (world st) with
        | Some message =>
            (Rejected message,
             mkState (world st) file (trace st ++ [EvUnlink]))
        | None =>
            (Resolved tt, mkState (world st) NoFile (trace st ++ [EvUnlink]))
        end
    end.
Proof.
  unfold clearFailedLog, fs_existsSync, fs_unlinkSync, ret.
  destruct (ledgerFile st); reflexivity.
Qed.

End LedgerFrame.

(* ===================================================================== *)
(** ** The shape of sanitized titles *)
(* ===================================================================== *)

Lemma key_char_spec (c : char16) :
  key_char c = true <-> allowed_char c = true /\ is_space c = false.
Proof.
  unfold key_char, allowed_char.
  destruct (is_space c) eqn:Hs.
  - split.
    + intros H. exfalso. unfold is_space, in_range in Hs.
      unfold in_range in H.
      rewrite ?orb_true_iff, ?andb_true_iff, ?N.leb_le, ?N.eqb_eq in *. lia.
    + intros [_ H]. discriminate H.
  - rewrite !orb_false_r. split.
    + intros H. split; [|reflexivity].
      rewrite ?orb_true_iff in *. tauto.
    + intros [H _]. rewrite ?orb_true_iff in *. tauto.
Qed.

Lemma stripped_allowed (t : JSString) :
  Forall (fun c => allowed_char c = true)
    (replace_each (fun c => negb (allowed_char c)) (js "") t).
Proof.
  unfold replace_each. induction t as [|c t IH]; [constructor|].
  cbn [flat_map]. destruct (allowed_char c) eqn:E; cbn [negb app].
  - constructor; assumption.
  - exact IH.
Qed.

Lemma spaced_weaken (s : JSString) :
  spaced true s = true -> spaced false s = true.
Proof.
  destruct s as [|c r]; [reflexivity|]. cbn [spaced].
  destruct (c =? 32); [discriminate|auto].
Qed.

Lemma collapsed_spaced (s : JSString) :
  Forall (fun c => allowed_char c = true) s ->
  forall in_run,
    spaced in_run (replace_runs_from is_space (js " ") in_run s) = true.
Proof.
  induction 1 as [|c r Hc _ IH]; intros in_run; [reflexivity|].
  cbn [replace_runs_from]. destruct (is_space c) eqn:Hs.
  - destruct in_run; cbn [app].
    + apply IH.
    + change (js " " ++ replace_runs_from is_space (js " ") true r)
        with (32 :: replace_runs_from is_space (js " ") true r).
      cbn [spaced]. change (32 =? 32) with true. cbn [negb andb]. apply IH.
  - cbn [spaced]. destruct (N.eqb_spec c 32) as [->|_]; [discriminate Hs|].
    rewrite (proj2 (key_char_spec c) (conj Hc Hs)). cbn [andb]. apply IH.
Qed.

Lemma spaced_space (b : bool) (c : char16) (r : JSString) :
  spaced b (c :: r) = true -> is_space c = true -> c = 32.
Proof.
  cbn [spaced]. destruct (N.eqb_spec c 32) as [->|_]; [reflexivity|].
  intros H Hs. apply andb_prop in H. destruct H as [Hk _].
  apply key_char_spec in Hk. destruct Hk as [_ Hk]. congruence.
Qed.

Lemma trimStart_spaced (s : JSString) :
  forall b, spaced b s = true -> spaced true (trimStart s) = true.
Proof.
  induction s as [|c r IH]; intros b H; [reflexivity|].
  cbn [trimStart]. destruct (is_space c) eqn:Hs.
  - pose proof (spaced_space _ _ _ H Hs) as ->.
    cbn [spaced] in H. change (32 =? 32) with true in H.
    apply andb_prop in H. destruct H as [_ H]. apply (IH true H).
  - revert H. cbn [spaced]. destruct (N.eqb_spec c 32) as [->|_];
      [discriminate Hs|]. auto.
Qed.

Lemma trimStart_snoc (a : JSString) (c : char16) :
  trimStart (a ++ [c])
  = match trimStart a with
    | [] => if is_space c then [] else [c]
    | a' => a' ++ [c]
    end.
Proof.
  induction a as [|x a IH]; [reflexivity|].
  cbn [app trimStart]. destruct (is_space x); [exact IH|reflexivity].
Qed.

Lemma trimEnd_cons (c : char16) (r : JSString) :
  trimEnd (c :: r)
  = match trimEnd r with
    | [] => if is_space c then [] else [c]
    | r' => c :: r'
    end.
Proof.
  unfold trimEnd. cbn [rev]. rewrite trimStart_snoc.
  destruct (trimStart (rev r)) as [|x a] eqn:E.
  - destruct (is_space c); reflexivity.
  - rewrite rev_app_distr. cbn [rev app].
    destruct (rev a ++ [x]) eqn:E'; [|reflexivity].
    destruct (rev a); discriminate E'.
Qed.

Lemma trimEnd_normal (s : JSString) :
  forall b, spaced b s = true ->
            trimEnd s = [] \/ normal_from b (trimEnd s) = true.
Proof.
  induction s as [|c r IH]; intros b H; [left; reflexivity|].
  rewrite trimEnd_cons. revert H. cbn [spaced].
  destruct (N.eqb_spec c 32) as [->|Hc]; intros H;
    apply andb_prop in H; destruct H as [H1 H2].
  - destruct (IH true H2) as [E|E].
    + rewrite E. left. reflexivity.
    + destruct (trimEnd r) as [|x r'] eqn:Er; [discriminate E|].
      right. cbn [normal_from]. change (32 =? 32) with true.
      rewrite H1. exact E.
  - assert (Hs : is_space c = false).
    { apply key_char_spec in H1. tauto. }
    right. destruct (IH false H2) as [E|E].
    + rewrite E, Hs. cbn [normal_from].
      destruct (N.eqb_spec c 32); [contradiction|]. rewrite H1. reflexivity.
    + destruct (trimEnd r) as [|x r'] eqn:Er.
      * rewrite Hs. cbn [normal_from].
        destruct (N.eqb_spec c 32); [contradiction|]. rewrite H1. reflexivity.
      * cbn [normal_from]. destruct (N.eqb_spec c 32); [contradiction|].
        rewrite H1. exact E.
Qed.

Lemma sanitized_normal (t : JSString) :
  sanitized t = [] \/ normal_title (sanitized t) = true.
Proof.
  unfold sanitized, trim, replace_runs, normal_title.
  apply trimEnd_normal with (b := true).
  apply trimStart_spaced with (b := false).
  apply collapsed_spaced, stripped_allowed.
Qed.

(** X1.  Whatever the title, what [sanitizeFilename] returns is either the
    identifier (the fall-back for a title with nothing left) or a non-empty
    string of letters, digits, dashes and dots with single U+0020 spaces
    between them and none at either end. *)
Theorem sanitizeFilename_shape (video : Video) (title : JSString) :
  TransferPath.sanitizeFilename video title = videoId video
  \/ normal_title (TransferPath.sanitizeFilename video title) = true.
Proof.
  change (TransferPath.sanitizeFilename video title)
    with (str_or (sanitized title) (videoId video)).
  destruct (sanitized_normal title) as [E|E].
  - left. rewrite E. reflexivity.
  - right. destruct (sanitized title) as [|c r]; [discriminate E|exact E].
Qed.

Lemma normal_spaced (s : JSString) :
  forall b, normal_from b s = true -> spaced b s = true.
Proof.
  induction s as [|c r IH]; intros b H; [reflexivity|].
  revert H. cbn [normal_from spaced].
  destruct (c =? 32); intros H; apply andb_prop in H; destruct H as [H1 H2];
    rewrite H1; cbn [andb]; apply IH, H2.
Qed.

Lemma spaced_head_allowed (b : bool) (c : char16) (r : JSString) :
  spaced b (c :: r) = true -> allowed_char c = true.
Proof.
  cbn [spaced]. destruct (N.eqb_spec c 32) as [->|_]; [reflexivity|].
  intros H. apply andb_prop in H. destruct H as [H _].
  apply key_char_spec in H. tauto.
Qed.

Lemma spaced_tail (b : bool) (c : char16) (r : JSString) :
  spaced b (c :: r) = true -> spaced (c =? 32) r = true.
Proof.
  cbn [spaced]. destruct (c =? 32); intros H; apply andb_prop in H; tauto.
Qed.

Lemma strip_spaced (s : JSString) :
  forall b, spaced b s = true ->
            replace_each (fun c => negb (allowed_char c)) (js "") s = s.
Proof.
  unfold replace_each. induction s as [|c r IH]; intros b H; [reflexivity|].
  cbn [flat_map]. rewrite (spaced_head_allowed _ _ _ H). cbn [negb app].
  f_equal. apply (IH _ (spaced_tail _ _ _ H)).
Qed.

Lemma collapse_spaced_id (s : JSString) :
  forall b, spaced b s = true ->
            replace_runs_from is_space (js " ") b s = s.
Proof.
  induction s as [|c r IH]; intros b H; [reflexivity|].
  cbn [replace_runs_from]. pose proof (spaced_tail _ _ _ H) as Ht.
  revert H Ht. cbn [spaced]. destruct (N.eqb_spec c 32) as [->|Hc]; intros H Ht.
  - change (is_space 32) with true. cbv iota.
    apply andb_prop in H. destruct H as [Hb _].
    destruct b; [discriminate Hb|]. cbn [app js]. 
    change (js " " ++ replace_runs_from is_space (js " ") true r)
      with (32 :: replace_runs_from is_space (js " ") true r).
    f_equal. apply IH, Ht.
  - apply andb_prop in H. destruct H as [Hk _].
    apply key_char_spec in Hk. destruct Hk as [_ Hs]. rewrite Hs.
    f_equal. apply IH, Ht.
Qed.

Lemma trimEnd_normal_id (s : JSString) :
  forall b, normal_from b s = true -> trimEnd s = s.
Proof.
  induction s as [|c r IH]; intros b H; [reflexivity|].
  rewrite trimEnd_cons. revert H. cbn [normal_from].
  destruct (N.eqb_spec c 32) as [->|Hc]; intros H;
    apply andb_prop in H; destruct H as [H1 H2].
  - rewrite (IH _ H2). destruct r; [discriminate H2|reflexivity].
  - rewrite (IH _ H2). destruct r; [|reflexivity].
    apply key_char_spec in H1. destruct H1 as [_ ->]. reflexivity.
Qed.

Lemma sanitized_fixed (s : JSString) :
  normal_title s = true -> sanitized s = s.
Proof.
  intros H. unfold normal_title in H.
  pose proof (normal_spaced _ _ H) as Hsp.
  unfold sanitized, trim, replace_runs.
  rewrite (strip_spaced _ _ Hsp).
  rewrite (collapse_spaced_id _ _ (spaced_weaken _ Hsp)).
  assert (Hstart : trimStart s = s).
  { destruct s as [|c r]; [reflexivity|]. cbn [trimStart].
    revert H. cbn [normal_from]. destruct (N.eqb_spec c 32); [discriminate|].
    intros H. apply andb_prop in H. destruct H as [Hk _].
    apply key_char_spec in Hk. destruct Hk as [_ ->]. reflexivity. }
  rewrite Hstart. apply (trimEnd_normal_id _ _ H).
Qed.

(** X2.  A title that is already a non-empty string of letters, digits,
    dashes and dots separated by single spaces is kept as it is:
    sanitizing such a title returns the title itself, whatever the
    record. *)
Theorem sanitizeFilename_keeps_normal (video : Video) (s : JSString) :
  normal_title s = true ->
  TransferPath.sanitizeFilename video s = s.
Proof.
  intros H.
  change (TransferPath.sanitizeFilename video s)
    with (str_or (sanitized s) (videoId video)).
  rewrite (sanitized_fixed _ H).
  destruct s; [discriminate H|reflexivity].
Qed.

Lemma sanitizeFilename_keeps_normal_witness :
  normal_title (js "Episode 1 - part-2.mp4") = true
  /\ TransferPath.sanitizeFilename video_a (js "Episode 1 - part-2.mp4")
     = js "Episode 1 - part-2.mp4".
Proof.
  split; [reflexivity|].
  apply (@sanitizeFilename_keeps_normal video_a (js "Episode 1 - part-2.mp4")).
  reflexivity.
Defined.

(* ===================================================================== *)
(** ** Keys of the three variants *)
(* ===================================================================== *)

Lemma jsstr_eqb_true (a : JSString) :
  forall b, jsstr_eqb a b = true -> a = b.
Proof.
  induction a as [|x a IH]; intros [|y b] E; try discriminate E.
  - reflexivity.
  - cbn [jsstr_eqb] in E. apply andb_prop in E. destruct E as [E1 E2].
    apply N.eqb_eq in E1. subst y. f_equal. apply IH, E2.
Qed.

Lemma jsstr_eqb_refl (a : JSString) : jsstr_eqb a a = true.
Proof.
  induction a as [|x a IH]; [reflexivity|].
  cbn [jsstr_eqb]. rewrite N.eqb_refl. exact IH.
Qed.

(** X3.  A backup made by the first streaming variant is stored under the
    key the verifier expects, but one made by the temporary-file variant
    never is: for every record the key [api-video-backup/<id>.mp4] differs
    from the expected key, so the verifier reports the record missing even
    when that file is in the store. *)
Theorem variant_keys_and_verifier :
  (forall video, CurlVariant.s3Key video = VerifyPath.expectedKey video)
  /\ (forall video, SdkVariant.s3Key video <> VerifyPath.expectedKey video)
  /\ (forall video,
         check_video [SdkVariant.s3Key video] video = [missing_of video]).
Proof.
  assert (Hne : forall video,
             SdkVariant.s3Key video <> VerifyPath.expectedKey video).
  { intros video E.
    apply (f_equal (count_occ N.eq_dec)) in E.
    apply (f_equal (fun f => f 32)) in E.
    unfold SdkVariant.s3Key, VerifyPath.expectedKey, key_prefix,
      key_separator in E.
    rewrite !count_occ_app in E.
    change (count_occ N.eq_dec (js "api-video-backup/") 32) with 0%nat in E.
    change (count_occ N.eq_dec (js ".mp4") 32) with 0%nat in E.
    change (count_occ N.eq_dec (js " - ") 32) with 2%nat in E.
    lia. }
  split; [reflexivity|]. split; [exact Hne|].
  intros video. unfold check_video, has. cbn [existsb].
  destruct (jsstr_eqb (VerifyPath.expectedKey video) (SdkVariant.s3Key video))
    eqn:E; [|reflexivity].
  exfalso. apply (Hne video). symmetry. apply jsstr_eqb_true, E.
Qed.

(** X4.  The temporary-file variant stores two records under the same key
    exactly when they have the same identifier (titles play no part, and
    no identifier can collide with another). *)
Theorem sdk_key_injective (v1 v2 : Video) :
  SdkVariant.s3Key v1 = SdkVariant.s3Key v2 <-> videoId v1 = videoId v2.
Proof.
  unfold SdkVariant.s3Key. split.
  - intros E. apply app_inv_head in E. apply app_inv_tail in E. exact E.
  - intros E. rewrite E. reflexivity.
Qed.

(* ===================================================================== *)
(** ** The retry, whatever the stream does *)
(* ===================================================================== *)

Section RetryBound.

Context {W : Type} (rt : Runtime W).

Lemma attempts_more (e : Event) (n : nat) :
  (1 <= n)%nat ->
  e :: EvDelay RETRY_DELAY :: attempts e n = attempts e (S n).
Proof.
  destruct n as [|n]; [lia|]. reflexivity.
Qed.

(** The trace and the result of the retry from [retries] on. *)
Ltac retries_lia := unfold MAX_RETRIES in *; lia.

Lemma streamToS3WithRetry_attempts (sourceUrl s3Key : JSString)
    (videoTitle : JSValue) (k : nat) :
  forall retries (st : State W),
    (MAX_RETRIES - retries <= k)%nat ->
    exists n,
      (1 <= n <= MAX_RETRIES - retries + 1)%nat
      /\ trace (snd (streamToS3WithRetry rt sourceUrl s3Key videoTitle
                       retries st))
         = trace st ++ attempts (EvStreamToS3 sourceUrl s3Key videoTitle) n
      /\ match fst (streamToS3WithRetry rt sourceUrl s3Key videoTitle
                      retries st) with
         | Resolved result =>
             (success result = true /\ error result = js_undefined)
             \/ (success result = false
                 /\ (exists message, error result = js_string message)
                 /\ n = (MAX_RETRIES - retries + 1)%nat)
         | Rejected _ => False
         | Halted _ => True
         end.
Proof.
  induction k as [|k IH]; intros retries st Hk;
    rewrite streamToS3WithRetry_equation_1;
    unfold try_catch, bind, perform;
    destruct (streamToS3 rt sourceUrl s3Key videoTitle (world st))
      as [[u|message|h] w1].
  - exists 1%nat. cbn [fst snd trace attempts app success error]. split; [retries_lia|]. split; [reflexivity|]. left. auto.
  - destruct (lt_dec retries MAX_RETRIES) as [Hlt|Hge]; [retries_lia|].
    exists 1%nat. cbn [fst snd trace attempts app success error]. split; [retries_lia|]. split; [reflexivity|]. right.
    split; [reflexivity|]. split; [eexists; reflexivity|]. retries_lia.
  - exists 1%nat. cbn [fst snd trace attempts app success error]. split; [retries_lia|]. split; [reflexivity|]. exact I.
  - exists 1%nat. cbn [fst snd trace attempts app success error]. split; [retries_lia|]. split; [reflexivity|]. left. auto.
  - destruct (lt_dec retries MAX_RETRIES) as [Hlt|Hge].
    + unfold bind, delay. cbn [world ledgerFile trace].
      set (st1 := mkState (setTimeout rt RETRY_DELAY w1) (ledgerFile st)
                    ((trace st ++ [EvStreamToS3 sourceUrl s3Key videoTitle])
                     ++ [EvDelay RETRY_DELAY])).
      destruct (IH (S retries) st1) as [n [Hn [Htrace Hres]]]; [retries_lia|].
      exists (S n). split; [retries_lia|]. split.
      * rewrite Htrace. subst st1. cbn [trace].
        rewrite <- !app_assoc. cbn [app].
        rewrite attempts_more by retries_lia. reflexivity.
      * destruct (fst (streamToS3WithRetry rt sourceUrl s3Key videoTitle
                         (S retries) st1)) as [result|m|h]; try exact Hres.
        destruct Hres as [Hres|[Hs [He Hn']]]; [left; exact Hres|].
        right. split; [exact Hs|]. split; [exact He|]. retries_lia.
    + exists 1%nat. cbn [fst snd trace attempts app success error]. split; [retries_lia|]. split; [reflexivity|]. right.
      split; [reflexivity|]. split; [eexists; reflexivity|]. retries_lia.
  - exists 1%nat. cbn [fst snd trace attempts app success error]. split; [retries_lia|]. split; [reflexivity|]. exact I.
Qed.

(** The tries of the retry, one by one: some rejected tries, each followed
    by its wait, and a last try that decides. *)
Lemma streamToS3WithRetry_tries (sourceUrl s3Key : JSString)
    (videoTitle : JSValue) (k : nat) :
  forall retries (st : State W),
    (MAX_RETRIES - retries <= k)%nat ->
    exists n w,
      (n <= MAX_RETRIES - retries)%nat
      /\ failed_tries rt sourceUrl s3Key videoTitle n (world st) w
      /\ streamToS3WithRetry rt sourceUrl s3Key videoTitle retries st
         = (match fst (streamToS3 rt sourceUrl s3Key videoTitle w) with
            | Resolved _ => Resolved (mkRetryResult true js_undefined)
            | Rejected message =>
                Resolved (mkRetryResult false (js_string message))
            | Halted h => Halted h
            end,
            mkState (snd (streamToS3 rt sourceUrl s3Key videoTitle w))
              (ledgerFile st)
              (trace st
               ++ attempts (EvStreamToS3 sourceUrl s3Key videoTitle) (S n)))
      /\ match fst (streamToS3 rt sourceUrl s3Key videoTitle w) with
         | Rejected _ => n = (MAX_RETRIES - retries)%nat
         | _ => True
         end.
Proof.
  induction k as [|k IH]; intros retries st Hk;
    rewrite streamToS3WithRetry_equation_1;
    unfold try_catch, bind, perform;
    destruct (streamToS3 rt sourceUrl s3Key videoTitle (world st))
      as [[u|message|h] w1] eqn:E.
  - exists 0%nat, (world st). rewrite E. cbn [fst snd failed_tries attempts].
    split; [lia|]. split; [reflexivity|]. split; [reflexivity|exact I].
  - destruct (lt_dec retries MAX_RETRIES) as [Hlt|Hge]; [retries_lia|].
    exists 0%nat, (world st). rewrite E. cbn [fst snd failed_tries attempts].
    split; [lia|]. split; [reflexivity|]. split; [reflexivity|retries_lia].
  - exists 0%nat, (world st). rewrite E. cbn [fst snd failed_tries attempts].
    split; [lia|]. split; [reflexivity|]. split; [reflexivity|exact I].
  - exists 0%nat, (world st). rewrite E. cbn [fst snd failed_tries attempts].
    split; [lia|]. split; [reflexivity|]. split; [reflexivity|exact I].
  - destruct (lt_dec retries MAX_RETRIES) as [Hlt|Hge].
    + unfold bind, delay. cbn [world ledgerFile trace].
      set (st1 := mkState (setTimeout rt RETRY_DELAY w1) (ledgerFile st)
                    ((trace st ++ [EvStreamToS3 sourceUrl s3Key videoTitle])
                     ++ [EvDelay RETRY_DELAY])).
      destruct (IH (S retries) st1) as [n [w [Hn [Htries [Hrun Hlast]]]]];
        [retries_lia|].
      exists (S n), w. split; [retries_lia|]. split.
      * cbn [failed_tries]. exists message, w1. split; [exact E|exact Htries].
      * split.
        -- rewrite Hrun. subst st1. cbn [ledgerFile trace].
           rewrite <- !app_assoc. cbn [app].
           rewrite (@attempts_more _ (S n)) by lia. reflexivity.
        -- destruct (fst (streamToS3 rt sourceUrl s3Key videoTitle w));
             try exact I. retries_lia.
    + exists 0%nat, (world st). rewrite E.
      cbn [fst snd failed_tries attempts].
      split; [lia|]. split; [reflexivity|]. split; [reflexivity|retries_lia].
  - exists 0%nat, (world st). rewrite E. cbn [fst snd failed_tries attempts].
    split; [lia|]. split; [reflexivity|]. split; [reflexivity|exact I].
Qed.

(** X5.  Whatever the stream does, a transfer with retry is a number of
    rejected tries, each followed by a wait of [RETRY_DELAY], and one
    last try that decides: when the last try resolves the result is a
    success without an error; when it is rejected the allowed retries
    are used up ([MAX_RETRIES - retries] rejected tries came before) and
    the result is a failure with the message of that last rejection.
    There are at most [MAX_RETRIES - retries + 1] tries, nothing else is
    done, the ledger is not touched, and the retry itself never
    rejects. *)
Theorem retry_is_bounded (sourceUrl s3Key : JSString) (videoTitle : JSValue)
    (retries : nat) (st : State W) :
  exists n w,
    (n <= MAX_RETRIES - retries)%nat
    /\ failed_tries rt sourceUrl s3Key videoTitle n (world st) w
    /\ streamToS3WithRetry rt sourceUrl s3Key videoTitle retries st
       = (match fst (streamToS3 rt sourceUrl s3Key videoTitle w) with
          | Resolved _ => Resolved (mkRetryResult true js_undefined)
          | Rejected message =>
              Resolved (mkRetryResult false (js_string message))
          | Halted h => Halted h
          end,
          mkState (snd (streamToS3 rt sourceUrl s3Key videoTitle w))
            (ledgerFile st)
            (trace st
             ++ attempts (EvStreamToS3 sourceUrl s3Key videoTitle) (S n)))
    /\ match fst (streamToS3 rt sourceUrl s3Key videoTitle w) with
       | Rejected _ => n = (MAX_RETRIES - retries)%nat
       | _ => True
       end.
Proof.
  apply streamToS3WithRetry_tries with (k := (MAX_RETRIES - retries)%nat).
  lia.
Qed.

End RetryBound.

(* ===================================================================== *)
(** ** What a computation adds to the trace *)
(* ===================================================================== *)

Section Emits.

Context {W : Type} (rt : Runtime W).

Lemma emits_ret {A : Type} (P : Event -> bool) (a : A) :
  emits P (ret (W := W) a).
Proof. intros st. exists []. rewrite app_nil_r. split; reflexivity. Qed.

Lemma emits_throw {A : Type} (P : Event -> bool) (m : JSString) :
  emits P (throw (W := W) (A := A) m).
Proof. intros st. exists []. rewrite app_nil_r. split; reflexivity. Qed.

Lemma emits_halt {A : Type} (P : Event -> bool) (h : Halt) :
  emits P (halt (W := W) (A := A) h).
Proof. intros st. exists []. rewrite app_nil_r. split; reflexivity. Qed.

Lemma emits_perform {A : Type} (P : Event -> bool) (e : Event)
    (service : W -> Res A * W) :
  P e = true -> emits P (perform e service).
Proof.
  intros He st. exists [e]. unfold perform.
  destruct (service (world st)). cbn [snd trace forallb]. rewrite He.
  split; reflexivity.
Qed.

Lemma emits_bind {A B : Type} (P : Event -> bool) (c : @M W A)
    (k : A -> @M W B) :
  emits P c -> (forall a, emits P (k a)) -> emits P (bind c k).
Proof.
  intros Hc Hk st. unfold bind. destruct (Hc st) as [new [E Hnew]].
  destruct (c st) as [[a|m|h] st1]; cbn [snd] in *.
  - destruct (Hk a st1) as [new' [E' Hnew']].
    exists (new ++ new'). rewrite E', E, app_assoc, forallb_app, Hnew, Hnew'.
    split; reflexivity.
  - exists new. auto.
  - exists new. auto.
Qed.

Lemma emits_try_catch {A : Type} (P : Event -> bool) (c : @M W A)
    (handler : JSString -> @M W A) :
  emits P c -> (forall m, emits P (handler m)) -> emits P (try_catch c handler).
Proof.
  intros Hc Hh st. unfold try_catch. destruct (Hc st) as [new [E Hnew]].
  destruct (c st) as [[a|m|h] st1]; cbn [snd] in *.
  - exists new. auto.
  - destruct (Hh m st1) as [new' [E' Hnew']].
    exists (new ++ new'). rewrite E', E, app_assoc, forallb_app, Hnew, Hnew'.
    split; reflexivity.
  - exists new. auto.
Qed.

Lemma emits_weaken {A : Type} (P Q : Event -> bool)
    (c : State W -> Res A * State W) :
  (forall e, P e = true -> Q e = true) -> emits P c -> emits Q c.
Proof.
  intros HPQ Hc st. destruct (Hc st) as [new [E Hnew]].
  exists new. split; [exact E|].
  rewrite forallb_forall in *. auto.
Qed.

Lemma emits_now (P : Event -> bool) : emits P (now rt).
Proof. intros st. exists []. rewrite app_nil_r. split; reflexivity. Qed.

Lemma emits_delay (P : Event -> bool) (ms : N) :
  P (EvDelay ms) = true -> emits P (delay rt ms).
Proof.
  intros He st. exists [EvDelay ms]. cbn [delay snd trace forallb].
  rewrite He. split; reflexivity.
Qed.

Lemma attempts_store_steps (e : Event) (n : nat) :
  is_store_step e = true -> forallb is_store_step (attempts e n) = true.
Proof.
  intros He. induction n as [|[|n] IH]; [reflexivity| |].
  - cbn. rewrite He. reflexivity.
  - change (attempts e (S (S n)))
      with (e :: EvDelay RETRY_DELAY :: attempts e (S n)).
    cbn [forallb]. rewrite He, IH. reflexivity.
Qed.

Lemma emits_streamToS3WithRetry (sourceUrl s3Key : JSString)
    (videoTitle : JSValue) (retries : nat) :
  emits is_store_step
    (streamToS3WithRetry rt sourceUrl s3Key videoTitle retries).
Proof.
  intros st.
  destruct (streamToS3WithRetry_attempts rt sourceUrl s3Key videoTitle
              (k := (MAX_RETRIES - retries)%nat) retries st (le_n _))
    as [n [_ [E _]]].
  eexists. split; [exact E|]. apply attempts_store_steps. reflexivity.
Qed.

Lemma emits_checkFileExists (s3Key : JSString) :
  emits is_store_step (checkFileExists rt s3Key).
Proof.
  intros st. rewrite checkFileExists_run. exists [EvHeadObject s3Key].
  split; reflexivity.
Qed.

(** After the detail fetch, the transfer of a record only checks, streams
    and waits. *)
Lemma transferVideo_trace (video : Video) (st : State W) :
  exists tail,
    trace (snd (transferVideo rt video st))
    = trace st ++ EvFetchVideoDetails (videoId video) :: tail
    /\ forallb is_store_step tail = true.
Proof.
  unfold transferVideo.
  set (K := fun videoDetails : VideoDetails =>
              match truthy (assets_mp4 videoDetails) with
              | Some sourceUrl => _
              | None => _
              end).
  set (handler := fun message : JSString => _).
  assert (HK : forall d, emits is_store_step (K d)).
  { intros d. subst K. cbv beta. destruct (truthy (assets_mp4 d)).
    - apply emits_bind; [apply emits_checkFileExists|].
      intros [|]; [apply emits_ret|].
      apply emits_bind; [apply emits_streamToS3WithRetry|].
      intros result. destruct (success result); [apply emits_ret|].
      apply emits_bind; [apply emits_now|]. intros; apply emits_ret.
    - apply emits_ret. }
  assert (Hh : forall m, emits is_store_step (handler m)).
  { intros m. subst handler. cbv beta.
    apply emits_bind; [apply emits_now|]. intros; apply emits_ret. }
  unfold try_catch, bind at 1, perform at 1.
  destruct (fetchVideoDetails rt (videoId video) (world st))
    as [[d|m|h] w1].
  - set (st1 := mkState w1 (ledgerFile st)
                  (trace st ++ [EvFetchVideoDetails (videoId video)])).
    destruct (HK d st1) as [tail [E Htail]].
    destruct (K d st1) as [[a|m|h] st2] eqn:EK; cbn [snd] in *.
    + exists tail. rewrite E. subst st1. cbn [trace].
      rewrite <- app_assoc. auto.
    + destruct (Hh m st2) as [tail' [E' Htail']].
      exists (tail ++ tail'). rewrite E', E. subst st1. cbn [trace].
      rewrite <- !app_assoc, forallb_app, Htail, Htail'. auto.
    + exists tail. rewrite E. subst st1. cbn [trace].
      rewrite <- app_assoc. auto.
  - set (st1 := mkState w1 (ledgerFile st)
                  (trace st ++ [EvFetchVideoDetails (videoId video)])).
    destruct (Hh m st1) as [tail [E Htail]].
    exists tail. rewrite E. subst st1. cbn [trace].
    rewrite <- app_assoc. auto.
  - exists []. cbn [snd trace]. auto.
Qed.

(** The loop body never rejects: its [catch] takes every rejection. *)
Lemma transferVideo_never_rejects (video : Video) (st : State W)
    (m : JSString) :
  fst (transferVideo rt video st) <> Rejected m.
Proof.
  unfold transferVideo, try_catch.
  match goal with
  | |- context [match ?c st with _ => _ end] => destruct (c st) as [[a|m'|h] st1]
  end; cbn [fst]; discriminate.
Qed.

End Emits.

(* ===================================================================== *)
(** ** The transfer loop *)
(* ===================================================================== *)

Section LoopFacts.

Context {W : Type} (rt : Runtime W).

Lemma store_steps_no_details (l : list Event) :
  forallb is_store_step l = true -> filter is_details l = [].
Proof.
  induction l as [|e l IH]; [reflexivity|]. cbn [forallb filter].
  intros H. apply andb_prop in H. destruct H as [He Hl].
  destruct e; try discriminate He; cbn [is_details]; apply IH, Hl.
Qed.

Lemma store_steps_transfer_events (l : list Event) :
  forallb is_store_step l = true -> forallb is_transfer_event l = true.
Proof.
  rewrite !forallb_forall. intros H e He. unfold is_transfer_event.
  rewrite (H e He). apply orb_true_r.
Qed.

Lemma transferVideos_from_trace (videos : list Video) :
  forall failedVideos (st : State W),
  exists new,
    trace (snd (transferVideos_from rt failedVideos videos st))
    = trace st ++ new
    /\ forallb is_transfer_event new = true
    /\ match fst (transferVideos_from rt failedVideos videos st) with
       | Resolved _ =>
           filter is_details new
           = List.map (fun v => EvFetchVideoDetails (videoId v)) videos
       | Rejected _ => False
       | Halted _ => True
       end.
Proof.
  induction videos as [|v videos IH]; intros failedVideos st.
  - exists []. cbn. rewrite app_nil_r. auto.
  - cbn [transferVideos_from]. unfold bind at 1. unfold bind at 1.
    destruct (transferVideo_trace rt v st) as [tail [E Htail]].
    pose proof (transferVideo_never_rejects rt v st) as Hnever.
    destruct (transferVideo rt v st) as [[pushed|m|h] st1];
      cbn [fst snd] in *.
    + destruct (IH (failedVideos ++ pushed) st1) as [new [E' [Hnew Hres]]].
      exists ((EvFetchVideoDetails (videoId v) :: tail) ++ new).
      rewrite E', E, <- app_assoc. split; [reflexivity|]. split.
      * rewrite forallb_app, Hnew. cbn [forallb].
        rewrite (store_steps_transfer_events _ Htail). reflexivity.
      * destruct (fst (transferVideos_from rt (failedVideos ++ pushed)
                         videos st1)); try exact Hres.
        rewrite filter_app. cbn [filter is_details].
        rewrite (store_steps_no_details _ Htail), Hres. reflexivity.
    + exfalso. apply (Hnever m). reflexivity.
    + exists (EvFetchVideoDetails (videoId v) :: tail).
      split; [exact E|]. split; [|exact I]. cbn [forallb].
      rewrite (store_steps_transfer_events _ Htail). reflexivity.
Qed.


(** What one pass pushes: nothing, or one entry for its record. *)
Lemma transferVideo_pushes_one (video : Video) (st st' : State W)
    (pushed : list LedgerEntry) :
  transferVideo rt video st = (Resolved pushed, st') ->
  pushed = []
  \/ exists e, pushed = [e] /\ entry_video e = video.
Proof.
  assert (Hvideo : forall er ts,
             entry_video (mkEntry (videoId video) (title video) er ts)
             = video) by (intros; destruct video; reflexivity).
  unfold transferVideo, try_catch. unfold bind at 1. unfold perform at 1.
  destruct (fetchVideoDetails rt (videoId video) (world st))
    as [[details|m|h] w1].
  - destruct (truthy (assets_mp4 details)) as [sourceUrl|].
    + unfold bind at 1. rewrite checkFileExists_run.
      destruct (fst (s3_headObject rt _ _)).
      * unfold bind at 1.
        destruct (streamToS3WithRetry rt _ _ _ _ _) as [[res|m|h] st2].
        -- destruct (success res).
           ++ unfold ret. intros H. injection H as <- _. left. reflexivity.
           ++ unfold bind, now, ret. intros H. injection H as <- _.
              right. eexists. split; [reflexivity|apply Hvideo].
        -- unfold bind, now, ret. intros H. injection H as <- _.
           right. eexists. split; [reflexivity|apply Hvideo].
        -- discriminate.
      * unfold ret. intros H. injection H as <- _. left. reflexivity.
    + unfold ret. intros H. injection H as <- _. left. reflexivity.
  - unfold bind, now, ret. intros H. injection H as <- _.
    right. eexists. split; [reflexivity|apply Hvideo].
  - discriminate.
Qed.

Lemma subsequence_refl_nil {A : Type} (l : list A) : subsequence [] l.
Proof. induction l; constructor; assumption. Qed.

Lemma transferVideos_from_failures (videos : list Video) :
  forall failedVideos (st st' : State W) failed,
    transferVideos_from rt failedVideos videos st = (Resolved failed, st') ->
    exists added,
      failed = failedVideos ++ added
      /\ subsequence (List.map entry_video added) videos.
Proof.
  induction videos as [|v videos IH]; intros failedVideos st st' failed Hrun.
  - injection Hrun as <- _. exists []. rewrite app_nil_r.
    split; [reflexivity|constructor].
  - cbn [transferVideos_from] in Hrun. unfold bind at 1 in Hrun.
    destruct (transferVideo rt v st) as [[pushed|m|h] st1] eqn:E;
      try discriminate Hrun.
    destruct (IH _ _ _ _ Hrun) as [added [Hfailed Hsub]].
    destruct (transferVideo_pushes_one v st E) as [->|[e [-> He]]].
    + exists added. rewrite app_nil_r in Hfailed. split; [exact Hfailed|].
      apply subsequence_skip. exact Hsub.
    + exists (e :: added). rewrite <- app_assoc in Hfailed.
      split; [exact Hfailed|]. cbn [List.map]. rewrite He.
      apply subsequence_keep. exact Hsub.
Qed.

(** X7.  The failure list that the loop returns holds at most one entry per
    record, each with the identifier and title of its record, in the order
    of the records: read as records, the failures are the input list with
    some records left out. *)
Theorem failures_follow_the_input (videos : list Video) (st : State W) :
  match fst (transferVideos rt videos st) with
  | Resolved failed =>
      subsequence (List.map entry_video failed) videos
      /\ (List.length failed <= List.length videos)%nat
  | Rejected _ => False
  | Halted _ => True
  end.
Proof.
  unfold transferVideos.
  destruct (transferVideos_from rt [] videos st) as [[failed|m|h] st'] eqn:E;
    cbn [fst].
  - destruct (transferVideos_from_failures videos [] st E)
      as [added [-> Hsub]]. cbn [app]. split; [exact Hsub|].
    rewrite <- (length_map entry_video).
    clear E. induction Hsub; simpl; lia.
  - destruct (transferVideos_from_trace videos [] st) as [new [_ [_ H]]].
    rewrite E in H. exact H.
  - exact I.
Qed.

End LoopFacts.

Section LoopCases.

Context {W : Type} (rt : Runtime W).

Lemma uploads_of_checks (l : list Event) :
  forallb is_check l = true -> uploads l = 0%nat.
Proof.
  unfold uploads. induction l as [|e l IH]; [reflexivity|].
  cbn [forallb filter]. intros H. apply andb_prop in H. destruct H as [He Hl].
  destruct e; try discriminate He; cbn [is_upload]; apply IH, Hl.
Qed.

Lemma transferVideo_all_exist (video : Video) (st : State W) :
  (forall key w, fst (s3_headObject rt key w) = None) ->
  exists new,
    trace (snd (transferVideo rt video st)) = trace st ++ new
    /\ forallb is_check new = true.
Proof.
  intros Hall. unfold transferVideo, try_catch.
  unfold bind at 1. unfold perform at 1.
  destruct (fetchVideoDetails rt (videoId video) (world st))
    as [[details|m|h] w1].
  - destruct (truthy (assets_mp4 details)) as [sourceUrl|].
    + unfold bind at 1. rewrite checkFileExists_run, Hall.
      cbn [world ledgerFile trace ret snd].
      exists [EvFetchVideoDetails (videoId video);
              EvHeadObject (TransferPath.s3Key video)].
      rewrite <- app_assoc. split; reflexivity.
    + exists [EvFetchVideoDetails (videoId video)]. split; reflexivity.
  - exists [EvFetchVideoDetails (videoId video)]. split; reflexivity.
  - exists [EvFetchVideoDetails (videoId video)]. split; reflexivity.
Qed.

(** X8.  When the store already has every key (each existence check finds
    its object), the transfer loop makes no upload and waits for no retry,
    whatever the list of records: all it does is one detail fetch and at
    most one existence check per record. *)
Theorem all_present_no_upload :
  (forall key w, fst (s3_headObject rt key w) = None) ->
  forall videos (st : State W),
  exists new,
    trace (snd (transferVideos rt videos st)) = trace st ++ new
    /\ forallb is_check new = true
    /\ uploads (trace (snd (transferVideos rt videos st)))
       = uploads (trace st).
Proof.
  intros Hall videos st. unfold transferVideos.
  assert (H : forall failedVideos (st : State W),
             exists new,
               trace (snd (transferVideos_from rt failedVideos videos st))
               = trace st ++ new
               /\ forallb is_check new = true).
  { clear st. induction videos as [|v videos IH]; intros failedVideos st.
    - exists []. rewrite app_nil_r. split; reflexivity.
    - cbn [transferVideos_from]. unfold bind at 1.
      destruct (transferVideo_all_exist v st Hall) as [new [E Hnew]].
      destruct (transferVideo rt v st) as [[pushed|m|h] st1];
        cbn [snd] in *.
      + destruct (IH (failedVideos ++ pushed) st1) as [new' [E' Hnew']].
        exists (new ++ new').
        rewrite E', E, app_assoc, forallb_app, Hnew, Hnew'.
        split; reflexivity.
      + exists new. auto.
      + exists new. auto. }
  destruct (H [] st) as [new [E Hnew]].
  exists new. split; [exact E|]. split; [exact Hnew|].
  rewrite E. unfold uploads at 1. rewrite filter_app, length_app.
  fold (uploads (trace st)). fold (uploads new).
  rewrite (uploads_of_checks _ Hnew). lia.
Qed.

(** X9.  A record whose detail fetch rejects is recorded as failed at once,
    with the message of the rejection: there is no second fetch, no
    existence check and no upload for it, and the loop goes on with the
    next record. *)
Theorem detail_failure_is_recorded (video : Video) (rest : list Video)
    (failedVideos : list LedgerEntry) (st : State W) (message : JSString)
    (w1 : W) :
  fetchVideoDetails rt (videoId video) (world st) = (Rejected message, w1) ->
  let st1 :=
    mkState w1 (ledgerFile st)
      (trace st ++ [EvFetchVideoDetails (videoId video)]) in
  let entry :=
    mkEntry (videoId video) (title video) (js_string message)
      (Date_toISOString rt w1) in
  transferVideo rt video st = (Resolved [entry], st1)
  /\ transferVideos_from rt failedVideos (video :: rest) st
     = transferVideos_from rt (failedVideos ++ [entry]) rest st1.
Proof.
  intros Hdetails st1 entry.
  assert (Hbody : transferVideo rt video st = (Resolved [entry], st1)).
  { unfold transferVideo, try_catch, bind at 1, perform at 1.
    rewrite Hdetails. reflexivity. }
  split; [exact Hbody|].
  cbn [transferVideos_from]. unfold bind at 1. rewrite Hbody. reflexivity.
Qed.

End LoopCases.

Lemma all_present_no_upload_witness :
  (forall key w, fst (s3_headObject stuck_runtime key w) = None)
  /\ exists new,
       trace (snd (transferVideos stuck_runtime [video_a; video_b]
                     (sim_start [] NoFile)))
       = trace (sim_start [] NoFile) ++ new
       /\ forallb is_check new = true
       /\ uploads (trace (snd (transferVideos stuck_runtime [video_a; video_b]
                                 (sim_start [] NoFile))))
          = uploads (trace (sim_start [] NoFile)).
Proof.
  assert (H : forall key w, fst (s3_headObject stuck_runtime key w) = None)
    by reflexivity.
  split; [exact H|].
  exact (all_present_no_upload stuck_runtime H [video_a; video_b]
           (sim_start [] NoFile)).
Defined.

Lemma detail_failure_is_recorded_witness :
  fetchVideoDetails (sim_runtime [] false) (videoId video_a)
    (world (sim_start [] NoFile))
  = (Rejected (js "curl exited with code 22"), mkSim [] 0)
  /\ transferVideos (sim_runtime [] false) [video_a; video_b]
       (sim_start [] NoFile)
     = transferVideos_from (sim_runtime [] false)
         [mkEntry (videoId video_a) (title video_a)
            (js_string (js "curl exited with code 22"))
            (js "2024-05-01T12:00:00.000Z")]
         [video_b]
         (mkState (mkSim [] 0) NoFile [EvFetchVideoDetails (videoId video_a)]).
Proof.
  split; [reflexivity|].
  apply (detail_failure_is_recorded (sim_runtime [] false) video_a [video_b]
           [] (sim_start [] NoFile) (message := js "curl exited with code 22")
           (w1 := mkSim [] 0)).
  reflexivity.
Defined.

(* ===================================================================== *)
(** ** The stream to the store *)
(* ===================================================================== *)

Section StreamFacts.

Context {W : Type} (net : Net W) (DO_SPACES_BUCKET : JSString).

(** A response that is not a 200 ends the stream after the one request. *)
Lemma streamToS3_not_200 (sourceUrl s3Key : JSString) (videoTitle : JSValue)
    (w w1 : W) (statusCode : N) (header : Nullable) :
  https_get net sourceUrl w = (GetResponse statusCode header, w1) ->
  statusCode <> 200 ->
  Streaming.streamToS3 net DO_SPACES_BUCKET sourceUrl s3Key videoTitle w
  = (Rejected (js "Failed to download: " ++ Number_toString statusCode), w1,
     [CallGet sourceUrl]).
Proof.
  intros Hget Hstatus. unfold Streaming.streamToS3. rewrite Hget.
  apply N.eqb_neq in Hstatus. rewrite Hstatus. reflexivity.
Qed.

(** X10.  A stream that resolves has uploaded: the source answered 200 and
    the one upload, which resolved, went to the configured bucket under
    the key it was given, as a private [video/mp4] object of the standard
    storage class, in parts of 10 MiB sent one at a time, with the length
    announced by the source when it announced one. *)
Theorem stream_success_means_uploaded (sourceUrl s3Key : JSString)
    (videoTitle : JSValue) (w w' : W) (calls : list NetCall) :
  Streaming.streamToS3 net DO_SPACES_BUCKET sourceUrl s3Key videoTitle w
  = (Resolved tt, w', calls) ->
  exists header w1 params options,
    https_get net sourceUrl w = (GetResponse 200 header, w1)
    /\ s3_upload net params options w1 = (Resolved tt, w')
    /\ calls = [CallGet sourceUrl; CallUpload params options]
    /\ Bucket params = DO_SPACES_BUCKET
    /\ upload_Key params = s3Key
    /\ ContentType params = js "video/mp4"
    /\ ACL params = js "private"
    /\ StorageClass params = js "STANDARD"
    /\ ContentLength params
       = match truthy header with
         | Some length => ContentLength_parseInt length
         | None => ContentLength_unset
         end
    /\ partSize options = 10485760
    /\ queueSize options = 1.
Proof.
  unfold Streaming.streamToS3.
  destruct (https_get net sourceUrl w) as [[message|statusCode header] w1]
    eqn:Hget; [discriminate|].
  destruct (N.eqb_spec statusCode 200) as [->|Hstatus]; cbn [negb];
    [|discriminate].
  match goal with
  | |- context [s3_upload net ?p ?o w1] =>
      set (params := p); set (options := o);
      destruct (s3_upload net params options w1) as [r w2] eqn:Hupload
  end.
  intros Hrun. injection Hrun as -> -> <-.
  exists header, w1, params, options.
  split; [reflexivity|]. split; [exact Hupload|].
  repeat (split; [reflexivity|]).
  split; [|split; reflexivity].
  destruct header as [| |[|c r]]; reflexivity.
Qed.

(** X11.  A source that never answers 200 is requested and never
    uploaded; under the retry it is tried [1 + MAX_RETRIES] times, and the
    failure that results carries [Failed to download: ] followed by the
    status that the source gave to the last of these tries. *)
Theorem dead_source_exhausts_retries (rt : Runtime W)
    (sourceUrl s3Key : JSString) (videoTitle : JSValue) (st : State W) :
  (forall w, exists statusCode header w1,
      https_get net sourceUrl w = (GetResponse statusCode header, w1)
      /\ statusCode <> 200) ->
  (forall w,
      snd (Streaming.streamToS3 net DO_SPACES_BUCKET sourceUrl s3Key
             videoTitle w)
      = [CallGet sourceUrl])
  /\ exists statusCode header w3 w4,
       https_get net sourceUrl w3 = (GetResponse statusCode header, w4)
       /\ statusCode <> 200
       /\ streamToS3WithRetry (with_net rt net DO_SPACES_BUCKET)
            sourceUrl s3Key videoTitle 0 st
          = (Resolved
               (mkRetryResult false
                  (js_string
                     (js "Failed to download: "
                      ++ Number_toString statusCode))),
             mkState w4 (ledgerFile st)
               (trace st
                ++ attempts (EvStreamToS3 sourceUrl s3Key videoTitle)
                     (S MAX_RETRIES))).
Proof.
  intros Hdead. split.
  - intros w. destruct (Hdead w) as [statusCode [header [w1 [Hget Hstatus]]]].
    rewrite (streamToS3_not_200 sourceUrl s3Key videoTitle w Hget Hstatus).
    reflexivity.
  - destruct (@streamToS3WithRetry_exhausted W
                (with_net rt net DO_SPACES_BUCKET) sourceUrl s3Key videoTitle
                st) as [message [w3 [w4 [Hlast Hrun]]]].
    + intros w. destruct (Hdead w) as [statusCode [header [w1 [Hget Hstatus]]]].
      cbn [with_net streamToS3].
      rewrite (streamToS3_not_200 sourceUrl s3Key videoTitle w Hget Hstatus).
      eexists. reflexivity.
    + destruct (Hdead w3) as [statusCode [header [w1 [Hget Hstatus]]]].
      cbn [with_net streamToS3] in Hlast.
      rewrite (streamToS3_not_200 sourceUrl s3Key videoTitle w3 Hget Hstatus)
        in Hlast.
      cbn [fst] in Hlast. injection Hlast as <- <-.
      exists statusCode, header, w3, w1.
      split; [exact Hget|]. split; [exact Hstatus|].
      rewrite Hrun. reflexivity.
Qed.

End StreamFacts.

Lemma stream_success_means_uploaded_witness :
  Streaming.streamToS3 live_link (js "backups") (js "https://cdn.example/v.mp4")
    (TransferPath.s3Key video_a) (title video_a) (mkSim [] 0)
  = (Resolved tt, mkSim [TransferPath.s3Key video_a] 0,
     [CallGet (js "https://cdn.example/v.mp4");
      CallUpload
        (mkUploadParams (js "backups") (TransferPath.s3Key video_a)
           (js "video/mp4") (js "private") (js "STANDARD")
           (ContentLength_parseInt (js "1048576")))
        (mkUploadOptions 10485760 1)])
  /\ exists header w1 params options,
       https_get live_link (js "https://cdn.example/v.mp4") (mkSim [] 0)
       = (GetResponse 200 header, w1)
       /\ s3_upload live_link params options w1
          = (Resolved tt, mkSim [TransferPath.s3Key video_a] 0)
       /\ upload_Key params = TransferPath.s3Key video_a
       /\ ACL params = js "private".
Proof.
  assert (Hrun :
    Streaming.streamToS3 live_link (js "backups")
      (js "https://cdn.example/v.mp4") (TransferPath.s3Key video_a)
      (title video_a) (mkSim [] 0)
    = (Resolved tt, mkSim [TransferPath.s3Key video_a] 0,
       [CallGet (js "https://cdn.example/v.mp4");
        CallUpload
          (mkUploadParams (js "backups") (TransferPath.s3Key video_a)
             (js "video/mp4") (js "private") (js "STANDARD")
             (ContentLength_parseInt (js "1048576")))
          (mkUploadOptions 10485760 1)])) by reflexivity.
  split; [exact Hrun|].
  destruct (stream_success_means_uploaded live_link (js "backups")
              (js "https://cdn.example/v.mp4") (TransferPath.s3Key video_a)
              (title video_a) (mkSim [] 0) Hrun)
    as [header [w1 [params [options [Hget [Hup [_ [_ [Hkey [_ [Hacl _]]]]]]]]]]].
  exists header, w1, params, options. auto.
Defined.

Lemma dead_source_exhausts_retries_witness :
  let rt := sim_runtime [] false in
  let sourceUrl := js "https://cdn.example/v.mp4" in
  let s3Key := TransferPath.s3Key video_a in
  let st := sim_start [] NoFile in
  (forall w, exists statusCode header w1,
      https_get dead_link sourceUrl w = (GetResponse statusCode header, w1)
      /\ statusCode <> 200)
  /\ (forall w,
         snd (Streaming.streamToS3 dead_link (js "backups") sourceUrl s3Key
                (title video_a) w)
         = [CallGet sourceUrl])
  /\ exists statusCode header w3 w4,
       https_get dead_link sourceUrl w3 = (GetResponse statusCode header, w4)
       /\ statusCode <> 200
       /\ streamToS3WithRetry (with_net rt dead_link (js "backups"))
            sourceUrl s3Key (title video_a) 0 st
          = (Resolved
               (mkRetryResult false
                  (js_string
                     (js "Failed to download: "
                      ++ Number_toString statusCode))),
             mkState w4 (ledgerFile st)
               (trace st
                ++ attempts
                     (EvStreamToS3 sourceUrl s3Key (title video_a))
                     (S MAX_RETRIES))).
Proof.
  intros rt sourceUrl s3Key st.
  assert (Hdead : forall w, exists statusCode header w1,
             https_get dead_link sourceUrl w
             = (GetResponse statusCode header, w1)
             /\ statusCode <> 200).
  { intros w. exists 404, js_undefined, w. split; [reflexivity|discriminate]. }
  split; [exact Hdead|].
  exact (dead_source_exhausts_retries dead_link (js "backups") rt sourceUrl
           s3Key (title video_a) st Hdead).
Defined.

(* ===================================================================== *)
(** ** The catalog, when it fails or never ends *)
(* ===================================================================== *)

Section CatalogFacts.

Context {W : Type} (rt : Runtime W).

Lemma page_requests_snoc (count : nat) :
  forall page,
    page_requests page (S count)
    = page_requests page count ++ [EvFetchVideoPage (page + N.of_nat count)].
Proof.
  induction count as [|count IH]; intros page.
  - cbn [page_requests app N.of_nat]. rewrite N.add_0_r. reflexivity.
  - change (page_requests page (S (S count)))
      with (EvFetchVideoPage page :: page_requests (page + 1) (S count)).
    rewrite IH. cbn [page_requests app].
    replace (page + 1 + N.of_nat count) with (page + N.of_nat (S count))
      by lia.
    reflexivity.
Qed.

(** Full pages are read one after the other, each costing one request. *)
Lemma fetchAllVideos_from_full (full : list (list Video)) :
  forall fuel allVideos page (st : State W) w1,
    Forall (fun p => List.length p = 100%nat) full ->
    serves rt page (List.map Some full) (world st) w1 ->
    fetchAllVideos_from rt (List.length full + fuel) allVideos page st
    = fetchAllVideos_from rt fuel (allVideos ++ List.concat full)
        (page + N.of_nat (List.length full))
        (mkState w1 (ledgerFile st)
           (trace st ++ page_requests page (List.length full))).
Proof.
  induction full as [|p full IH]; intros fuel allVideos page st w1 Hfull Hserves.
  - cbn [List.map serves] in Hserves. subst w1.
    cbn [List.length List.concat page_requests Nat.add N.of_nat].
    rewrite !app_nil_r, N.add_0_r. destruct st; reflexivity.
  - cbn [List.map serves] in Hserves. destruct Hserves as [w0 [Hpage Hrest]].
    inversion Hfull as [|? ? Hp Hfull']; subst.
    cbn [List.length Nat.add fetchAllVideos_from].
    unfold bind at 1. unfold perform at 1. rewrite Hpage.
    destruct p as [|v vs]; [simpl in Hp; discriminate|].
    cbv beta iota zeta. cbn [List.length] in Hp |- *.
    rewrite Hp. change (N.of_nat 100 =? 100) with true. cbv iota.
    rewrite (IH fuel (allVideos ++ v :: vs) (page + 1)
               (mkState w0 (ledgerFile st)
                  (trace st ++ [EvFetchVideoPage page])) w1 Hfull' Hrest).
    cbn [world ledgerFile trace List.concat page_requests].
    rewrite <- !app_assoc. cbn [app].
    replace (page + 1 + N.of_nat (List.length full))
      with (page + N.of_nat (S (List.length full))) by lia.
    reflexivity.
Qed.

(** X12.  A page request that is rejected after any number of full pages
    rejects the whole listing: the records of the pages already read are
    dropped, and a normal run or a verification ends in [process.exit(1)]
    having made the page requests and nothing else, the ledger file as it
    was. *)
Theorem catalog_error_aborts (full : list (list Video)) (fuel : nat)
    (args : list JSString) (st : State W) (w1 w2 : W) (message : JSString) :
  Forall (fun p => List.length p = 100%nat) full ->
  serves rt 1 (List.map Some full) (world st) w1 ->
  fetchVideoPage rt (1 + N.of_nat (List.length full)) w1
  = (Rejected message, w2) ->
  (List.length full < fuel)%nat ->
  includes args (js "--retry") = false ->
  includes args (js "--retry-failed") = false ->
  let st' :=
    mkState w2 (ledgerFile st)
      (trace st ++ page_requests 1 (S (List.length full))) in
  fetchAllVideos rt fuel st = (Rejected message, st')
  /\ main rt args fuel st = (ProcessExit1, st').
Proof.
  intros Hfull Hserves Hlast Hfuel Hretry Hfailed st'.
  assert (Hcat : fetchAllVideos rt fuel st = (Rejected message, st')).
  { unfold fetchAllVideos.
    replace fuel with (List.length full + S (fuel - S (List.length full)))%nat
      by lia.
    rewrite (@fetchAllVideos_from_full full _ [] 1 st w1 Hfull Hserves).
    cbn [fetchAllVideos_from]. unfold bind, perform.
    cbn [world ledgerFile trace]. rewrite Hlast.
    unfold st'. rewrite page_requests_snoc, app_assoc. reflexivity. }
  split; [exact Hcat|].
  unfold main. rewrite Hretry, Hfailed. cbn [orb].
  destruct (includes args (js "--verify")).
  - unfold verifyTransfer. unfold bind at 1. unfold bind at 1.
    rewrite Hcat. reflexivity.
  - unfold normal_run. unfold bind at 1. rewrite Hcat. reflexivity.
Qed.

(** X13.  The loop has no bound of its own: against a catalog that answers
    every request with a page of exactly one hundred records it asks for
    page after page and never returns, however many steps it is given. *)
Theorem endless_catalog_never_returns :
  (forall page w, exists p w',
      fetchVideoPage rt page w = (Resolved (Some p), w')
      /\ List.length p = 100%nat) ->
  forall fuel (st : State W),
    fst (fetchAllVideos rt fuel st) = Halted OutOfFuel
    /\ trace (snd (fetchAllVideos rt fuel st))
       = trace st ++ page_requests 1 fuel.
Proof.
  intros Hfull fuel. unfold fetchAllVideos. generalize (@nil Video), 1.
  induction fuel as [|fuel IH]; intros allVideos page st.
  - cbn [fetchAllVideos_from page_requests]. rewrite app_nil_r.
    split; reflexivity.
  - cbn [fetchAllVideos_from]. unfold bind, perform.
    destruct (Hfull page (world st)) as [p [w' [Hpage Hp]]]. rewrite Hpage.
    destruct p as [|v vs]; [simpl in Hp; discriminate|].
    rewrite Hp. change (N.of_nat 100 =? 100) with true. cbv iota.
    destruct (IH (allVideos ++ v :: vs) (page + 1)
                (mkState w' (ledgerFile st)
                   (trace st ++ [EvFetchVideoPage page]))) as [Hres Htrace].
    split; [exact Hres|].
    rewrite Htrace. cbn [trace page_requests].
    rewrite <- app_assoc. reflexivity.
Qed.

End CatalogFacts.

Lemma catalog_error_aborts_witness :
  Forall (fun p => List.length p = 100%nat) [full_page]
  /\ serves flaky_runtime 1 (List.map Some [full_page])
       (world (sim_start [] NoFile)) (mkSim [] 0)
  /\ fetchVideoPage flaky_runtime (1 + N.of_nat (List.length [full_page]))
       (mkSim [] 0)
     = (Rejected (js "curl exited with code 7"), mkSim [] 0)
  /\ fetchAllVideos flaky_runtime 5 (sim_start [] NoFile)
     = (Rejected (js "curl exited with code 7"),
        mkState (mkSim [] 0) NoFile [EvFetchVideoPage 1; EvFetchVideoPage 2])
  /\ main flaky_runtime [] 5 (sim_start [] NoFile)
     = (ProcessExit1,
        mkState (mkSim [] 0) NoFile [EvFetchVideoPage 1; EvFetchVideoPage 2]).
Proof.
  assert (Hfull : Forall (fun p => List.length p = 100%nat) [full_page])
    by (repeat constructor).
  assert (Hserves : serves flaky_runtime 1 (List.map Some [full_page])
                      (world (sim_start [] NoFile)) (mkSim [] 0))
    by (exists (mkSim [] 0); split; reflexivity).
  assert (Hlast : fetchVideoPage flaky_runtime
                    (1 + N.of_nat (List.length [full_page])) (mkSim [] 0)
                  = (Rejected (js "curl exited with code 7"), mkSim [] 0))
    by reflexivity.
  assert (Hfuel : (List.length [full_page] < 5)%nat) by (simpl; lia).
  split; [exact Hfull|]. split; [exact Hserves|]. split; [exact Hlast|].
  exact (@catalog_error_aborts Sim flaky_runtime [full_page] 5 []
           (sim_start [] NoFile) (mkSim [] 0) (mkSim [] 0)
           (js "curl exited with code 7") Hfull Hserves Hlast Hfuel
           eq_refl eq_refl).
Defined.

Lemma endless_catalog_never_returns_witness :
  (forall page w, exists p w',
      fetchVideoPage stuck_runtime page w = (Resolved (Some p), w')
      /\ List.length p = 100%nat)
  /\ fst (fetchAllVideos stuck_runtime 7 (sim_start [] NoFile))
     = Halted OutOfFuel
  /\ trace (snd (fetchAllVideos stuck_runtime 7 (sim_start [] NoFile)))
     = trace (sim_start [] NoFile) ++ page_requests 1 7.
Proof.
  assert (Hfull : forall page w, exists p w',
             fetchVideoPage stuck_runtime page w = (Resolved (Some p), w')
             /\ List.length p = 100%nat).
  { intros page w. exists full_page, w. split; reflexivity. }
  split; [exact Hfull|].
  exact (endless_catalog_never_returns stuck_runtime Hfull 7
           (sim_start [] NoFile)).
Defined.

(* ===================================================================== *)
(** ** The listing of the store *)
(* ===================================================================== *)

Section ListingFacts.

Context {W : Type} (rt : Runtime W).

Lemma continues_last (p : ListData) :
  continues p = true ->
  IsTruncated p = true
  /\ exists o,
       List.last (List.map Some (Contents p)) None = Some o
       /\ last_Key p = Some (Key o).
Proof.
  unfold continues, last_Key. intros H. apply andb_prop in H.
  destruct H as [Htruncated Hcontents]. split; [exact Htruncated|].
  destruct (Contents p) as [|o l]; [discriminate|]. clear.
  revert o. induction l as [|o' l IH]; intros o.
  - exists o. split; reflexivity.
  - destruct (IH o') as [x [E1 E2]]. exists x.
    change (List.last (List.map Some (o :: o' :: l)) None)
      with (List.last (List.map Some (o' :: l)) None).
    rewrite E1 in *. split; [reflexivity|exact E2].
Qed.

(** Pages that announce more are read one after the other, each request
    starting after the last key of the page before; the first page that
    does not go on ends the listing, or the process when it announces more
    without holding a key. *)
Lemma listObjects_pages (prefix : JSString) (pages : list ListData) :
  forall lastp fuel objects marker (st : State W) w',
    forallb continues pages = true ->
    continues lastp = false ->
    listed rt prefix marker (pages ++ [lastp]) (world st) w' ->
    (List.length pages < fuel)%nat ->
    listObjects rt fuel prefix objects marker st
    = (if IsTruncated lastp then Halted UncaughtInCallback
       else Resolved
              (objects ++ List.concat (List.map Contents (pages ++ [lastp]))),
       mkState w' (ledgerFile st)
         (trace st ++ listing_requests prefix marker (pages ++ [lastp]))).
Proof.
  induction pages as [|p pages IH];
    intros lastp fuel objects marker st w' Hpages Hlast Hlisted Hfuel.
  - destruct fuel as [|fuel]; [simpl in Hfuel; lia|].
    cbn [app listed] in Hlisted. destruct Hlisted as [w1 [Hpage ->]].
    cbn [listObjects]. unfold bind, perform. rewrite Hpage.
    cbn [app List.map List.concat listing_requests].
    unfold continues in Hlast.
    destruct (IsTruncated lastp).
    + destruct (Contents lastp); [reflexivity|discriminate].
    + rewrite app_nil_r. reflexivity.
  - destruct fuel as [|fuel]; [simpl in Hfuel; lia|].
    cbn [forallb] in Hpages. apply andb_prop in Hpages.
    destruct Hpages as [Hp Hpages].
    destruct (continues_last p Hp) as [Htruncated [o [Ho Hkey]]].
    cbn [app listed] in Hlisted. destruct Hlisted as [w1 [Hpage Hrest]].
    cbn [listObjects]. unfold bind at 1. unfold perform at 1.
    rewrite Hpage. cbv beta iota zeta. rewrite Htruncated, Ho.
    rewrite Hkey in Hrest.
    rewrite (IH lastp fuel (objects ++ Contents p) (Some (Key o))
               (mkState w1 (ledgerFile st)
                  (trace st ++ [EvListObjects prefix (Marker marker)])) w'
               Hpages Hlast Hrest).
    + cbn [app List.map List.concat listing_requests ledgerFile trace].
      rewrite Hkey, <- !app_assoc. reflexivity.
    + simpl in Hfuel. lia.
Qed.

(** X14.  A listing that comes in pages is read to its end: while a page
    announces more, the next request starts after the last key of that
    page, and the first page that does not announce more ends it; the
    result is every object of every page, in order, and each page was
    asked for once. *)
Theorem listing_reads_every_page (prefix : JSString) (pages : list ListData)
    (lastp : ListData) (fuel : nat) (st : State W) (w' : W) :
  forallb continues pages = true ->
  IsTruncated lastp = false ->
  listed rt prefix None (pages ++ [lastp]) (world st) w' ->
  (List.length pages < fuel)%nat ->
  listS3Objects rt fuel prefix st
  = (Resolved (List.concat (List.map Contents (pages ++ [lastp]))),
     mkState w' (ledgerFile st)
       (trace st ++ listing_requests prefix None (pages ++ [lastp]))).
Proof.
  intros Hpages Hlast Hlisted Hfuel. unfold listS3Objects.
  rewrite (@listObjects_pages prefix pages lastp fuel [] None st w');
    try assumption.
  - rewrite Hlast. reflexivity.
  - unfold continues. rewrite Hlast. reflexivity.
Qed.

(** X15.  A page that announces more but holds no object stops the
    process inside the callback of the listing: the promise of
    [listS3Objects] is never settled, so neither its caller nor the
    handler of [main] runs, and the ledger file is left as it was. *)
Theorem truncated_empty_page_stops (prefix : JSString)
    (pages : list ListData) (lastp : ListData) (fuel : nat) (st : State W)
    (w' : W) :
  forallb continues pages = true ->
  IsTruncated lastp = true ->
  Contents lastp = [] ->
  listed rt prefix None (pages ++ [lastp]) (world st) w' ->
  (List.length pages < fuel)%nat ->
  listS3Objects rt fuel prefix st
  = (Halted UncaughtInCallback,
     mkState w' (ledgerFile st)
       (trace st ++ listing_requests prefix None (pages ++ [lastp]))).
Proof.
  intros Hpages Htruncated Hempty Hlisted Hfuel. unfold listS3Objects.
  rewrite (@listObjects_pages prefix pages lastp fuel [] None st w');
    try assumption.
  - rewrite Htruncated. reflexivity.
  - unfold continues. rewrite Hempty. apply andb_false_r.
Qed.

End ListingFacts.

Lemma listing_reads_every_page_witness :
  let keys := [js "k1"; js "k2"; js "k3"; js "k4"; js "k5"] in
  let rt := paged_runtime [] keys in
  let pages := [paged_listing keys None; paged_listing keys (Some (js "k2"))] in
  let lastp := paged_listing keys (Some (js "k4")) in
  forallb continues pages = true
  /\ IsTruncated lastp = false
  /\ listed rt (js "api-video-backup/") None (pages ++ [lastp])
       (world (sim_start [] NoFile)) (mkSim [] 0)
  /\ listS3Objects rt 4 (js "api-video-backup/") (sim_start [] NoFile)
     = (Resolved (List.map mkS3Object keys),
        mkState (mkSim [] 0) NoFile
          [EvListObjects (js "api-video-backup/") None;
           EvListObjects (js "api-video-backup/") (Some (js "k2"));
           EvListObjects (js "api-video-backup/") (Some (js "k4"))]).
Proof.
  intros keys rt pages lastp.
  assert (Hpages : forallb continues pages = true) by reflexivity.
  assert (Hlast : IsTruncated lastp = false) by reflexivity.
  assert (Hlisted : listed rt (js "api-video-backup/") None (pages ++ [lastp])
                      (world (sim_start [] NoFile)) (mkSim [] 0)).
  { exists (mkSim [] 0). split; [reflexivity|].
    exists (mkSim [] 0). split; [reflexivity|].
    exists (mkSim [] 0). split; reflexivity. }
  assert (Hfuel : (List.length pages < 4)%nat) by (simpl; lia).
  split; [exact Hpages|]. split; [exact Hlast|]. split; [exact Hlisted|].
  exact (@listing_reads_every_page Sim rt (js "api-video-backup/") pages lastp
           4 (sim_start [] NoFile) (mkSim [] 0) Hpages Hlast Hlisted Hfuel).
Defined.

Lemma truncated_empty_page_stops_witness :
  let lastp := mkListData [] true in
  forallb continues [] = true
  /\ IsTruncated lastp = true
  /\ Contents lastp = []
  /\ listed stuck_runtime (js "api-video-backup/") None ([] ++ [lastp])
       (world (sim_start [] NoFile)) (mkSim [] 0)
  /\ listS3Objects stuck_runtime 1 (js "api-video-backup/")
       (sim_start [] NoFile)
     = (Halted UncaughtInCallback,
        mkState (mkSim [] 0) NoFile
          [EvListObjects (js "api-video-backup/") None]).
Proof.
  intros lastp.
  assert (Hlisted : listed stuck_runtime (js "api-video-backup/") None
                      ([] ++ [lastp]) (world (sim_start [] NoFile))
                      (mkSim [] 0))
    by (exists (mkSim [] 0); split; reflexivity).
  assert (Hfuel : (List.length (@nil ListData) < 1)%nat) by (simpl; lia).
  split; [reflexivity|]. split; [reflexivity|]. split; [reflexivity|].
  split; [exact Hlisted|].
  exact (@truncated_empty_page_stops Sim stuck_runtime
           (js "api-video-backup/") [] lastp 1 (sim_start [] NoFile)
           (mkSim [] 0) eq_refl eq_refl eq_refl Hlisted Hfuel).
Defined.

(* ===================================================================== *)
(** ** The loop on ledger items and the loop on catalog records *)
(* ===================================================================== *)

Section RetryFacts.

Context {W : Type} (rt : Runtime W).

Lemma Retry_title_or_videoId_video (video : Video) :
  Retry.title_or_videoId (item_of_video video)
  = Some (JString (title_or_videoId video)).
Proof.
  unfold Retry.title_or_videoId, item_of_video, title_or_videoId.
  cbn [item_title item_videoId].
  destruct (title video) as [| |[|c r]]; reflexivity.
Qed.

(** On a record of the catalog the body of the loop on items is the body
    of the loop on records. *)
Lemma Retry_transferVideo_video (video : Video) (st : State W) :
  Retry.transferVideo rt (item_of_video video) st
  = (Res_map (List.map retry_entry) (fst (transferVideo rt video st)),
     snd (transferVideo rt video st)).
Proof.
  unfold Retry.transferVideo. rewrite Retry_title_or_videoId_video.
  cbn [ToString ToString_JSON item_of_video item_videoId item_title
       Retry.sanitizeFilename].
  change (key_prefix
          ++ str_or
               (trim
                  (replace_runs is_space (js " ")
                     (replace_each (fun c => negb (allowed_char c)) (js "")
                        (title_or_videoId video))))
               (videoId video)
          ++ key_separator ++ videoId video)
    with (TransferPath.s3Key video).
  unfold transferVideo, try_catch, bind, perform.
  destruct (fetchVideoDetails rt (videoId video) (world st))
    as [[details|m|h] w1]; try reflexivity.
  destruct (truthy (assets_mp4 details)) as [sourceUrl|]; try reflexivity.
  rewrite !checkFileExists_run.
  destruct (fst (s3_headObject rt (TransferPath.s3Key video) _));
    try reflexivity.
  destruct (streamToS3WithRetry rt sourceUrl (TransferPath.s3Key video)
              (title video) 0 _) as [[result|m|h] st2]; try reflexivity.
  destruct (success result); reflexivity.
Qed.

Lemma Retry_transferVideos_from_videos (videos : list Video) :
  forall failedVideos (st : State W),
    Retry.transferVideos_from rt (List.map retry_entry failedVideos)
      (List.map item_of_video videos) st
    = (Res_map (List.map retry_entry)
         (fst (transferVideos_from rt failedVideos videos st)),
       snd (transferVideos_from rt failedVideos videos st)).
Proof.
  induction videos as [|v videos IH]; intros failedVideos st; [reflexivity|].
  cbn [List.map Retry.transferVideos_from transferVideos_from].
  unfold bind. rewrite Retry_transferVideo_video.
  destruct (transferVideo rt v st) as [[pushed|m|h] st1];
    cbn [fst snd Res_map]; try reflexivity.
  rewrite <- map_app. apply IH.
Qed.

Lemma Retry_transferVideos_videos (videos : list Video) (st : State W) :
  Retry.transferVideos rt (List.map item_of_video videos) st
  = (Res_map (List.map retry_entry) (fst (transferVideos rt videos st)),
     snd (transferVideos rt videos st)).
Proof. apply (Retry_transferVideos_from_videos videos []). Qed.

(** The items that are video records are the items of video records. *)
Lemma video_of_item_inv (i : RetryItem) (video : Video) :
  video_of_item i = Some video -> i = item_of_video video.
Proof.
  destruct i as [[[]|] [[]|]]; unfold video_of_item; cbn; intros H;
    try discriminate H; injection H as <-; reflexivity.
Qed.

Lemma map_all_video_of_item_inv (items : list RetryItem) :
  forall videos,
    map_all video_of_item items = Some videos ->
    items = List.map item_of_video videos.
Proof.
  induction items as [|i items IH]; intros videos H.
  - injection H as <-. reflexivity.
  - cbn [map_all] in H.
    destruct (video_of_item i) as [v|] eqn:Ei; [|discriminate H].
    destruct (map_all video_of_item items) as [vs|]; [|discriminate H].
    injection H as <-. cbn [List.map].
    rewrite <- (IH vs eq_refl), <- (video_of_item_inv _ Ei). reflexivity.
Qed.

(** The text of an entry of the loop on records, whichever of the two
    writers writes it. *)
Lemma retry_entry_json_entry (e : LedgerEntry) :
  retry_entry_json (retry_entry e) = entry_json e.
Proof.
  unfold retry_entry_json, retry_entry, entry_json, entry_properties.
  cbn [retry_videoId retry_title retry_error retry_timestamp flat_map
       json_property fst snd retry_property app].
  destruct (entry_title e), (entry_error e); reflexivity.
Qed.

Lemma SerializeJSONProperty_entry (e : LedgerEntry) :
  SerializeJSONProperty (NumberToString rt) (js "  ") (entry_json e)
  = stringify_entry e.
Proof.
  unfold entry_json, stringify_entry, entry_properties.
  destruct (entry_title e), (entry_error e); reflexivity.
Qed.

Lemma Retry_JSON_stringify_entries (entries : list LedgerEntry) :
  Retry.JSON_stringify rt (List.map retry_entry entries)
  = JSON_stringify entries.
Proof.
  unfold Retry.JSON_stringify, JSON_stringify.
  rewrite map_map.
  destruct entries as [|e entries]; [reflexivity|].
  assert (H : List.map
                (fun e : JSON =>
                   js "  " ++ SerializeJSONProperty (NumberToString rt) (js "  ") e)
                (List.map (fun x => retry_entry_json (retry_entry x))
                   (e :: entries))
              = List.map (fun e => js "  " ++ stringify_entry e) (e :: entries)).
  { rewrite map_map. apply map_ext. intros x.
    rewrite retry_entry_json_entry, SerializeJSONProperty_entry. reflexivity. }
  cbn [List.map] in H |- *. cbn [SerializeJSONProperty app].
  cbn [List.map]. rewrite H. reflexivity.
Qed.

(** The loop on items makes the calls of a transfer, and no other. *)
Lemma emits_Retry_transferVideo (video : RetryItem) :
  emits is_transfer_event (Retry.transferVideo rt video).
Proof.
  unfold Retry.transferVideo.
  destruct (ToString (NumberToString rt) (Retry.title_or_videoId video));
    [|apply emits_throw].
  apply emits_try_catch.
  - destruct (ToString (NumberToString rt) (item_videoId video)) as [id|];
      [|apply emits_throw].
    apply emits_bind; [apply emits_perform; reflexivity|].
    intros videoDetails.
    destruct (truthy (assets_mp4 videoDetails)); [|apply emits_ret].
    destruct (Retry.sanitizeFilename (Retry.title_or_videoId video));
      [|apply emits_throw].
    apply emits_bind.
    { apply emits_weaken with (P := is_store_step);
        [|apply emits_checkFileExists].
      intros e He. unfold is_transfer_event. rewrite He. apply orb_true_r. }
    intros [|]; [apply emits_ret|].
    apply emits_bind.
    { apply emits_weaken with (P := is_store_step);
        [|apply emits_streamToS3WithRetry].
      intros e He. unfold is_transfer_event. rewrite He. apply orb_true_r. }
    intros result. destruct (success result); [apply emits_ret|].
    apply emits_bind; [apply emits_now|]. intros ?. apply emits_ret.
  - intros message.
    destruct (ToString (NumberToString rt) (item_videoId video));
      [|apply emits_throw].
    apply emits_bind; [apply emits_now|]. intros ?. apply emits_ret.
Qed.

Lemma emits_Retry_transferVideos_from (videos : list RetryItem) :
  forall failedVideos,
    emits is_transfer_event (Retry.transferVideos_from rt failedVideos videos).
Proof.
  induction videos as [|v videos IH]; intros failedVideos;
    cbn [Retry.transferVideos_from]; [apply emits_ret|].
  apply emits_bind; [apply emits_Retry_transferVideo|].
  intros pushed. apply IH.
Qed.

End RetryFacts.

(* ===================================================================== *)
(** ** How a run ends *)
(* ===================================================================== *)

Section RunFacts.

Context {W : Type} (rt : Runtime W).

Ltac not_a_file_event :=
  let e := fresh "e" in
  intros e; destruct e; try discriminate; reflexivity.

Lemma emits_fetchAllVideos_from (fuel : nat) :
  forall allVideos page,
    emits is_page_request (fetchAllVideos_from rt fuel allVideos page).
Proof.
  induction fuel as [|fuel IH]; intros allVideos page;
    [apply emits_halt|].
  cbn [fetchAllVideos_from].
  apply emits_bind; [apply emits_perform; reflexivity|].
  intros [[|v vs]|]; try apply emits_ret.
  cbv zeta. destruct (_ =? _); [apply IH|apply emits_ret].
Qed.

Lemma emits_listObjects (fuel : nat) (prefix : JSString) :
  forall objects marker,
    emits is_listing (listObjects rt fuel prefix objects marker).
Proof.
  induction fuel as [|fuel IH]; intros objects marker; [apply emits_halt|].
  cbn [listObjects].
  apply emits_bind; [apply emits_perform; reflexivity|].
  intros data. cbv zeta. destruct (IsTruncated data); [|apply emits_ret].
  destruct (List.last _ _); [apply IH|apply emits_halt].
Qed.

Lemma emits_transferVideos (videos : list Video) :
  emits is_transfer_event (transferVideos rt videos).
Proof.
  intros st. unfold transferVideos.
  destruct (transferVideos_from_trace rt videos [] st) as [new [E [Hnew _]]].
  exists new. auto.
Qed.

Lemma emits_clearFailedLog : emits is_file_event (clearFailedLog rt).
Proof.
  intros st. rewrite clearFailedLog_run.
  destruct (ledgerFile st) as [|m|data]; cbv zeta;
    [exists []; rewrite app_nil_r; split; reflexivity| |].
  - destruct (unlinkSync_throws rt (UnreadableFile m) (world st));
      exists [EvUnlink]; split; reflexivity.
  - destruct (unlinkSync_throws rt (FileText data) (world st));
      exists [EvUnlink]; split; reflexivity.
Qed.

Lemma emits_fs_writeFileSync (data : JSString) :
  emits is_file_event (fs_writeFileSync rt data).
Proof.
  intros st. exists [EvWriteFile data]. unfold fs_writeFileSync.
  destruct (writeFileSync_throws rt (ledgerFile st) data (world st))
    as [[message remains]|]; split; reflexivity.
Qed.

Lemma calls_fetchAllVideos (fuel : nat) :
  emits (fun e => negb (is_file_event e)) (fetchAllVideos rt fuel).
Proof.
  apply emits_weaken with (P := is_page_request); [not_a_file_event|].
  apply emits_fetchAllVideos_from.
Qed.

Lemma calls_listS3Objects (fuel : nat) (prefix : JSString) :
  emits (fun e => negb (is_file_event e)) (listS3Objects rt fuel prefix).
Proof.
  apply emits_weaken with (P := is_listing); [not_a_file_event|].
  apply emits_listObjects.
Qed.

Lemma calls_transferVideos (videos : list Video) :
  emits (fun e => negb (is_file_event e)) (transferVideos rt videos).
Proof.
  apply emits_weaken with (P := is_transfer_event); [not_a_file_event|].
  apply emits_transferVideos.
Qed.

Lemma calls_Retry_transferVideos (videos : list RetryItem) :
  emits (fun e => negb (is_file_event e)) (Retry.transferVideos rt videos).
Proof.
  apply emits_weaken with (P := is_transfer_event); [not_a_file_event|].
  apply emits_Retry_transferVideos_from.
Qed.

(** The last step, written out: the ledger is removed when there is one,
    or the text is written, and either can be refused. *)
Lemma last_step_run (report : RunReport) (st1 : State W) :
  last_step rt report st1
  = match ledger_text rt (Date_toISOString rt (world st1)) report with
    | None =>
        match ledgerFile st1 with
        | NoFile => (Resolved report, st1)
        | file =>
            match unlinkSync_throws rt file (world st1) with
            | Some message =>
                (Rejected message,
                 mkState (world st1) file (trace st1 ++ [EvUnlink]))
            | None =>
                (Resolved report,
                 mkState (world st1) NoFile (trace st1 ++ [EvUnlink]))
            end
        end
    | Some data =>
        match writeFileSync_throws rt (ledgerFile st1) data (world st1) with
        | Some (message, remains) =>
            (Rejected message,
             mkState (world st1) remains (trace st1 ++ [EvWriteFile data]))
        | None =>
            (Resolved report,
             mkState (world st1) (FileText (toWellFormed data))
               (trace st1 ++ [EvWriteFile data]))
        end
    end.
Proof.
  unfold last_step.
  destruct (ledger_text rt _ report) as [data|].
  - unfold bind, fs_writeFileSync, ret.
    destruct (writeFileSync_throws rt (ledgerFile st1) data (world st1))
      as [[message remains]|]; reflexivity.
  - unfold bind. rewrite clearFailedLog_run.
    destruct st1 as [w1 file events]. cbn [ledgerFile world trace].
    destruct file as [|m|data]; cbv zeta; [reflexivity| |].
    + destruct (unlinkSync_throws rt (UnreadableFile m) w1); reflexivity.
    + destruct (unlinkSync_throws rt (FileText data) w1); reflexivity.
Qed.

(** The last step adds at most one operation on the file: the write of
    its text, or the removal of a ledger that is there. *)
Lemma last_step_ops (report : RunReport) (st1 : State W) :
  trace (snd (last_step rt report st1))
  = trace st1
    ++ match ledger_text rt (Date_toISOString rt (world st1)) report with
       | Some data => [EvWriteFile data]
       | None =>
           match ledgerFile st1 with
           | NoFile => []
           | _ => [EvUnlink]
           end
       end.
Proof.
  rewrite last_step_run.
  destruct (ledger_text rt _ report) as [data|].
  - destruct (writeFileSync_throws rt (ledgerFile st1) data (world st1))
      as [[message remains]|]; reflexivity.
  - destruct (ledgerFile st1) as [|m|data]; cbv zeta.
    + rewrite app_nil_r. reflexivity.
    + destruct (unlinkSync_throws rt (UnreadableFile m) (world st1));
        reflexivity.
    + destruct (unlinkSync_throws rt (FileText data) (world st1));
        reflexivity.
Qed.

(** The text of a last step is the text of a list that is not empty. *)
Lemma ledger_text_entries (timestamp : JSString) (report : RunReport) :
  match ledger_text rt timestamp report with
  | None => True
  | Some data =>
      data <> js "[]"
      /\ ((exists entries, entries <> [] /\ data = JSON_stringify entries)
          \/ (exists entries,
                 entries <> [] /\ data = Retry.JSON_stringify rt entries))
  end.
Proof.
  destruct report as [[|m ms]| |[|e es]|[|e es]]; cbn [ledger_text];
    try exact I.
  - split; [cbn [List.map]; discriminate|].
    left. eexists. split; [|reflexivity]. discriminate.
  - split; [discriminate|].
    right. exists (e :: es). split; [discriminate|reflexivity].
  - split; [discriminate|].
    left. exists (e :: es). split; [discriminate|reflexivity].
Qed.

Lemma finish_last_step (failedVideos : list LedgerEntry) (st1 : State W) :
  finish rt failedVideos st1 = last_step rt (Transferred failedVideos) st1.
Proof. destruct failedVideos; reflexivity. Qed.

Lemma finish_retry_last_step (stillFailed : list RetryEntry)
    (st1 : State W) :
  finish_retry rt stillFailed st1 = last_step rt (Retried stillFailed) st1.
Proof. destruct stillFailed; reflexivity. Qed.

Lemma ends_quietly (allowed : RunReport -> Prop) (origin : State W)
    (r : Res RunReport) (st : State W) :
  quiet (outcome_of r) -> ends rt allowed origin (fun st => (r, st)) st.
Proof.
  intros Hq. exists [], st. rewrite app_nil_r.
  split; [reflexivity|]. split; [reflexivity|]. split; [reflexivity|].
  left. split; [exact Hq|reflexivity].
Qed.

Lemma ends_last_step (allowed : RunReport -> Prop) (origin : State W)
    (report : RunReport) (st1 : State W) :
  allowed report ->
  report_origin rt origin report st1 ->
  ends rt allowed origin (last_step rt report) st1.
Proof.
  intros Ha Ho. exists [], st1. rewrite app_nil_r.
  split; [reflexivity|]. split; [reflexivity|]. split; [reflexivity|].
  right. exists report. split; [exact Ha|]. split; [exact Ho|reflexivity].
Qed.

Lemma ends_bind {A : Type} (allowed : RunReport -> Prop) (origin : State W)
    (c : @M W A) (k : A -> @M W RunReport) (st : State W) :
  keeps_ledger c ->
  emits (fun e => negb (is_file_event e)) c ->
  (forall a st0, c st = (Resolved a, st0) ->
                 ends rt allowed origin (k a) st0) ->
  ends rt allowed origin (bind c k) st.
Proof.
  intros Hkeep Hcalls Hk. unfold ends, bind.
  specialize (Hkeep st). destruct (Hcalls st) as [new [E Hnew]].
  destruct (c st) as [[a|m|h] st0] eqn:Ec; cbn [fst snd] in *.
  - destruct (Hk a st0 eq_refl) as [calls [st1 [E1 [Hl [Hc Hend]]]]].
    exists (new ++ calls), st1.
    split; [rewrite E1, E, app_assoc; reflexivity|].
    split; [congruence|].
    split; [rewrite forallb_app, Hnew, Hc; reflexivity|]. exact Hend.
  - exists new, st0. repeat (split; [assumption|]).
    left. split; [exact I|reflexivity].
  - exists new, st0. repeat (split; [assumption|]).
    left. split; [exact I|reflexivity].
Qed.

Lemma verify_ends (fuel : nat) (st : State W) :
  ends rt (fun report => match report with Verified _ => True | _ => False end)
    st
    (bind (verifyTransfer rt fuel) (fun missing => ret (Verified missing)))
    st.
Proof.
  assert (E : bind (verifyTransfer rt fuel)
                (fun missing => ret (Verified missing)) st
              = bind (fetchAllVideos rt fuel)
                  (fun allVideos =>
                     bind (listS3Objects rt fuel (js "api-video-backup/"))
                       (fun s3Objects =>
                          last_step rt
                            (Verified
                               (flat_map
                                  (check_video (List.map Key s3Objects))
                                  allVideos)))) st).
  { unfold verifyTransfer, bind.
    destruct (fetchAllVideos rt fuel st) as [[allVideos|m|h] st0];
      try reflexivity.
    destruct (listS3Objects rt fuel _ st0) as [[s3Objects|m|h] st1];
      try reflexivity.
    cbv zeta. unfold last_step, ledger_text.
    destruct (flat_map _ allVideos) as [|v l].
    - unfold bind. destruct (clearFailedLog rt st1) as [[[]|m|h] st2];
        reflexivity.
    - unfold bind, now.
      destruct (fs_writeFileSync rt _ st1) as [[[]|m|h] st2]; reflexivity. }
  unfold ends. rewrite E. clear E.
  apply ends_bind;
    [apply keeps_ledger_fetchAllVideos_from|apply calls_fetchAllVideos|].
  intros allVideos st0 _.
  apply ends_bind;
    [apply keeps_ledger_listObjects|apply calls_listS3Objects|].
  intros s3Objects st1 _. apply ends_last_step; exact I.
Qed.

Lemma retry_ends (st : State W) :
  ends rt (fun report => match report with Retried _ => True | _ => False end)
    st (retry_run rt) st.
Proof.
  unfold retry_run.
  destruct (loadFailedVideos_pure st) as [v E].
  assert (Hload : forall k : JSON -> @M W RunReport,
             bind loadFailedVideos k st = k v st)
    by (intros k; unfold bind; rewrite E; reflexivity).
  unfold ends. rewrite !Hload. clear Hload.
  destruct (length_is_zero v) as [[|]|];
    try (apply (ends_quietly _ st (Rejected _) st); exact I);
    try (apply (ends_quietly _ st (Resolved NothingToRetry) st); exact I).
  destruct v as [| | | |elements|];
    try (apply (ends_quietly _ st (Rejected _) st); exact I).
  destruct (map_all retry_item elements) as [items|] eqn:Eitems;
    try (apply (ends_quietly _ st (Rejected _) st); exact I).
  apply ends_bind;
    [apply keeps_ledger_Retry_transferVideos_from
    |apply calls_Retry_transferVideos|].
  intros stillFailed st1 Et.
  unfold ends. rewrite finish_retry_last_step.
  apply ends_last_step; [exact I|]. exists elements, items. auto.
Qed.

Lemma normal_ends (fuel : nat) (st : State W) :
  ends rt
    (fun report => match report with Transferred _ => True | _ => False end)
    st (normal_run rt fuel) st.
Proof.
  unfold normal_run.
  apply ends_bind;
    [apply keeps_ledger_fetchAllVideos_from|apply calls_fetchAllVideos|].
  intros videos st0 _.
  apply ends_bind;
    [apply keeps_ledger_transferVideos_from|apply calls_transferVideos|].
  intros failedVideos st1 Et.
  unfold ends. rewrite finish_last_step.
  apply ends_last_step; [exact I|]. exists videos, st0. exact Et.
Qed.

(** Every run makes its calls, which leave the ledger file alone, and
    then either ends without an operation on the file or takes the last
    step for the report of its mode. *)
Lemma main_ends (args : list JSString) (fuel : nat) (st : State W) :
  exists calls st1,
    trace st1 = trace st ++ calls
    /\ ledgerFile st1 = ledgerFile st
    /\ forallb (fun e => negb (is_file_event e)) calls = true
    /\ ((quiet (fst (main rt args fuel st))
         /\ snd (main rt args fuel st) = st1)
        \/ exists report,
             report_mode args report
             /\ report_origin rt st report st1
             /\ main rt args fuel st
                = (outcome_of (fst (last_step rt report st1)),
                   snd (last_step rt report st1))).
Proof.
  assert (Hbody : forall allowed (body : @M W RunReport),
             (forall report, allowed report -> report_mode args report) ->
             ends rt allowed st body st ->
             exists calls st1,
               trace st1 = trace st ++ calls
               /\ ledgerFile st1 = ledgerFile st
               /\ forallb (fun e => negb (is_file_event e)) calls = true
               /\ ((quiet (fst (match body st with
                                | (Resolved report, st') =>
                                    (Completed report, st')
                                | (Rejected _, st') => (ProcessExit1, st')
                                | (Halted h, st') => (Stopped h, st')
                                end))
                    /\ snd (match body st with
                            | (Resolved report, st') =>
                                (Completed report, st')
                            | (Rejected _, st') => (ProcessExit1, st')
                            | (Halted h, st') => (Stopped h, st')
                            end) = st1)
                   \/ exists report,
                        report_mode args report
                        /\ report_origin rt st report st1
                        /\ match body st with
                           | (Resolved report, st') =>
                               (Completed report, st')
                           | (Rejected _, st') => (ProcessExit1, st')
                           | (Halted h, st') => (Stopped h, st')
                           end
                           = (outcome_of (fst (last_step rt report st1)),
                              snd (last_step rt report st1)))).
  { intros allowed body Hmode [calls [st1 [E [Hl [Hc Hend]]]]].
    exists calls, st1. repeat (split; [assumption|]).
    destruct Hend as [[Hq Hs]|[report [Ha [Ho Hb]]]].
    - left. destruct (body st) as [[report|m|h] st']; auto.
    - right. exists report. split; [apply Hmode, Ha|].
      split; [exact Ho|]. rewrite <- Hb.
      destruct (body st) as [[r|m|h] st']; reflexivity. }
  unfold main. cbv zeta.
  destruct (includes args (js "--verify")) eqn:Hverify.
  - apply Hbody with (2 := verify_ends fuel st).
    intros [| | |]; cbn [report_mode]; try contradiction. auto.
  - destruct (includes args (js "--retry") || includes args (js "--retry-failed"))
      eqn:Hretry.
    + apply Hbody with (2 := retry_ends st).
      intros [| | |]; cbn [report_mode]; try contradiction. auto.
    + apply Hbody with (2 := normal_ends fuel st).
      intros [| | |]; cbn [report_mode]; try contradiction. auto.
Qed.

End RunFacts.

(* ===================================================================== *)
(** ** Verifier, no-source records, ledger *)
(* ===================================================================== *)

Section ClaimFacts.

Context {W : Type} (rt : Runtime W).

Lemma loadFailedVideos_written (es : list LedgerEntry) (st : State W) :
  ledgerFile st = FileText (JSON_stringify es) ->
  loadFailedVideos st = (Resolved (JArray (List.map entry_json es)), st).
Proof.
  intros Hfile.
  unfold loadFailedVideos, fs_existsSync, try_catch, bind, fs_readFileSync.
  rewrite Hfile, JSON_parse_stringify. reflexivity.
Qed.

Lemma check_video_present (s3Keys : list JSString) (l : list Video) :
  (forall u, In u l -> has s3Keys (VerifyPath.expectedKey u) = true) ->
  flat_map (check_video s3Keys) l = [].
Proof.
  induction l as [|u l IH]; intros H; [reflexivity|].
  cbn [flat_map]. unfold check_video at 1.
  rewrite (H u (or_introl eq_refl)). cbn [negb app].
  apply IH. intros x Hx. apply H. right. exact Hx.
Qed.

Lemma serves_app (l1 : list (option (list Video))) :
  forall l2 page (w w' : W),
    serves rt page (l1 ++ l2) w w' ->
    exists w1,
      serves rt page l1 w w1
      /\ serves rt (page + N.of_nat (List.length l1)) l2 w1 w'.
Proof.
  induction l1 as [|p l1 IH]; intros l2 page w w' H.
  - exists w. cbn [List.length N.of_nat]. rewrite N.add_0_r.
    split; [reflexivity|exact H].
  - cbn [app serves] in H. destruct H as [w0 [Hp Hrest]].
    destruct (IH l2 (page + 1) w0 w' Hrest) as [w1 [H1 H2]].
    exists w1. split.
    + cbn [serves]. exists w0. split; assumption.
    + replace (page + N.of_nat (List.length (p :: l1)))
        with (page + 1 + N.of_nat (List.length l1))
        by (cbn [List.length]; lia).
      exact H2.
Qed.

(** With fuel for its pages, the catalog that serves full pages and then
    a shorter one is read to its end. *)
Lemma fetchAllVideos_reads (full : list (list Video))
    (lastp : option (list Video)) (fuel : nat) (st : State W) (w1 : W) :
  catalog_serves rt full lastp (world st) w1 ->
  (List.length full < fuel)%nat ->
  fetchAllVideos rt fuel st
  = (Resolved (catalog_records full lastp),
     mkState w1 (ledgerFile st)
       (trace st ++ page_requests 1 (S (List.length full)))).
Proof.
  intros [Hfull [Hshort Hserves]] Hfuel.
  apply serves_app in Hserves. destruct Hserves as [w0 [Hpages Hlast]].
  rewrite length_map in Hlast.
  cbn [serves] in Hlast. destruct Hlast as [w1' [Hpage ->]].
  unfold fetchAllVideos.
  replace fuel with (List.length full + S (fuel - S (List.length full)))%nat
    by lia.
  rewrite (@fetchAllVideos_from_full W rt full _ [] 1 st w0 Hfull Hpages).
  cbn [fetchAllVideos_from app]. unfold bind, perform.
  cbn [world ledgerFile trace]. rewrite Hpage.
  rewrite page_requests_snoc, <- app_assoc. unfold catalog_records.
  destruct lastp as [[|v vs]|]; cbn [page_records] in *;
    rewrite ?app_nil_r; try reflexivity.
  cbv zeta.
  replace (N.of_nat (List.length (v :: vs)) =? 100) with false
    by (symmetry; apply N.eqb_neq; lia).
  reflexivity.
Qed.

Lemma listS3Objects_reads (pages : list ListData) (lastpage : ListData)
    (fuel : nat) (st : State W) (w' : W) :
  store_lists rt pages lastpage (world st) w' ->
  (List.length pages < fuel)%nat ->
  listS3Objects rt fuel (js "api-video-backup/") st
  = (Resolved (List.concat (List.map Contents (pages ++ [lastpage]))),
     mkState w' (ledgerFile st)
       (trace st
        ++ listing_requests (js "api-video-backup/") None
             (pages ++ [lastpage]))).
Proof.
  intros [Hpages [Hlast Hlisted]] Hfuel. unfold listS3Objects.
  rewrite (@listObjects_pages W rt (js "api-video-backup/") pages lastpage
             fuel [] None st w'); try assumption.
  - rewrite Hlast. reflexivity.
  - unfold continues. rewrite Hlast. reflexivity.
Qed.

(** The verifier, with fuel for the pages of the catalog and of the
    listing: it reads both and takes the last step of its report. *)
Lemma verifyTransfer_reads (full : list (list Video))
    (lastp : option (list Video)) (pages : list ListData)
    (lastpage : ListData) (fuel : nat) (st : State W) (w1 w2 : W) :
  catalog_serves rt full lastp (world st) w1 ->
  store_lists rt pages lastpage w1 w2 ->
  (List.length full < fuel)%nat ->
  (List.length pages < fuel)%nat ->
  let missing :=
    flat_map (check_video (listed_keys pages lastpage))
      (catalog_records full lastp) in
  let st2 := after_reading st full pages lastpage w2 in
  verifyTransfer rt fuel st
  = (Res_map (fun _ => missing) (fst (last_step rt (Verified missing) st2)),
     snd (last_step rt (Verified missing) st2)).
Proof.
  intros Hcat Hstore Hfuel Hfuel' missing st2.
  unfold verifyTransfer. unfold bind at 1.
  rewrite (fetchAllVideos_reads st Hcat Hfuel).
  unfold bind at 1.
  rewrite (@listS3Objects_reads pages lastpage fuel
             (mkState w1 (ledgerFile st)
                (trace st ++ page_requests 1 (S (List.length full))))
             w2 Hstore Hfuel').
  cbn [ledgerFile trace]. rewrite <- app_assoc.
  fold (after_reading st full pages lastpage w2). fold st2.
  cbv zeta. fold (listed_keys pages lastpage). fold missing.
  unfold last_step, ledger_text.
  destruct missing as [|v l].
  - unfold bind. destruct (clearFailedLog rt st2) as [[[]|m|h] st3];
      reflexivity.
  - unfold bind, now.
    destruct (fs_writeFileSync rt _ st2) as [[[]|m|h] st3]; reflexivity.
Qed.


(** What a pass of the loop body pushes belongs to its record; a record
    that never has a source pushes nothing. *)
Lemma transferVideo_pushed (video : Video) (st st' : State W)
    (pushed : list LedgerEntry) :
  transferVideo rt video st = (Resolved pushed, st') ->
  (forall e, In e pushed -> entry_videoId e = videoId video)
  /\ (no_source rt (videoId video) -> pushed = []).
Proof.
  unfold transferVideo, try_catch. unfold bind at 1. unfold perform at 1.
  destruct (fetchVideoDetails rt (videoId video) (world st))
    as [[details|m|h] w1] eqn:Edetails.
  - destruct (truthy (assets_mp4 details)) as [sourceUrl|] eqn:Esource.
    + intros Hrun. split.
      * revert Hrun. unfold bind at 1. rewrite checkFileExists_run.
        destruct (fst (s3_headObject rt _ _)).
        -- unfold bind at 1.
           destruct (streamToS3WithRetry rt _ _ _ _ _) as [[res|m|h] st2].
           ++ destruct (success res).
              ** unfold ret. intros Hrun. injection Hrun as <- _.
                 intros e [].
              ** unfold bind, now, ret. intros Hrun. injection Hrun as <- _.
                 intros e [<-|[]]. reflexivity.
           ++ unfold bind, now, ret. intros Hrun. injection Hrun as <- _.
              intros e [<-|[]]. reflexivity.
           ++ discriminate.
        -- unfold ret. intros Hrun. injection Hrun as <- _. intros e [].
      * intros Hno. destruct (Hno (world st)) as [d [w' [E' Hnone]]].
        rewrite E' in Edetails. injection Edetails as -> _.
        rewrite Hnone in Esource. discriminate.
    + unfold ret. intros Hrun. injection Hrun as <- _.
      split; [intros e []|reflexivity].
  - unfold bind, now, ret. intros Hrun. injection Hrun as <- _. split.
    + intros e [<-|[]]. reflexivity.
    + intros Hno. destruct (Hno (world st)) as [d [w' [E' _]]].
      rewrite E' in Edetails. discriminate.
  - discriminate.
Qed.

Lemma transferVideos_no_source (id : JSString) (videos : list Video) :
  no_source rt id ->
  forall failed0 (st st' : State W) failed,
    (forall e, In e failed0 -> entry_videoId e <> id) ->
    transferVideos_from rt failed0 videos st = (Resolved failed, st') ->
    forall e, In e failed -> entry_videoId e <> id.
Proof.
  intros Hno. induction videos as [|v videos IH];
    intros failed0 st st' failed H0 Hrun.
  - injection Hrun as <- _. exact H0.
  - cbn [transferVideos_from] in Hrun. unfold bind at 1 in Hrun.
    destruct (transferVideo rt v st) as [[pushed|m|h] st1] eqn:E;
      try discriminate.
    destruct (transferVideo_pushed v st E) as [Hid Hskip].
    apply (IH (failed0 ++ pushed) st1 st' failed); [|exact Hrun].
    intros e He. apply in_app_or in He. destruct He as [He|He].
    + apply H0, He.
    + intros Heq. rewrite (Hid e He) in Heq. subst id.
      rewrite (Hskip Hno) in He. destruct He.
Qed.

(** The same on the items of a ledger: an entry is pushed under the
    identifier of its item, which then converts to a string, and never for
    an identifier that has no source. *)
Lemma Retry_transferVideo_pushed (id : JSString) (video : RetryItem)
    (st st' : State W) (pushed : list RetryEntry) :
  no_source rt id ->
  Retry.transferVideo rt video st = (Resolved pushed, st') ->
  forall e, In e pushed ->
            ToString (NumberToString rt) (retry_videoId e) <> Some id.
Proof.
  intros Hno. unfold Retry.transferVideo.
  destruct (ToString (NumberToString rt) (Retry.title_or_videoId video));
    [|discriminate].
  unfold try_catch.
  destruct (ToString (NumberToString rt) (item_videoId video)) as [id'|]
    eqn:Eid; [|discriminate].
  assert (Hpushed : forall message timestamp e,
             id' <> id ->
             In e [mkRetryEntry (item_videoId video) (item_title video)
                     message timestamp] ->
             ToString (NumberToString rt) (retry_videoId e) <> Some id).
  { intros message timestamp e Hne [<-|[]]. cbn [retry_videoId].
    rewrite Eid. congruence. }
  unfold bind at 1. unfold perform at 1.
  destruct (fetchVideoDetails rt id' (world st)) as [[details|m|h] w1]
    eqn:Edetails.
  - destruct (truthy (assets_mp4 details)) as [sourceUrl|] eqn:Esource.
    + assert (Hne : id' <> id).
      { intros ->. destruct (Hno (world st)) as [d [w' [E' Hnone]]].
        rewrite E' in Edetails. injection Edetails as -> _.
        rewrite Hnone in Esource. discriminate. }
      destruct (Retry.sanitizeFilename (Retry.title_or_videoId video)).
      * unfold bind at 1. rewrite checkFileExists_run.
        destruct (fst (s3_headObject rt _ _)).
        -- unfold bind at 1.
           destruct (streamToS3WithRetry rt _ _ _ _ _) as [[res|m|h] st2].
           ++ destruct (success res).
              ** unfold ret. intros Hrun. injection Hrun as <- _.
                 intros e [].
              ** unfold bind, now, ret. intros Hrun. injection Hrun as <- _.
                 intros e. apply Hpushed, Hne.
           ++ unfold bind, now, ret. intros Hrun. injection Hrun as <- _.
              intros e. apply Hpushed, Hne.
           ++ discriminate.
        -- unfold ret. intros Hrun. injection Hrun as <- _. intros e [].
      * unfold throw, bind, now, ret. intros Hrun. injection Hrun as <- _.
        intros e. apply Hpushed, Hne.
    + unfold ret. intros Hrun. injection Hrun as <- _. intros e [].
  - assert (Hne : id' <> id).
    { intros ->. destruct (Hno (world st)) as [d [w' [E' _]]].
      rewrite E' in Edetails. discriminate. }
    unfold bind, now, ret. intros Hrun. injection Hrun as <- _.
    intros e. apply Hpushed, Hne.
  - discriminate.
Qed.

Lemma Retry_transferVideos_no_source (id : JSString)
    (videos : list RetryItem) :
  no_source rt id ->
  forall failed0 (st st' : State W) failed,
    (forall e, In e failed0 ->
               ToString (NumberToString rt) (retry_videoId e) <> Some id) ->
    Retry.transferVideos_from rt failed0 videos st = (Resolved failed, st') ->
    forall e, In e failed ->
              ToString (NumberToString rt) (retry_videoId e) <> Some id.
Proof.
  intros Hno. induction videos as [|v videos IH];
    intros failed0 st st' failed H0 Hrun.
  - injection Hrun as <- _. exact H0.
  - cbn [Retry.transferVideos_from] in Hrun. unfold bind at 1 in Hrun.
    destruct (Retry.transferVideo rt v st) as [[pushed|m|h] st1] eqn:E;
      try discriminate.
    apply (IH (failed0 ++ pushed) st1 st' failed); [|exact Hrun].
    intros e He. apply in_app_or in He. destruct He as [He|He].
    + apply H0, He.
    + apply (@Retry_transferVideo_pushed id v st st1 pushed Hno E e He).
Qed.


(** C10.  A retry run that finds the ledger file absent, unreadable, not
    valid JSON, or holding an empty array ends at once: the outcome is
    "nothing to retry" and the state (world, ledger file and the record
    of every call and file operation) is the one it started with. *)
Theorem retry_without_ledger_is_noop (args : list JSString) (fuel : nat)
    (st : State W) :
  includes args (js "--verify") = false ->
  includes args (js "--retry") || includes args (js "--retry-failed")
  = true ->
  (ledgerFile st = NoFile
   \/ (exists message, ledgerFile st = UnreadableFile message)
   \/ (exists data,
          ledgerFile st = FileText data
          /\ (JSON_parse data = None
              \/ JSON_parse data = Some (JArray [])))) ->
  main rt args fuel st = (Completed NothingToRetry, st).
Proof.
  intros Hverify Hretry Hfile. unfold main. rewrite Hverify, Hretry.
  assert (Hload : loadFailedVideos st = (Resolved (JArray []), st)).
  { unfold loadFailedVideos, fs_existsSync, try_catch, bind,
      fs_readFileSync.
    destruct Hfile as [E|[[m E]|[data [E [Hp|Hp]]]]]; rewrite E;
      try rewrite Hp; reflexivity. }
  unfold retry_run, bind. rewrite Hload. reflexivity.
Qed.


End ClaimFacts.

(* ===================================================================== *)
(** ** The statements at work in the simulated world *)
(* ===================================================================== *)

Lemma pagination_terminates_witness :
  fetchAllVideos (sim_runtime catalog_237 false) 3 (sim_start [] NoFile)
  = (Resolved
       (sim_page catalog_237 1 ++ sim_page catalog_237 2
        ++ sim_page catalog_237 3),
     mkState (mkSim [] 0) NoFile
       [EvFetchVideoPage 1; EvFetchVideoPage 2; EvFetchVideoPage 3])
  /\ List.length
       (sim_page catalog_237 1 ++ sim_page catalog_237 2
        ++ sim_page catalog_237 3) = 237%nat.
Proof.
  apply (proj1 (pagination_terminates (sim_runtime catalog_237 false))
           (sim_page catalog_237 1) (sim_page catalog_237 2)
           (sim_page catalog_237 3) 3%nat (sim_start [] NoFile) (mkSim [] 0)).
  - reflexivity.
  - reflexivity.
  - reflexivity.
  - cbn [serves]. exists (mkSim [] 0). split; [reflexivity|].
    exists (mkSim [] 0). split; [reflexivity|].
    exists (mkSim [] 0). split; reflexivity.
  - lia.
Defined.

Lemma retry_exhaustion_witness :
  exists message st',
    transferVideo (sim_runtime catalog_abc true) video_a (sim_start [] NoFile)
    = (Resolved
         [mkEntry (videoId video_a) (title video_a) (js_string message)
            (js "2024-05-01T12:00:00.000Z")], st')
    /\ uploads (trace st') = 4%nat
    /\ sim_elapsed (world st') = 15000.
Proof.
  destruct (retry_exhaustion (sim_runtime catalog_abc true) video_a [] []
              (sim_start [] NoFile) (details := mkDetails clip)
              (w1 := mkSim [] 0) (sourceUrl := js "https://cdn.example/v.mp4"))
    as [message [w3 [st' [Hlast [Hbody [Htrace [Hcount _]]]]]]].
  - reflexivity.
  - reflexivity.
  - vm_compute. discriminate.
  - intros w. exists (js "socket hang up"). reflexivity.
  - exists message, st'. split; [exact Hbody|]. split; [exact Hcount|].
    assert (E : st' = snd (transferVideo (sim_runtime catalog_abc true)
                             video_a (sim_start [] NoFile)))
      by (rewrite Hbody; reflexivity).
    rewrite E. reflexivity.
Defined.

(** The catalog of three records and a store that holds the keys of two
    of them, as the verifier reads them. *)
Lemma sim_catalog_abc_serves (broken : bool) (w : Sim) :
  catalog_serves (sim_runtime catalog_abc broken) []
    (Some [video_a; video_c; video_b]) w w.
Proof.
  split; [constructor|]. split; [cbn; lia|].
  cbn [List.map app serves]. exists w. split; reflexivity.
Qed.

Lemma sim_store_lists (catalog : list (Video * Nullable)) (broken : bool)
    (w : Sim) :
  store_lists (sim_runtime catalog broken) []
    (mkListData (List.map mkS3Object (sim_store w)) false) w w.
Proof.
  split; [reflexivity|]. split; [reflexivity|].
  cbn [app listed]. exists w. split; reflexivity.
Qed.




Lemma retry_without_ledger_is_noop_witness :
  main (sim_runtime catalog_abc false) [js "--retry"] 5
    (sim_start [] (FileText (js "[]")))
  = (Completed NothingToRetry, sim_start [] (FileText (js "[]")))
  /\ main (sim_runtime catalog_abc false) [js "--retry-failed"] 5
       (sim_start [] NoFile)
     = (Completed NothingToRetry, sim_start [] NoFile)
  /\ main (sim_runtime catalog_abc false) [js "--retry"] 5
       (sim_start [] (FileText (js "{not json")))
     = (Completed NothingToRetry, sim_start [] (FileText (js "{not json"))).
Proof.
  split; [|split]; apply retry_without_ledger_is_noop; try reflexivity.
  - right. right. exists (js "[]"). split; [reflexivity|].
    right. reflexivity.
  - left. reflexivity.
  - right. right. exists (js "{not json"). split; [reflexivity|].
    left. reflexivity.
Defined.


(** A ledger that was not written by the script: its one entry has a
    title and no identifier.  The retry run maps it to a record without
    [videoId], asks for the details of [undefined], records the failure
    and rewrites the ledger, in which the identifier is still missing. *)
Example retry_entry_without_videoId :
  let rt := sim_runtime catalog_abc false in
  let text :=
    js "[{" ++ QuoteJSONString (js "title") ++ js ":"
    ++ QuoteJSONString (js "x") ++ js "}]" in
  let entry :=
    mkRetryEntry None (Some (JString (js "x")))
      (js_string (js "curl exited with code 22"))
      (js "2024-05-01T12:00:00.000Z") in
  JSON_parse text = Some (JArray [JObject [(js "title", JString (js "x"))]])
  /\ main rt [js "--retry"] 3 (sim_start [] (FileText text))
     = (Completed (Retried [entry]),
        mkState (mkSim [] 0) (FileText (Retry.JSON_stringify rt [entry]))
          [EvFetchVideoDetails (js "undefined");
           EvWriteFile (Retry.JSON_stringify rt [entry])])
  /\ JSON_parse (Retry.JSON_stringify rt [entry])
     = Some (JArray
               [JObject
                  [(js "title", JString (js "x"));
                   (js "error", JString (js "curl exited with code 22"));
                   (js "timestamp", JString (js "2024-05-01T12:00:00.000Z"))]]).
Proof.
  intros rt text entry.
  split; [vm_compute; reflexivity|].
  split; vm_compute; reflexivity.
Qed.

(* ===================================================================== *)
(** ** The verifier and the modes of [main] *)
(* ===================================================================== *)

Section ModeFacts.

Context {W : Type} (rt : Runtime W).

Ltac kind_of_event :=
  let e := fresh "e" in
  let He := fresh "He" in
  intros e He; rewrite He, ?orb_true_r; reflexivity.

Lemma check_video_filter (s3Keys : list JSString) (l : list Video) :
  flat_map (check_video s3Keys) l
  = List.map missing_of (filter (absent s3Keys) l).
Proof.
  induction l as [|v l IH]; [reflexivity|].
  cbn [flat_map filter]. rewrite IH. unfold check_video, absent.
  destruct (has s3Keys (VerifyPath.expectedKey v)); reflexivity.
Qed.

Lemma entry_video_missing (timestamp : JSString) (l : list Video) :
  List.map entry_video
    (List.map (missing_entry timestamp) (List.map missing_of l))
  = l.
Proof.
  induction l as [|v l IH]; [reflexivity|].
  cbn [List.map]. rewrite IH. destruct v; reflexivity.
Qed.


Lemma emits_last_step (report : RunReport) :
  emits is_file_event (last_step rt report).
Proof.
  intros st. rewrite last_step_ops. eexists. split; [reflexivity|].
  destruct (ledger_text rt _ report); [reflexivity|].
  destruct (ledgerFile st); reflexivity.
Qed.

Lemma emits_finish (failedVideos : list LedgerEntry) :
  emits is_file_event (finish rt failedVideos).
Proof.
  intros st. rewrite finish_last_step. apply emits_last_step.
Qed.

Lemma emits_finish_retry (stillFailed : list RetryEntry) :
  emits is_file_event (finish_retry rt stillFailed).
Proof.
  intros st. rewrite finish_retry_last_step. apply emits_last_step.
Qed.

Lemma emits_verifyTransfer (fuel : nat) :
  emits (fun e => is_page_request e || is_listing e || is_file_event e)
    (verifyTransfer rt fuel).
Proof.
  unfold verifyTransfer.
  apply emits_bind.
  { apply emits_weaken with (P := is_page_request);
      [kind_of_event|apply emits_fetchAllVideos_from]. }
  intros allVideos. apply emits_bind.
  { apply emits_weaken with (P := is_listing);
      [kind_of_event|apply emits_listObjects]. }
  intros s3Objects. cbv zeta.
  assert (Hfile : forall A (c : @M W A),
             emits is_file_event c ->
             emits (fun e => is_page_request e || is_listing e
                             || is_file_event e) c).
  { intros A c. apply emits_weaken. kind_of_event. }
  destruct (flat_map _ allVideos).
  - apply emits_bind; [apply Hfile, emits_clearFailedLog|].
    intros; apply emits_ret.
  - apply emits_bind; [apply emits_now|]. intros timestamp.
    apply emits_bind; [apply Hfile, emits_fs_writeFileSync|].
    intros; apply emits_ret.
Qed.

Lemma emits_retry_run :
  emits (fun e => is_transfer_event e || is_file_event e) (retry_run rt).
Proof.
  intros st. unfold retry_run. unfold bind at 1.
  destruct (loadFailedVideos_pure st) as [v E]. rewrite E.
  assert (Hnone : forall (r : Res RunReport),
             exists new,
               trace (snd (r, st)) = trace st ++ new
               /\ forallb (fun e => is_transfer_event e || is_file_event e)
                    new = true).
  { intros r. exists []. rewrite app_nil_r. split; reflexivity. }
  destruct (length_is_zero v) as [[|]|]; try apply Hnone.
  destruct v; try apply Hnone.
  destruct (map_all retry_item elements) as [items|]; try apply Hnone.
  apply emits_bind.
  - apply emits_weaken with (P := is_transfer_event);
      [kind_of_event|apply emits_Retry_transferVideos_from].
  - intros failed. apply emits_weaken with (P := is_file_event);
      [kind_of_event|apply emits_finish_retry].
Qed.

Lemma emits_normal_run (fuel : nat) :
  emits (fun e => is_page_request e || is_transfer_event e || is_file_event e)
    (normal_run rt fuel).
Proof.
  unfold normal_run. apply emits_bind.
  { apply emits_weaken with (P := is_page_request);
      [kind_of_event|apply emits_fetchAllVideos_from]. }
  intros videos. apply emits_bind.
  { apply emits_weaken with (P := is_transfer_event);
      [kind_of_event|apply emits_transferVideos]. }
  intros failed. apply emits_weaken with (P := is_file_event);
    [kind_of_event|apply emits_finish].
Qed.

(** X17.  Each mode keeps to its own calls.  A verification reads the
    catalog pages and the listing of the store and touches the ledger
    file, and never fetches details, checks a key, starts a stream or
    waits; a retry run never reads the catalog pages nor the listing; a
    normal run never lists the store.  Nothing else is done in any mode. *)
Theorem calls_of_each_mode (args : list JSString) (fuel : nat)
    (st : State W) :
  exists new,
    trace (snd (main rt args fuel st)) = trace st ++ new
    /\ forallb (mode_event args) new = true.
Proof.
  unfold main, mode_event. cbv zeta.
  assert (Hbody : forall P (body : @M W RunReport),
             emits P body ->
             exists new,
               trace (snd (match body st with
                           | (Resolved report, st') => (Completed report, st')
                           | (Rejected _, st') => (ProcessExit1, st')
                           | (Halted h, st') => (Stopped h, st')
                           end))
               = trace st ++ new
               /\ forallb P new = true).
  { intros P body Hemits. destruct (Hemits st) as [new [E Hnew]].
    exists new. destruct (body st) as [[report|m|h] st']; auto. }
  destruct (includes args (js "--verify")).
  - apply Hbody. apply emits_bind; [apply emits_verifyTransfer|].
    intros; apply emits_ret.
  - destruct (includes args (js "--retry") || includes args (js "--retry-failed")).
    + apply Hbody, emits_retry_run.
    + apply Hbody, emits_normal_run.
Qed.

Lemma map_all_retry_item_null (elements : list JSON) :
  existsb (fun e => match e with JNull => true | _ => false end) elements
  = true ->
  map_all retry_item elements = None.
Proof.
  induction elements as [|e elements IH]; [discriminate|].
  cbn [existsb map_all]. intros H. apply orb_prop in H.
  destruct H as [He|Hrest].
  - destruct e; try discriminate He. reflexivity.
  - rewrite (IH Hrest). destruct (retry_item e); reflexivity.
Qed.

(** X18.  A retry run over a ledger file that holds valid JSON which is
    not an array, or an array with a [null] in it, makes no call and
    leaves the file as it is: it ends in [process.exit(1)], or in nothing
    to retry when the value has a [length] of zero (the empty string, an
    object with [length: 0]). *)
Theorem retry_on_foreign_ledger (args : list JSString) (fuel : nat)
    (st : State W) (data : JSString) (v : JSON) :
  includes args (js "--verify") = false ->
  includes args (js "--retry") || includes args (js "--retry-failed")
  = true ->
  ledgerFile st = FileText data ->
  JSON_parse data = Some v ->
  foreign_ledger v = true ->
  main rt args fuel st
  = (match length_is_zero v with
     | Some true => Completed NothingToRetry
     | _ => ProcessExit1
     end, st).
Proof.
  intros Hverify Hretry Hfile Hparse Hforeign.
  unfold main. rewrite Hverify, Hretry. cbv zeta.
  assert (Hload : loadFailedVideos st = (Resolved v, st)).
  { unfold loadFailedVideos, fs_existsSync, try_catch, bind,
      fs_readFileSync. rewrite Hfile, Hparse. reflexivity. }
  unfold retry_run. unfold bind at 1. rewrite Hload.
  destruct v as [|b|neg m e|s|elements|members]; cbn [length_is_zero].
  - reflexivity.
  - reflexivity.
  - reflexivity.
  - destruct s; reflexivity.
  - destruct elements as [|e elements]; [discriminate Hforeign|].
    cbn [foreign_ledger] in Hforeign.
    rewrite (map_all_retry_item_null _ Hforeign). reflexivity.
  - destruct (get_member (js "length") members) as [[|b|neg m e|s|l|ms]|];
      try reflexivity.
    destruct (number_is_zero m e); reflexivity.
Qed.


End ModeFacts.


Lemma retry_on_foreign_ledger_witness :
  let st := sim_start [] (FileText (js "[null]")) in
  JSON_parse (js "[null]") = Some (JArray [JNull])
  /\ foreign_ledger (JArray [JNull]) = true
  /\ main (sim_runtime catalog_abc false) [js "--retry"] 3 st
     = (ProcessExit1, st).
Proof.
  intros st.
  assert (Hparse : JSON_parse (js "[null]") = Some (JArray [JNull]))
    by (vm_compute; reflexivity).
  split; [exact Hparse|]. split; [reflexivity|].
  exact (@retry_on_foreign_ledger Sim (sim_runtime catalog_abc false)
           [js "--retry"] 3 st (js "[null]") (JArray [JNull])
           eq_refl eq_refl eq_refl Hparse eq_refl).
Defined.


(* ===================================================================== *)
(** ** Start-up *)
(* ===================================================================== *)

(** X20.  The script starts [main] only when each of the five variables
    is set to a non-empty string.  A variable that is absent or empty is
    reported as missing and ends the process with status 1 before any
    call is made or the ledger file is touched, whatever the arguments;
    with all five set the script is [main]. *)
Theorem startup_needs_every_variable {W : Type} (rt : Runtime W)
    (args : list JSString) (fuel : nat) (st : State W) :
  (forall env name,
      In name requiredVars ->
      env name = None \/ env name = Some [] ->
      In name (missingVars env)
      /\ script rt env args fuel st = (ProcessExit1, st))
  /\ (forall env,
         (forall name, In name requiredVars ->
                       exists c r, env name = Some (c :: r)) ->
         missingVars env = []
         /\ script rt env args fuel st = main rt args fuel st).
Proof.
  split.
  - intros env name Hname Henv.
    assert (Hmissing : In name (missingVars env)).
    { unfold missingVars. apply filter_In. split; [exact Hname|].
      unfold unset. destruct Henv as [-> | ->]; reflexivity. }
    split; [exact Hmissing|]. unfold script.
    destruct (missingVars env); [contradiction|reflexivity].
  - intros env Hset.
    assert (Hnone : missingVars env = []).
    { unfold missingVars.
      induction requiredVars as [|name l IH]; [reflexivity|].
      cbn [filter]. destruct (Hset name (or_introl eq_refl)) as [c [r E]].
      unfold unset at 1. rewrite E. apply IH.
      intros n Hn. apply Hset. right. exact Hn. }
    split; [exact Hnone|]. unfold script. rewrite Hnone. reflexivity.
Qed.

Lemma startup_needs_every_variable_witness :
  let rt := sim_runtime catalog_abc false in
  let st := sim_start [] NoFile in
  (In (js "DO_SPACES_KEY") requiredVars
   /\ env_empty_key (js "DO_SPACES_KEY") = Some []
   /\ In (js "DO_SPACES_KEY") (missingVars env_empty_key)
   /\ script rt env_empty_key [js "--verify"] 3 st = (ProcessExit1, st))
  /\ ((forall name, In name requiredVars ->
                    exists c r, env_complete name = Some (c :: r))
      /\ missingVars env_complete = []
      /\ script rt env_complete [js "--verify"] 3 st
         = main rt [js "--verify"] 3 st).
Proof.
  intros rt st.
  assert (Hname : In (js "DO_SPACES_KEY") requiredVars)
    by (right; left; reflexivity).
  assert (Hempty : env_empty_key (js "DO_SPACES_KEY") = Some [])
    by reflexivity.
  assert (Hset : forall name, In name requiredVars ->
                              exists c r, env_complete name = Some (c :: r)).
  { intros name Hin. cbn [requiredVars In] in Hin.
    repeat (destruct Hin as [<-|Hin]; [eexists; eexists; reflexivity|]).
    contradiction. }
  split.
  - split; [exact Hname|]. split; [exact Hempty|].
    exact (proj1 (startup_needs_every_variable rt [js "--verify"] 3 st)
             env_empty_key (js "DO_SPACES_KEY") Hname (or_intror Hempty)).
  - split; [exact Hset|].
    exact (proj2 (startup_needs_every_variable rt [js "--verify"] 3 st)
             env_complete Hset).
Defined.

(* ===================================================================== *)
(** ** The variant that streams without retry *)
(* ===================================================================== *)

Section CurlVariantFacts.

Context {W : Type} (rt : Runtime W).

(** One record: the detail fetch, at most one start of a stream, and
    whatever fails is forgotten. *)
Lemma curl_transferVideo_run (video : Video) (st : State W) :
  exists stream,
    trace (snd (CurlVariant.transferVideo rt video st))
    = trace st ++ EvFetchVideoDetails (videoId video) :: stream
    /\ (stream = []
        \/ exists sourceUrl,
             stream
             = [EvStreamToS3 sourceUrl (CurlVariant.s3Key video)
                  (title video)])
    /\ ledgerFile (snd (CurlVariant.transferVideo rt video st))
       = ledgerFile st
    /\ forall m, fst (CurlVariant.transferVideo rt video st) <> Rejected m.
Proof.
  unfold CurlVariant.transferVideo, try_catch, bind, perform, ret.
  destruct (fetchVideoDetails rt (videoId video) (world st))
    as [[details|m|h] w1].
  - destruct (truthy (assets_mp4 details)) as [sourceUrl|].
    + cbn [world ledgerFile trace].
      destruct (streamToS3 rt sourceUrl _ _ w1) as [[[]|m|h] w2];
        cbn [fst snd trace ledgerFile];
        (eexists; split; [rewrite <- app_assoc; reflexivity|]);
        (split; [right; exists sourceUrl; reflexivity|]);
        (split; [reflexivity|intros ?; discriminate]).
    + exists []. cbn [fst snd trace ledgerFile].
      split; [reflexivity|]. split; [left; reflexivity|].
      split; [reflexivity|intros ?; discriminate].
  - exists []. cbn [fst snd trace ledgerFile].
    split; [reflexivity|]. split; [left; reflexivity|].
    split; [reflexivity|intros ?; discriminate].
  - exists []. cbn [fst snd trace ledgerFile].
    split; [reflexivity|]. split; [left; reflexivity|].
    split; [reflexivity|intros ?; discriminate].
Qed.

Lemma curl_transferEach_run (videos : list Video) :
  forall st : State W,
  exists new,
    trace (snd (CurlVariant.transferEach rt videos st)) = trace st ++ new
    /\ ledgerFile (snd (CurlVariant.transferEach rt videos st))
       = ledgerFile st
    /\ match fst (CurlVariant.transferEach rt videos st) with
       | Resolved _ => one_pass videos new
       | Rejected _ => False
       | Halted _ => exists n, one_pass (firstn n videos) new
       end.
Proof.
  induction videos as [|v videos IH]; intros st.
  - exists []. cbn. rewrite app_nil_r. auto.
  - cbn [CurlVariant.transferEach]. unfold bind.
    destruct (curl_transferVideo_run v st)
      as [stream [E [Hstream [Hledger Hnever]]]].
    destruct (CurlVariant.transferVideo rt v st) as [[[]|m|h] st1];
      cbn [fst snd] in *.
    + destruct (IH st1) as [new [E' [Hledger' Hres]]].
      exists (EvFetchVideoDetails (videoId v) :: stream ++ new).
      split; [rewrite E', E, <- app_assoc; reflexivity|].
      split; [congruence|].
      destruct (fst (CurlVariant.transferEach rt videos st1)).
      * cbn [one_pass]. exists stream, new. auto.
      * exact Hres.
      * destruct Hres as [n Hn]. exists (S n).
        cbn [firstn one_pass]. exists stream, new. auto.
    + exfalso. apply (Hnever m). reflexivity.
    + exists (EvFetchVideoDetails (videoId v) :: stream).
      split; [exact E|]. split; [exact Hledger|].
      exists 1%nat. cbn [firstn one_pass]. exists stream, [].
      rewrite app_nil_r. auto.
Qed.

(** X21.  The earlier variant makes one pass over the first page of the
    catalog and nothing more: it asks for page 1 only, and then for each
    record of the page, in order, fetches the details once and starts at
    most one stream, to the key of that record (a failure is logged and
    not tried again).  It makes no existence check, waits for nothing,
    never touches the ledger file, and returns normally whatever failed
    on the way; a process that is stopped on the way has made the pass
    over the first records of the page. *)
Theorem curl_variant_single_pass (videos : list Video) (st : State W)
    (w1 : W) :
  fetchVideoPage rt 1 (world st) = (Resolved (Some videos), w1) ->
  exists new,
    trace (snd (CurlVariant.transferVideos rt st))
    = trace st ++ EvFetchVideoPage 1 :: new
    /\ ledgerFile (snd (CurlVariant.transferVideos rt st)) = ledgerFile st
    /\ match fst (CurlVariant.transferVideos rt st) with
       | Returned => one_pass videos new
       | Exited1 => False
       | Aborted _ => exists n, one_pass (firstn n videos) new
       end.
Proof.
  intros Hpage.
  unfold CurlVariant.transferVideos, CurlVariant.fetchVideoList.
  unfold bind, perform. rewrite Hpage.
  set (st1 := mkState w1 (ledgerFile st) (trace st ++ [EvFetchVideoPage 1])).
  destruct (curl_transferEach_run videos st1)
    as [new [E [Hledger Hres]]].
  exists new.
  destruct (CurlVariant.transferEach rt videos st1) as [[[]|m|h] st2];
    cbn [fst snd] in *; subst st1; cbn [trace ledgerFile] in *;
    rewrite E, <- app_assoc; auto.
Qed.

End CurlVariantFacts.

Lemma curl_variant_single_pass_witness :
  let rt := sim_runtime catalog_abc true in
  let st := sim_start [] NoFile in
  fetchVideoPage rt 1 (world st)
  = (Resolved (Some [video_a; video_c; video_b]), mkSim [] 0)
  /\ CurlVariant.transferVideos rt st
     = (Returned,
        mkState (mkSim [] 0) NoFile
          [EvFetchVideoPage 1;
           EvFetchVideoDetails (js "a1");
           EvStreamToS3 (js "https://cdn.example/v.mp4")
             (CurlVariant.s3Key video_a) (title video_a);
           EvFetchVideoDetails (js "c3");
           EvFetchVideoDetails (js "b2");
           EvStreamToS3 (js "https://cdn.example/v.mp4")
             (CurlVariant.s3Key video_b) (title video_b)])
  /\ exists new,
       trace (snd (CurlVariant.transferVideos rt st))
       = trace st ++ EvFetchVideoPage 1 :: new
       /\ ledgerFile (snd (CurlVariant.transferVideos rt st)) = ledgerFile st
       /\ match fst (CurlVariant.transferVideos rt st) with
          | Returned => one_pass [video_a; video_c; video_b] new
          | Exited1 => False
          | Aborted _ =>
              exists n, one_pass (firstn n [video_a; video_c; video_b]) new
          end.
Proof.
  intros rt st.
  assert (Hpage : fetchVideoPage rt 1 (world st)
                  = (Resolved (Some [video_a; video_c; video_b]), mkSim [] 0))
    by reflexivity.
  split; [exact Hpage|]. split; [reflexivity|].
  exact (@curl_variant_single_pass Sim rt [video_a; video_c; video_b] st
           (mkSim [] 0) Hpage).
Defined.

(* ===================================================================== *)
(** ** The cost of a run *)
(* ===================================================================== *)

Section Budget.

Context {W : Type} (rt : Runtime W).

Lemma count_events_app (P : Event -> bool) (l l' : list Event) :
  count_events P (l ++ l') = (count_events P l + count_events P l')%nat.
Proof. unfold count_events. rewrite filter_app, length_app. reflexivity. Qed.

Lemma count_events_attempts (sourceUrl s3Key : JSString)
    (videoTitle : JSValue) (n : nat) :
  let e := EvStreamToS3 sourceUrl s3Key videoTitle in
  count_events is_upload (attempts e n) = n
  /\ count_events is_wait (attempts e n) = (n - 1)%nat
  /\ count_events is_head (attempts e n) = 0%nat.
Proof.
  intros e. induction n as [|[|n] IH]; [auto|auto|].
  change (attempts e (S (S n)))
    with ([e; EvDelay RETRY_DELAY] ++ attempts e (S n)).
  rewrite !count_events_app. destruct IH as [-> [-> ->]].
  cbn. repeat split; lia.
Qed.

(** One record costs one detail fetch, at most one existence check, at
    most [1 + MAX_RETRIES] starts of a stream and [MAX_RETRIES] waits. *)
Lemma transferVideo_budget (video : Video) (st : State W) :
  exists new,
    trace (snd (transferVideo rt video st)) = trace st ++ new
    /\ (count_events is_upload new <= S MAX_RETRIES)%nat
    /\ (count_events is_wait new <= MAX_RETRIES)%nat
    /\ (count_events is_head new <= 1)%nat.
Proof.
  unfold transferVideo, try_catch.
  unfold bind at 1. unfold perform at 1.
  destruct (fetchVideoDetails rt (videoId video) (world st))
    as [[details|m|h] w1];
    try (exists [EvFetchVideoDetails (videoId video)];
         split; [reflexivity|]; unfold MAX_RETRIES; cbn; lia).
  destruct (truthy (assets_mp4 details)) as [sourceUrl|];
    [|exists [EvFetchVideoDetails (videoId video)];
      split; [reflexivity|]; unfold MAX_RETRIES; cbn; lia].
  unfold bind at 1. rewrite checkFileExists_run.
  cbn [world ledgerFile trace].
  destruct (fst (s3_headObject rt (TransferPath.s3Key video) w1)) as [err|].
  - unfold bind at 1.
    match goal with
    | |- context [streamToS3WithRetry rt ?u ?k ?t 0 ?s] =>
        destruct (@streamToS3WithRetry_attempts W rt u k t
                    (MAX_RETRIES - 0)%nat 0%nat s (le_n _))
          as [n [Hn [Htrace _]]];
        destruct (count_events_attempts u k t n) as [Hup [Hwait Hhead]];
        destruct (streamToS3WithRetry rt u k t 0 s) as [[result|m|h] st2]
    end;
      cbn [snd trace] in Htrace;
      (exists ([EvFetchVideoDetails (videoId video);
                EvHeadObject (TransferPath.s3Key video)]
               ++ attempts
                    (EvStreamToS3 sourceUrl (TransferPath.s3Key video)
                       (title video)) n));
      (split;
       [ try destruct (success result); cbn [snd bind now ret trace];
         rewrite Htrace, <- !app_assoc; reflexivity
       | rewrite !count_events_app, Hup, Hwait, Hhead;
         unfold MAX_RETRIES in *; cbn; lia ]).
  - exists [EvFetchVideoDetails (videoId video);
            EvHeadObject (TransferPath.s3Key video)].
    split; [cbn [snd ret trace]; rewrite <- app_assoc; reflexivity|].
    unfold MAX_RETRIES; cbn; lia.
Qed.

(** X22.  A transfer over [n] records costs at most [n] existence checks,
    [(1 + MAX_RETRIES) * n] starts of a stream and [MAX_RETRIES * n] waits
    of [RETRY_DELAY], whatever the catalog, the store and the sources
    do. *)
Theorem transfer_cost_is_bounded (videos : list Video) (st : State W) :
  exists new,
    trace (snd (transferVideos rt videos st)) = trace st ++ new
    /\ (count_events is_upload new <= S MAX_RETRIES * List.length videos)%nat
    /\ (count_events is_wait new <= MAX_RETRIES * List.length videos)%nat
    /\ (count_events is_head new <= List.length videos)%nat.
Proof.
  unfold transferVideos. generalize (@nil LedgerEntry). revert st.
  induction videos as [|v videos IH]; intros st failedVideos.
  - exists []. cbn. rewrite app_nil_r. repeat split; lia.
  - cbn [transferVideos_from]. unfold bind.
    destruct (transferVideo_budget v st) as [new [E [Hup [Hwait Hhead]]]].
    destruct (transferVideo rt v st) as [[pushed|m|h] st1]; cbn [snd] in *;
      try (exists new; split; [exact E|];
           cbn [List.length]; unfold MAX_RETRIES in *; lia).
    destruct (IH st1 (failedVideos ++ pushed))
      as [new' [E' [Hup' [Hwait' Hhead']]]].
    exists (new ++ new'). rewrite E', E, app_assoc.
    split; [reflexivity|]. rewrite !count_events_app.
    cbn [List.length]. unfold MAX_RETRIES in *. lia.
Qed.

End Budget.

(* ===================================================================== *)
(** ** When the ledger file is touched *)
(* ===================================================================== *)

Section LedgerTiming.

Context {W : Type} (rt : Runtime W).

(** X23.  Whatever the mode, a run touches the ledger file at most once
    and as the last thing it does: every call to the catalog, the store
    and the sources comes before, and without that operation the file is
    as it was.  A run that is stopped on the way or that finds nothing to
    retry has not touched the file at all, and a run that ends in
    [process.exit(1)] has touched it only if the file system refused the
    operation; so the failures of a run that does not reach its end are
    not recorded. *)
Theorem ledger_touched_once_at_the_end (args : list JSString) (fuel : nat)
    (st : State W) :
  exists calls ops,
    trace (snd (main rt args fuel st)) = trace st ++ calls ++ ops
    /\ forallb (fun e => negb (is_file_event e)) calls = true
    /\ forallb is_file_event ops = true
    /\ (List.length ops <= 1)%nat
    /\ (ops = [] ->
        ledgerFile (snd (main rt args fuel st)) = ledgerFile st)
    /\ match fst (main rt args fuel st) with
       | Completed (Verified _) | Completed (Retried _)
       | Completed (Transferred _) => True
       | Completed NothingToRetry | Stopped _ => ops = []
       | ProcessExit1 =>
           ops = []
           \/ exists op,
                ops = [op]
                /\ refused rt op (ledgerFile st)
                     (world (snd (main rt args fuel st)))
       end.
Proof.
  destruct (main_ends rt args fuel st)
    as [calls [st1 [E [Hled [Hcalls Hend]]]]].
  exists calls.
  destruct Hend as [[Hq Hst]|[report [Hmode [_ Hmain]]]].
  - exists []. rewrite app_nil_r, Hst.
    split; [exact E|]. split; [exact Hcalls|]. split; [reflexivity|].
    split; [cbn; lia|]. split; [intros _; exact Hled|].
    destruct (fst (main rt args fuel st)) as [[| | |]| |];
      try contradiction; auto.
  - rewrite Hmain. cbn [fst snd]. rewrite last_step_run.
    destruct (ledger_text rt (Date_toISOString rt (world st1)) report)
      as [data|].
    + exists [EvWriteFile data].
      destruct (writeFileSync_throws rt (ledgerFile st1) data (world st1))
        as [[message remains]|] eqn:Ew; cbn [fst snd trace world outcome_of].
      * rewrite E, <- app_assoc.
        split; [reflexivity|]. split; [exact Hcalls|]. split; [reflexivity|].
        split; [cbn; lia|]. split; [discriminate|].
        right. exists (EvWriteFile data). split; [reflexivity|].
        cbn [refused]. rewrite <- Hled, Ew. discriminate.
      * rewrite E, <- app_assoc.
        split; [reflexivity|]. split; [exact Hcalls|]. split; [reflexivity|].
        split; [cbn; lia|]. split; [discriminate|].
        destruct report; try exact I. destruct Hmode.
    + destruct (ledgerFile st1) as [|m|data] eqn:Efile; cbv zeta.
      * exists []. cbn [fst snd outcome_of]. rewrite app_nil_r.
        split; [exact E|]. split; [exact Hcalls|]. split; [reflexivity|].
        split; [cbn; lia|]. split; [intros _; congruence|].
        destruct report; try exact I. destruct Hmode.
      * exists [EvUnlink].
        destruct (unlinkSync_throws rt (UnreadableFile m) (world st1))
          eqn:Eu; cbn [fst snd trace world outcome_of];
          rewrite E, <- app_assoc;
          (split; [reflexivity|]); (split; [exact Hcalls|]);
          (split; [reflexivity|]); (split; [cbn; lia|]);
          (split; [discriminate|]).
        -- right. exists EvUnlink. split; [reflexivity|].
           cbn [refused]. rewrite <- Hled, Eu. discriminate.
        -- destruct report; try exact I. destruct Hmode.
      * exists [EvUnlink].
        destruct (unlinkSync_throws rt (FileText data) (world st1))
          eqn:Eu; cbn [fst snd trace world outcome_of];
          rewrite E, <- app_assoc;
          (split; [reflexivity|]); (split; [exact Hcalls|]);
          (split; [reflexivity|]); (split; [cbn; lia|]);
          (split; [discriminate|]).
        -- right. exists EvUnlink. split; [reflexivity|].
           cbn [refused]. rewrite <- Hled, Eu. discriminate.
        -- destruct report; try exact I. destruct Hmode.
Qed.

(** X24.  A first page without records (an empty list, or a response that
    has no [data] at all, as an error body has) makes a normal run end
    after that one request, with nothing transferred: no detail is
    fetched and nothing is streamed.  Without a ledger file the run is a
    success as it stands; a ledger left by an earlier run is removed and
    the run is a success, unless the file system refuses the removal,
    which ends the run in [process.exit(1)] with the ledger still
    there. *)
Theorem dataless_catalog_clears_ledger (args : list JSString) (fuel : nat)
    (st : State W) (p : option (list Video)) (w1 : W) :
  includes args (js "--verify") = false ->
  includes args (js "--retry") = false ->
  includes args (js "--retry-failed") = false ->
  fetchVideoPage rt 1 (world st) = (Resolved p, w1) ->
  page_records p = [] ->
  (0 < fuel)%nat ->
  main rt args fuel st
  = match ledgerFile st with
    | NoFile =>
        (Completed (Transferred []),
         mkState w1 NoFile (trace st ++ [EvFetchVideoPage 1]))
    | file =>
        match unlinkSync_throws rt file w1 with
        | None =>
            (Completed (Transferred []),
             mkState w1 NoFile (trace st ++ [EvFetchVideoPage 1; EvUnlink]))
        | Some _ =>
            (ProcessExit1,
             mkState w1 file (trace st ++ [EvFetchVideoPage 1; EvUnlink]))
        end
    end.
Proof.
  intros Hverify Hretry Hfailed Hpage Hempty Hfuel.
  unfold main. rewrite Hverify, Hretry, Hfailed. cbv zeta. cbn [orb].
  destruct fuel as [|fuel]; [lia|].
  assert (Hcat : fetchAllVideos rt (S fuel) st
                 = (Resolved [],
                    mkState w1 (ledgerFile st)
                      (trace st ++ [EvFetchVideoPage 1]))).
  { unfold fetchAllVideos. cbn [fetchAllVideos_from].
    unfold bind, perform. rewrite Hpage.
    destruct p as [[|v vs]|]; [reflexivity|discriminate Hempty|reflexivity]. }
  unfold normal_run. unfold bind at 1. rewrite Hcat.
  unfold transferVideos. cbn [transferVideos_from]. unfold bind at 1.
  unfold ret at 1. rewrite finish_last_step, last_step_run.
  cbn [ledger_text world ledgerFile trace].
  destruct (ledgerFile st) as [|m|data]; cbv zeta.
  - reflexivity.
  - destruct (unlinkSync_throws rt (UnreadableFile m) w1);
      rewrite <- app_assoc; reflexivity.
  - destruct (unlinkSync_throws rt (FileText data) w1);
      rewrite <- app_assoc; reflexivity.
Qed.

End LedgerTiming.

Lemma dataless_catalog_clears_ledger_witness :
  let rt := sim_runtime [] false in
  let st := sim_start [] (FileText (JSON_stringify [entry_a])) in
  (fetchVideoPage rt 1 (world st) = (Resolved (Some []), mkSim [] 0)
   /\ page_records (Some (@nil Video)) = []
   /\ main rt [] 3 st
      = (Completed (Transferred []),
         mkState (mkSim [] 0) NoFile [EvFetchVideoPage 1; EvUnlink]))
  /\ main (read_only rt) [] 3 st
     = (ProcessExit1,
        mkState (mkSim [] 0) (FileText (JSON_stringify [entry_a]))
          [EvFetchVideoPage 1; EvUnlink]).
Proof.
  intros rt st.
  assert (Hpage : fetchVideoPage rt 1 (world st)
                  = (Resolved (Some []), mkSim [] 0)) by reflexivity.
  assert (Hfuel : (0 < 3)%nat) by lia.
  split.
  - split; [exact Hpage|]. split; [reflexivity|].
    exact (@dataless_catalog_clears_ledger Sim rt [] 3 st (Some [])
             (mkSim [] 0) eq_refl eq_refl eq_refl Hpage eq_refl Hfuel).
  - exact (@dataless_catalog_clears_ledger Sim (read_only rt) [] 3 st
             (Some []) (mkSim [] 0) eq_refl eq_refl eq_refl Hpage eq_refl
             Hfuel).
Defined.
